(** * File transfer through a Drive staging folder: model and properties

    A shallow embedding of [cleanup_old_files.py] (the batch retention job)
    and of the store-facing functions of [app.py] (folder resolution,
    listing, batch upload, chunked download, delete, size formatting) with
    the upload handler and the download tab that call them.

    The Google Drive service is an external collaborator.  It is modelled
    as an in-memory store with a request log and a fault schedule, so that
    any pattern of failing requests can be played against the code. *)

From Stdlib Require Import ZArith List String Bool Lia Arith PeanoNat.
From Stdlib Require Import Sorting.Sorted Sorting.Permutation.
From Stdlib Require Import Init.Byte.
From Stdlib Require DecimalString.
Import ListNotations.

Local Open Scope string_scope.
Local Open Scope list_scope.
Local Open Scope Z_scope.

(* ================================================================== *)
(** * Python values, exceptions and the state-and-exception monad      *)
(* ================================================================== *)

Module Py.

(** The exceptions the modelled code can see.  All of them derive from
    [Exception], so a bare [except Exception] catches each one. *)
Inductive exn : Type :=
| ValueError (msg : string)
| RefreshError
| HttpError (status : Z)
| OverflowError.

Inductive result (A : Type) : Type :=
| Ok (a : A)
| Raise (e : exn).
Arguments Ok {A} a.
Arguments Raise {A} e.

Definition is_ok {A} (r : result A) : bool :=
  match r with Ok _ => true | Raise _ => false end.

(** A computation over a mutable world [S].  The world survives a raise:
    whatever was mutated before the exception stays mutated. *)
Definition M (S A : Type) : Type := S -> result A * S.

Definition ret {S A} (a : A) : M S A := fun s => (Ok a, s).

Definition raise {S A} (e : exn) : M S A := fun s => (Raise e, s).

Definition bind {S A B} (m : M S A) (k : A -> M S B) : M S B :=
  fun s =>
    match m s with
    | (Ok a, s') => k a s'
    | (Raise e, s') => (Raise e, s')
    end.

(** [try: m except Exception as e: h e] *)
Definition try_except {S A} (m : M S A) (h : exn -> M S A) : M S A :=
  fun s =>
    match m s with
    | (Ok a, s') => (Ok a, s')
    | (Raise e, s') => h e s'
    end.

Definition get {S} : M S S := fun s => (Ok s, s).
Definition modify {S} (f : S -> S) : M S unit := fun s => (Ok tt, f s).

(** Truthiness of an optional string: [None] and [''] are falsy. *)
Definition truthy (o : option string) : bool :=
  match o with
  | None => false
  | Some s => negb (String.eqb s "")
  end.

End Py.

Import Py.

Declare Scope py_scope.
Delimit Scope py_scope with py.
Notation "x <- m ;; k" := (bind m (fun x => k))
  (at level 61, m at next level, right associativity) : py_scope.
Notation "m ;;; k" := (bind m (fun _ => k))
  (at level 61, right associativity) : py_scope.
Local Open Scope py_scope.

(* ================================================================== *)
(** * The Drive store                                                  *)
(* ================================================================== *)

Module Drive.

Definition fileId : Type := string.

(** A file resource.  [modifiedTime] is the RFC 3339 timestamp of the
    resource, held as microseconds since the epoch in UTC (the value of
    [datetime.fromisoformat] on it). *)
Record file : Type := mkFile {
  id : fileId;
  name : string;
  mimeType : string;
  trashed : bool;
  parents : list fileId;
  modifiedTime : Z;
  size : option Z;
  content : list byte
}.

(** One conjunct of a [q=] search expression. *)
Inductive term : Type :=
| NameIs (s : string)                 (* name='s' *)
| MimeTypeIs (s : string)             (* mimeType='s' *)
| TrashedIs (b : bool)                (* trashed=b *)
| InParents (p : fileId).             (* 'p' in parents *)

(** A search expression: terms joined by [and]. *)
Definition query : Type := list term.

Inductive order : Type :=
| ModifiedTimeAsc                     (* orderBy="modifiedTime asc" *)
| ModifiedTimeDesc.                   (* orderBy="modifiedTime desc" *)

Record body : Type := mkBody {
  body_name : string;
  body_mimeType : option string;
  body_parents : list fileId
}.

Record media : Type := mkMedia {
  media_mimetype : string;
  media_bytes : list byte
}.

Inductive request : Type :=
| FilesList (q : query) (pageSize : option nat) (orderBy : option order)
| FilesCreate (b : body) (m : option media)
| FilesDelete (f : fileId)
| FilesGetMedia (f : fileId) (start : nat) (len : nat).

(** The store: its resources in the store's own order, the schedule of
    failing requests (by sequence number), the log of requests made with
    their outcome, and the ids and timestamps the store will assign. *)
Record t : Type := mkDrive {
  files : list file;
  fault : nat -> bool;
  log : list (request * bool);
  new_id : nat -> fileId;
  server_time : nat -> Z
}.

Definition with_files (d : t) (fs : list file) : t :=
  mkDrive fs (fault d) (log d) (new_id d) (server_time d).

Definition with_log (d : t) (l : list (request * bool)) : t :=
  mkDrive (files d) (fault d) l (new_id d) (server_time d).

Definition sat (tm : term) (f : file) : bool :=
  match tm with
  | NameIs s => String.eqb (name f) s
  | MimeTypeIs s => String.eqb (mimeType f) s
  | TrashedIs b => Bool.eqb (trashed f) b
  | InParents p => existsb (String.eqb p) (parents f)
  end.

Definition matches (q : query) (f : file) : bool :=
  forallb (fun tm => sat tm f) q.

(** Stable insertion sort on [modifiedTime]. *)
Definition le_by (o : order) (a b : file) : bool :=
  match o with
  | ModifiedTimeAsc => modifiedTime a <=? modifiedTime b
  | ModifiedTimeDesc => modifiedTime b <=? modifiedTime a
  end.

Fixpoint insert_by (o : order) (x : file) (l : list file) : list file :=
  match l with
  | [] => [x]
  | y :: l' => if le_by o x y then x :: y :: l' else y :: insert_by o x l'
  end.

Definition sort_by (o : order) (l : list file) : list file :=
  fold_right (insert_by o) [] l.

Definition ordered (o : option order) (l : list file) : list file :=
  match o with
  | None => l
  | Some o' => sort_by o' l
  end.

(** [pageSize]: at most that many resources come back in one page; the
    default is 100 and the service caps it at 1000. *)
Definition page_limit (pageSize : option nat) : nat :=
  match pageSize with
  | None => 100%nat
  | Some n => Nat.min n 1000%nat
  end.

(** The full result set of a search, before paging. *)
Definition result_set (q : query) (o : option order) (d : t) : list file :=
  ordered o (filter (matches q) (files d)).

Definition has_id (i : fileId) (f : file) : bool := String.eqb (id f) i.

(** Every request goes through [call]: the fault schedule decides whether
    request number [List.length (log d)] fails in transport; otherwise the
    store serves it.  Either way the request is logged with its outcome. *)
Definition call {A} (r : request) (serve : t -> result A * t) : M t A :=
  fun d =>
    if fault d (List.length (log d)) then
      (Raise (HttpError 503), with_log d (log d ++ [(r, false)]))
    else
      match serve d with
      | (Ok a, d') => (Ok a, with_log d' (log d ++ [(r, true)]))
      | (Raise e, d') => (Raise e, with_log d' (log d ++ [(r, false)]))
      end.

(** [service.files().list(q=..., pageSize=..., orderBy=...).execute()],
    then [results.get('files', [])]: the first page only. *)
Definition files_list (q : query) (pageSize : option nat)
    (orderBy : option order) : M t (list file) :=
  call (FilesList q pageSize orderBy)
       (fun d => (Ok (firstn (page_limit pageSize) (result_set q orderBy d)), d)).

Definition created (d : t) (b : body) (m : option media) : file :=
  let n := List.length (log d) in
  mkFile (new_id d n) (body_name b)
         (match body_mimeType b, m with
          | Some mt, _ => mt
          | None, Some md => media_mimetype md
          | None, None => "application/octet-stream"
          end)
         false (body_parents b) (server_time d n)
         (match m with
          | Some md => Some (Z.of_nat (List.length (media_bytes md)))
          | None => None
          end)
         (match m with Some md => media_bytes md | None => [] end).

(** [service.files().create(body=..., media_body=..., fields=...).execute()] *)
Definition files_create (b : body) (m : option media) : M t file :=
  call (FilesCreate b m)
       (fun d => let f := created d b m in
                 (Ok f, with_files d (files d ++ [f]))).

(** [service.files().delete(fileId=...).execute()]: 404 when no resource
    has that id. *)
Definition files_delete (i : fileId) : M t unit :=
  call (FilesDelete i)
       (fun d => if existsb (has_id i) (files d)
                 then (Ok tt, with_files d (filter (fun f => negb (has_id i f)) (files d)))
                 else (Raise (HttpError 404), d)).

(** The HTTP answer to a ranged [get_media] request: its status, the
    bytes of the range and the total size from [content-range]. *)
Record media_response : Type := mkMediaResponse {
  status : Z;
  chunk : list byte;
  total : nat
}.

Definition serve_media (i : fileId) (start len : nat) (d : t) : media_response :=
  match find (has_id i) (files d) with
  | None => mkMediaResponse 404 [] 0
  | Some f =>
      let c := content f in
      if (start <? List.length c)%nat
      then mkMediaResponse 206 (firstn len (skipn start c)) (List.length c)
      else mkMediaResponse 416 [] (List.length c)
  end.

(** [http.request(uri, 'GET', headers={'range': 'bytes=start-(start+len-1)'})]
    for [files().get_media(fileId=i)]. *)
Definition files_get_media (i : fileId) (start len : nat) : t -> media_response * t :=
  fun d =>
    let r := FilesGetMedia i start len in
    if fault d (List.length (log d)) then
      (mkMediaResponse 503 [] 0, with_log d (log d ++ [(r, false)]))
    else
      let resp := serve_media i start len d in
      (resp, with_log d (log d ++ [(r, (status resp =? 206) || (status resp =? 200))])).

(** The requests of a log, and the delete requests among them. *)
Definition requests (l : list (request * bool)) : list request := map fst l.

Definition is_create (r : request) : bool :=
  match r with FilesCreate _ _ => true | _ => false end.

Fixpoint delete_ids (l : list (request * bool)) : list fileId :=
  match l with
  | [] => []
  | (FilesDelete i, _) :: l' => i :: delete_ids l'
  | _ :: l' => delete_ids l'
  end.

End Drive.

(* ================================================================== *)
(** * cleanup_old_files.py: the batch retention job                    *)
(* ================================================================== *)

Module Cleanup.

(** Configuration *)
Definition FOLDER_NAME : string := "WorkPC_Transfer".
Definition MAX_AGE_DAYS : Z := 7.

Definition FOLDER_MIME : string := "application/vnd.google-apps.folder".

(** One day in microseconds, the resolution of [datetime]. *)
Definition DAY : Z := 86400 * 1000000.

(** [timedelta(days=n)] *)
Definition timedelta_days (n : Z) : Z := n * DAY.

(** [td.days] of a [timedelta]: floor division, also for negative ones. *)
Definition days_of (td : Z) : Z := td / DAY.

(** The environment variables the job reads. *)
Record environ : Type := mkEnviron {
  GOOGLE_TOKEN : option string;
  GOOGLE_REFRESH_TOKEN : option string;
  GOOGLE_TOKEN_URI : option string;
  GOOGLE_CLIENT_ID : option string;
  GOOGLE_CLIENT_SECRET : option string
}.

(** What the logger and [print] emit. *)
Inductive line : Type :=
| InfoStarting
| InfoWillDelete (days : Z)
| InfoTokenExpired
| InfoTokenRefreshed
| WarnFolderNotFound
| InfoNoFolder
| InfoFound (n : nat)
| InfoCutoff (cutoff : Z)
| InfoDeleting (name : string) (age_days : Z)
| InfoDeleted (name : string)
| InfoKeeping (name : string) (age_days : Z)
| InfoComplete (deleted : Z)
| ErrorFailed (e : exn)
| PrintSuccessful (deleted : Z)
| PrintFailed (e : exn).

(** The world of one run of the job.  [creds_valid], [creds_expired] and
    [refresh_ok] stand for the auth library's verdicts on the token built
    from the environment; [clock] gives the successive readings of
    [datetime.now(timezone.utc)], [ticks] counts the readings taken. *)
Record world : Type := mkWorld {
  env : environ;
  creds_valid : bool;
  creds_expired : bool;
  refresh_ok : bool;
  drive : Drive.t;
  clock : nat -> Z;
  ticks : nat;
  out : list line
}.

Definition with_drive (w : world) (d : Drive.t) : world :=
  mkWorld (env w) (creds_valid w) (creds_expired w) (refresh_ok w)
          d (clock w) (ticks w) (out w).

Definition emit (l : line) : M world unit :=
  modify (fun w => mkWorld (env w) (creds_valid w) (creds_expired w)
                           (refresh_ok w) (drive w) (clock w) (ticks w)
                           (out w ++ [l])).

(** [datetime.now(timezone.utc)] *)
Definition utcnow : M world Z :=
  fun w => (Ok (clock w (ticks w)),
            mkWorld (env w) (creds_valid w) (creds_expired w) (refresh_ok w)
                    (drive w) (clock w) (S (ticks w)) (out w)).

(** Run a store request in the world. *)
Definition on_drive {A} (m : M Drive.t A) : M world A :=
  fun w => let '(r, d) := m (drive w) in (r, with_drive w d).

(** The required keys that are missing or empty, in the order of
    [required]. *)
Definition missing (e : environ) : list string :=
  (if truthy (GOOGLE_TOKEN e) then [] else ["token"]) ++
  (if truthy (GOOGLE_REFRESH_TOKEN e) then [] else ["refresh_token"]) ++
  (if truthy (GOOGLE_CLIENT_ID e) then [] else ["client_id"]) ++
  (if truthy (GOOGLE_CLIENT_SECRET e) then [] else ["client_secret"]).

Definition nonempty {A} (l : list A) : bool :=
  match l with [] => false | _ :: _ => true end.

Definition get_credentials : M world unit :=
  w <- get ;;
  if nonempty (missing (env w)) then
    raise (ValueError "Missing required credentials")
  else if negb (creds_valid w) then
    if creds_expired w && truthy (GOOGLE_REFRESH_TOKEN (env w)) then
      emit InfoTokenExpired ;;;
      (if refresh_ok w then ret tt else raise RefreshError) ;;;
      emit InfoTokenRefreshed
    else
      raise (ValueError "Invalid credentials and cannot refresh")
  else ret tt.

Definition get_drive_service : M world unit := get_credentials.

Definition folder_query : Drive.query :=
  [Drive.NameIs FOLDER_NAME; Drive.MimeTypeIs FOLDER_MIME; Drive.TrashedIs false].

Definition get_folder_id : M world (option Drive.fileId) :=
  files <- on_drive (Drive.files_list folder_query None None) ;;
  match files with
  | [] => emit WarnFolderNotFound ;;; ret None
  | f :: _ => ret (Some (Drive.id f))
  end.

Definition children_query (folder_id : Drive.fileId) : Drive.query :=
  [Drive.InParents folder_id; Drive.TrashedIs false].

Definition list_files (folder_id : Drive.fileId) : M world (list Drive.file) :=
  on_drive (Drive.files_list (children_query folder_id) (Some 100%nat)
                             (Some Drive.ModifiedTimeAsc)).

Definition delete_file (file_id : Drive.fileId) (file_name : string) : M world unit :=
  on_drive (Drive.files_delete file_id) ;;;
  emit (InfoDeleted file_name).

(** The body of [for file in files:], with [deleted_count] threaded. *)
Fixpoint for_files (files : list Drive.file) (cutoff_date : Z)
    (deleted_count : Z) : M world Z :=
  match files with
  | [] => ret deleted_count
  | file :: rest =>
      let modified_time := Drive.modifiedTime file in
      if modified_time <? cutoff_date then
        now <- utcnow ;;
        let age_days := days_of (now - modified_time) in
        emit (InfoDeleting (Drive.name file) age_days) ;;;
        delete_file (Drive.id file) (Drive.name file) ;;;
        for_files rest cutoff_date (deleted_count + 1)
      else
        now <- utcnow ;;
        let age_days := days_of (now - modified_time) in
        emit (InfoKeeping (Drive.name file) age_days) ;;;
        for_files rest cutoff_date deleted_count
  end.

Definition cleanup_old_files : M world Z :=
  emit InfoStarting ;;;
  emit (InfoWillDelete MAX_AGE_DAYS) ;;;
  get_drive_service ;;;
  folder_id <- get_folder_id ;;
  if negb (truthy folder_id) then
    emit InfoNoFolder ;;;
    ret 0
  else
    let fid := match folder_id with Some i => i | None => "" end in
    files <- list_files fid ;;
    emit (InfoFound (List.length files)) ;;;
    now <- utcnow ;;
    let cutoff_date := now - timedelta_days MAX_AGE_DAYS in
    emit (InfoCutoff cutoff_date) ;;;
    deleted_count <- for_files files cutoff_date 0 ;;
    emit (InfoComplete deleted_count) ;;;
    ret deleted_count.

(** [if __name__ == '__main__':] the process exit status and final world. *)
Definition main (w : world) : Z * world :=
  match cleanup_old_files w with
  | (Ok deleted, w') =>
      (0, snd (emit (PrintSuccessful deleted) w'))
  | (Raise e, w') =>
      (1, snd ((emit (ErrorFailed e) ;;; emit (PrintFailed e)) w'))
  end.

End Cleanup.

(* ================================================================== *)
(** * Floats as Python computes them                                   *)
(* ================================================================== *)

Module PyFloat.

(** A positive finite binary64 value [mant * 2^expo].  Only positive
    values arise below: every division is reached with an operand of at
    least 1024. *)
Record t : Type := mk { mant : Z; expo : Z }.

(** Round a positive integer to 53 significant bits, ties to even. *)
Definition round53 (n : Z) : t :=
  let bits := Z.log2 n + 1 in
  if bits <=? 53 then mk n 0
  else
    let s := bits - 53 in
    let q := n / 2 ^ s in
    let r := n mod 2 ^ s in
    let half := 2 ^ (s - 1) in
    let up := (half <? r) || ((r =? half) && Z.odd q) in
    mk (if up then q + 1 else q) s.

(** The value is at least [2^1024], beyond the largest double. *)
Definition overflows (x : t) : bool := 1024 <=? Z.log2 (mant x) + expo x.

(** [x / 1024] on a float: a change of exponent, exact for values of at
    least 1. *)
Definition div_1024 (x : t) : t := mk (mant x) (expo x - 10).

(** [n / 1024] on a positive [int]: the correctly rounded quotient, or
    [OverflowError] when it does not fit a double. *)
Definition int_truediv_1024 (n : Z) : result t :=
  let x := div_1024 (round53 n) in
  if overflows x then Raise OverflowError else Ok x.

(** [x < 1024] *)
Definition lt_1024 (x : t) : bool :=
  if 0 <=? expo x then mant x * 2 ^ expo x <? 1024
  else mant x <? 1024 * 2 ^ (- expo x).

(** [10 * x] rounded to an integer, ties to even: the digits that
    ['%.1f'] prints. *)
Definition tenths (x : t) : Z :=
  if 0 <=? expo x then 10 * mant x * 2 ^ expo x
  else
    let den := 2 ^ (- expo x) in
    let q := (10 * mant x) / den in
    let r := (10 * mant x) mod den in
    if (den <? 2 * r) || ((2 * r =? den) && Z.odd q) then q + 1 else q.

Definition decimal (n : Z) : string :=
  DecimalString.NilZero.string_of_int (Z.to_int n).

(** [format(d / 10, '.1f')] for a count [d] of tenths *)
Definition show_tenths (d : Z) : string :=
  String.append (decimal (d / 10)) (String.append "." (decimal (d mod 10))).

(** [format(x, '.1f')] *)
Definition format_f1 (x : t) : string := show_tenths (tenths x).

(** [format(n, '.1f')] on an [int]: the int is converted to a float
    first, which rounds it and may overflow. *)
Definition format_f1_int (n : Z) : result string :=
  if n =? 0 then Ok "0.0"
  else
    let x := round53 (Z.abs n) in
    if overflows x then Raise OverflowError
    else Ok (String.append (if n <? 0 then "-" else "")
               (String.append (decimal (mant x * 2 ^ expo x)) ".0")).

End PyFloat.

(* ================================================================== *)
(** * io.BytesIO                                                       *)
(* ================================================================== *)

Module Io.

Record BytesIO : Type := mkBytesIO { getvalue : list byte; tell : nat }.

Definition empty : BytesIO := mkBytesIO [] 0.

(** [fd.write(b)]: overwrite from the current position, extend past the
    end, advance the position. *)
Definition write (fd : BytesIO) (b : list byte) : BytesIO :=
  mkBytesIO (firstn (tell fd) (getvalue fd) ++ b
               ++ skipn (tell fd + List.length b) (getvalue fd))
            (tell fd + List.length b).

(** [fd.seek(p)] *)
Definition seek (fd : BytesIO) (p : nat) : BytesIO := mkBytesIO (getvalue fd) p.

(** [fd.read()]: everything from the current position. *)
Definition read (fd : BytesIO) : list byte := skipn (tell fd) (getvalue fd).

End Io.

(* ================================================================== *)
(** * app.py: the interactive session                                  *)
(* ================================================================== *)

Module App.

Definition FOLDER_NAME : string := "WorkPC_Transfer".
Definition FOLDER_MIME : string := "application/vnd.google-apps.folder".

Definition folder_query : Drive.query :=
  [Drive.NameIs FOLDER_NAME; Drive.MimeTypeIs FOLDER_MIME; Drive.TrashedIs false].

Definition folder_metadata : Drive.body :=
  Drive.mkBody FOLDER_NAME (Some FOLDER_MIME) [].

(** The body of [get_folder_id]: get or create the folder. *)
Definition get_folder_id : M Drive.t Drive.fileId :=
  files <- Drive.files_list folder_query None None ;;
  match files with
  | f :: _ => ret (Drive.id f)
  | [] =>
      folder <- Drive.files_create folder_metadata None ;;
      ret (Drive.id folder)
  end.

(** What the page shows. *)
Inductive widget : Type :=
| StatusText (s : string)
| StatusUploading (name : string)
| StError (name : string) (e : exn)
| Progress (done total : nat)
| StSuccess (n : Z)
| Balloons.

(** The session: the store, the one entry of [st.cache_data] for
    [get_folder_id] with the time it was stored, and the page. *)
Record session : Type := mkSession {
  drive : Drive.t;
  folder_cache : option (Z * Drive.fileId);
  page : list widget
}.

Definition on_drive {A} (m : M Drive.t A) : M session A :=
  fun s => let '(r, d) := m (drive s) in (r, mkSession d (folder_cache s) (page s)).

Definition show (w : widget) : M session unit :=
  modify (fun s => mkSession (drive s) (folder_cache s) (page s ++ [w])).

Definition cache_store (now : Z) (v : Drive.fileId) : M session unit :=
  modify (fun s => mkSession (drive s) (Some (now, v)) (page s)).

(** [st.cache_data.clear()] *)
Definition cache_clear : M session unit :=
  modify (fun s => mkSession (drive s) None (page s)).

(** [ttl=60], in microseconds. *)
Definition TTL : Z := 60 * 1000000.

(** [get_folder_id] under [@st.cache_data(ttl=60)], called at time [now]:
    its only argument is excluded from the key, so there is one entry; a
    raised exception is not cached. *)
Definition cached_get_folder_id (now : Z) : M session Drive.fileId :=
  s <- get ;;
  let miss := (v <- on_drive get_folder_id ;; cache_store now v ;;; ret v) in
  match folder_cache s with
  | Some (stored, v) => if now - stored <? TTL then ret v else miss
  | None => miss
  end.

Definition children_query (folder_id : Drive.fileId) : Drive.query :=
  [Drive.InParents folder_id; Drive.TrashedIs false].

Definition list_files (folder_id : Drive.fileId) : M Drive.t (list Drive.file) :=
  Drive.files_list (children_query folder_id) (Some 100%nat)
                   (Some Drive.ModifiedTimeDesc).

Definition upload_file (folder_id : Drive.fileId) (file_name : string)
    (file_content : list byte) (mime_type : string) : M Drive.t Drive.file :=
  Drive.files_create (Drive.mkBody file_name None [folder_id])
                     (Some (Drive.mkMedia mime_type file_content)).

Definition delete_file (file_id : Drive.fileId) : M Drive.t unit :=
  Drive.files_delete file_id.

(** A file picked in [st.file_uploader]; [read()] gives [up_bytes]. *)
Record UploadedFile : Type := mkUploaded {
  up_name : string;
  up_type : option string;
  up_bytes : list byte
}.

(** [uploaded_file.type or 'application/octet-stream'] *)
Definition type_or_default (u : UploadedFile) : string :=
  match up_type u with
  | Some s => if String.eqb s "" then "application/octet-stream" else s
  | None => "application/octet-stream"
  end.

(** [for i, uploaded_file in enumerate(uploaded_files):] with
    [success_count] threaded; [total] is [len(uploaded_files)]. *)
Fixpoint for_uploaded (folder_id : Drive.fileId) (total i : nat)
    (uploaded_files : list UploadedFile) (success_count : Z) : M session Z :=
  match uploaded_files with
  | [] => ret success_count
  | uploaded_file :: rest =>
      show (StatusUploading (up_name uploaded_file)) ;;;
      success_count' <-
        try_except
          (let file_content := up_bytes uploaded_file in
           let mime_type := type_or_default uploaded_file in
           on_drive (upload_file folder_id (up_name uploaded_file)
                                 file_content mime_type) ;;;
           ret (success_count + 1))
          (fun e => show (StError (up_name uploaded_file) e) ;;;
                    ret success_count) ;;
      show (Progress (i + 1) total) ;;;
      for_uploaded folder_id total (S i) rest success_count'
  end.

(** The handler of the "Upload All Files" button; returns
    [success_count]. *)
Definition upload_all (folder_id : Drive.fileId)
    (uploaded_files : list UploadedFile) : M session Z :=
  success_count <- for_uploaded folder_id (List.length uploaded_files) 0
                                uploaded_files 0 ;;
  show (StatusText "Upload complete!") ;;;
  if 0 <? success_count then
    show (StSuccess success_count) ;;;
    show Balloons ;;;
    cache_clear ;;;
    ret success_count
  else ret success_count.

(** ** Chunked download *)

Section Download.

(** The downloader together with whatever it talks to, and one call of
    [downloader.next_chunk()]: the bytes it writes to the buffer and
    the [done] flag, or the exception it raises. *)
Variable D : Type.
Variable next_chunk : D -> result (list byte * bool) * D.

(** [while not done: status, done = downloader.next_chunk()], entered
    with [done = False]; [None] when the fuel runs out first. *)
Fixpoint while_not_done (fuel : nat) (d : D) (file_content : Io.BytesIO)
    : option (result Io.BytesIO * D) :=
  match fuel with
  | O => None
  | S fuel' =>
      match next_chunk d with
      | (Raise e, d') => Some (Raise e, d')
      | (Ok (written, done), d') =>
          let file_content' := Io.write file_content written in
          if done then Some (Ok file_content', d')
          else while_not_done fuel' d' file_content'
      end
  end.

Definition download_loop (fuel : nat) (d : D) : option (result Io.BytesIO * D) :=
  match while_not_done fuel d Io.empty with
  | Some (Ok file_content, d') => Some (Ok (Io.seek file_content 0), d')
  | other => other
  end.

(** The stream signals completion after the chunks [cs]: the calls
    before the last report [done = False], the last one [True]. *)
Inductive completes : D -> list (list byte) -> D -> Prop :=
| completes_last d c d' :
    next_chunk d = (Ok (c, true), d') ->
    completes d [c] d'
| completes_more d c d' cs d'' :
    next_chunk d = (Ok (c, false), d') ->
    completes d' cs d'' ->
    completes d (c :: cs) d''.

End Download.

(** [MediaIoBaseDownload]: the request's file, the chunk size, the
    progress so far. *)
Record downloader : Type := mkDownloader {
  dl_file : Drive.fileId;
  dl_chunksize : nat;
  dl_progress : nat
}.

(** [DEFAULT_CHUNK_SIZE = 100 * 1024 * 1024] *)
Definition DEFAULT_CHUNK_SIZE : nat := Z.to_nat (100 * 1024 * 1024).

(** [MediaIoBaseDownload.next_chunk]: request the next range; on 200 or
    206 write it and finish when the progress reaches the total; on 416
    with a total of zero finish; otherwise raise. *)
Definition next_chunk (s : Drive.t * downloader) : result (list byte * bool) * (Drive.t * downloader) :=
  let '(d, dl) := s in
  let '(resp, d') := Drive.files_get_media (dl_file dl) (dl_progress dl)
                                           (dl_chunksize dl) d in
  if (Drive.status resp =? 200) || (Drive.status resp =? 206) then
    let progress := (dl_progress dl + List.length (Drive.chunk resp))%nat in
    (Ok (Drive.chunk resp, (progress =? Drive.total resp)%nat),
     (d', mkDownloader (dl_file dl) (dl_chunksize dl) progress))
  else if (Drive.status resp =? 416) && (Drive.total resp =? 0)%nat then
    (Ok ([], true), (d', dl))
  else (Raise (HttpError (Drive.status resp)), (d', dl)).

Definition download_file_with (chunksize : nat) (fuel : nat)
    (file_id : Drive.fileId) (d : Drive.t) : option (result Io.BytesIO * Drive.t) :=
  match download_loop _ next_chunk fuel (d, mkDownloader file_id chunksize 0) with
  | Some (r, (d', _)) => Some (r, d')
  | None => None
  end.

Definition download_file : nat -> Drive.fileId -> Drive.t -> option (result Io.BytesIO * Drive.t) :=
  download_file_with DEFAULT_CHUNK_SIZE.

(** ** Size formatting *)

(** [size_bytes] inside [format_size]: an [int] until the first
    division, a [float] after it. *)
Inductive number : Type :=
| PInt (n : Z)
| PFloat (x : PyFloat.t).

Definition lt_1024 (v : number) : bool :=
  match v with
  | PInt n => n <? 1024
  | PFloat x => PyFloat.lt_1024 x
  end.

(** [size_bytes /= 1024], reached only when [size_bytes < 1024] is false *)
Definition div_1024 (v : number) : result number :=
  match v with
  | PInt n =>
      match PyFloat.int_truediv_1024 n with
      | Ok x => Ok (PFloat x)
      | Raise e => Raise e
      end
  | PFloat x => Ok (PFloat (PyFloat.div_1024 x))
  end.

(** [f"{size_bytes:.1f} {unit}"] *)
Definition render (v : number) (unit : string) : result string :=
  match (match v with
         | PInt n => PyFloat.format_f1_int n
         | PFloat x => Ok (PyFloat.format_f1 x)
         end) with
  | Ok s => Ok (String.append s (String.append " " unit))
  | Raise e => Raise e
  end.

Fixpoint for_unit (units : list string) (size_bytes : number) : result string :=
  match units with
  | [] => render size_bytes "TB"
  | unit :: rest =>
      if lt_1024 size_bytes then render size_bytes unit
      else
        match div_1024 size_bytes with
        | Ok size_bytes' => for_unit rest size_bytes'
        | Raise e => Raise e
        end
  end.

(** [format_size]: [None] for a missing size, otherwise the value of
    [int(size_bytes)]. *)
Definition format_size (size_bytes : option Z) : result string :=
  match size_bytes with
  | None => Ok "N/A"
  | Some n => for_unit ["B"; "KB"; "MB"; "GB"] (PInt n)
  end.

End App.

(* ================================================================== *)
(** * Vocabulary of the statements                                     *)
(* ================================================================== *)

Module Spec.

Import Cleanup.

(** The retention window as a duration. *)
Definition max_age : Z := timedelta_days MAX_AGE_DAYS.

(** [age = now - lastModifiedTime] *)
Definition age (now : Z) (f : Drive.file) : Z := now - Drive.modifiedTime f.

(** Eligible for deletion: [age > maxAge]. *)
Definition eligible (now : Z) (f : Drive.file) : bool := max_age <? age now f.

(** The id of the first non-trashed folder with the configured name, in
    the store's order. *)
Definition folder_of (d : Drive.t) : option Drive.fileId :=
  match filter (Drive.matches folder_query) (Drive.files d) with
  | [] => None
  | f :: _ => Some (Drive.id f)
  end.

(** Every non-trashed object parented at [fid], oldest first. *)
Definition children (fid : Drive.fileId) (d : Drive.t) : list Drive.file :=
  Drive.sort_by Drive.ModifiedTimeAsc
    (filter (Drive.matches (children_query fid)) (Drive.files d)).

(** The first page of them, as [pageSize=100] cuts it. *)
Definition first_page (fid : Drive.fileId) (d : Drive.t) : list Drive.file :=
  firstn 100 (children fid d).

(** The listing a sweep started on store [d] works on: the first page of
    the children of the resolved folder. *)
Definition listing (d : Drive.t) : list Drive.file :=
  match folder_of d with
  | Some fid => if String.eqb fid "" then [] else first_page fid d
  | None => []
  end.

(** The per-object decisions a run logged: name and whether the object
    was marked for deletion. *)
Fixpoint decisions (ls : list line) : list (string * bool) :=
  match ls with
  | [] => []
  | InfoDeleting n _ :: r => (n, true) :: decisions r
  | InfoKeeping n _ :: r => (n, false) :: decisions r
  | _ :: r => decisions r
  end.

(** The requests made between two states of the store. *)
Definition new_log (d d' : Drive.t) : list (Drive.request * bool) :=
  skipn (List.length (Drive.log d)) (Drive.log d').

(** Every request of a log went through. *)
Definition all_ok (l : list (Drive.request * bool)) : bool := forallb snd l.

Definition ok_delete (f : Drive.file) : Drive.request * bool :=
  (Drive.FilesDelete (Drive.id f), true).

Definition failed_delete (f : Drive.file) : Drive.request * bool :=
  (Drive.FilesDelete (Drive.id f), false).

Definition folder_lookup : Drive.request :=
  Drive.FilesList folder_query None None.

Definition children_lookup (fid : Drive.fileId) : Drive.request :=
  Drive.FilesList (children_query fid) (Some 100%nat) (Some Drive.ModifiedTimeAsc).

Definition is_children_lookup (r : Drive.request) : bool :=
  match r with
  | Drive.FilesList (Drive.InParents _ :: _) _ _ => true
  | _ => false
  end.

(** Oldest first. *)
Definition older (a b : Drive.file) : Prop :=
  Drive.modifiedTime a <= Drive.modifiedTime b.

(** A non-trashed object parented at [fid]. *)
Definition child_of (fid : Drive.fileId) (f : Drive.file) : Prop :=
  Drive.trashed f = false /\ In fid (Drive.parents f).

(** C7 as the spec words it: the listing step returns every non-trashed
    object parented at the folder. *)
Definition listing_is_complete (fid : Drive.fileId) (w : world) : Prop :=
  exists listed,
    fst (list_files fid w) = Ok listed /\
    forall f, In f (Drive.files (drive w)) -> child_of fid f -> In f listed.

(** [modified_time < cutoff_date], the test of the loop. *)
Definition before (cutoff : Z) (f : Drive.file) : bool :=
  Drive.modifiedTime f <? cutoff.

(** The ids whose delete request went through, in a log. *)
Fixpoint deleted_ok (l : list (Drive.request * bool)) : list Drive.fileId :=
  match l with
  | [] => []
  | (Drive.FilesDelete i, true) :: l' => i :: deleted_ok l'
  | _ :: l' => deleted_ok l'
  end.

(** The resources left once those with an id in [ids] are gone. *)
Definition without (ids : list Drive.fileId) (fs : list Drive.file) : list Drive.file :=
  filter (fun f => negb (existsb (String.eqb (Drive.id f)) ids)) fs.

(** From store [d] to store [d'] the log only grew, and the resources
    changed by the successful deletions of the new requests and nothing
    else. *)
Definition tracks (d d' : Drive.t) : Prop :=
  (exists l, Drive.log d' = Drive.log d ++ l) /\
  Drive.files d' = without (deleted_ok (new_log d d')) (Drive.files d).

(** A computation that changes the store only by the deletions it
    requests. *)
Definition steady {A} (m : M world A) : Prop :=
  forall w, tracks (drive w) (drive (snd (m w))).

(** Whether the fault schedule fails the [k]-th request from now. *)
Definition next_fault (w : world) (k : nat) : bool :=
  Drive.fault (drive w) (k + List.length (Drive.log (drive w))).

(** The ways a run of [cleanup_old_files] from [w] can go, with what it
    returns, the requests it makes and the decisions it logs. *)
Inductive run (w : world) (r : result Z) (w' : world) : Prop :=
| CredentialsFailed :
    is_ok (fst (get_credentials w)) = false ->
    is_ok r = false ->
    Drive.log (drive w') = Drive.log (drive w) ->
    decisions (out w') = decisions (out w) ->
    run w r w'
| LookupFailed :
    is_ok (fst (get_credentials w)) = true ->
    next_fault w 0 = true ->
    r = Raise (HttpError 503) ->
    Drive.log (drive w') = Drive.log (drive w) ++ [(folder_lookup, false)] ->
    decisions (out w') = decisions (out w) ->
    run w r w'
| NoFolder :
    is_ok (fst (get_credentials w)) = true ->
    next_fault w 0 = false ->
    folder_of (drive w) = None \/ folder_of (drive w) = Some "" ->
    r = Ok 0 ->
    Drive.log (drive w') = Drive.log (drive w) ++ [(folder_lookup, true)] ->
    Drive.files (drive w') = Drive.files (drive w) ->
    decisions (out w') = decisions (out w) ->
    run w r w'
| ListingFailed fid :
    is_ok (fst (get_credentials w)) = true ->
    next_fault w 0 = false ->
    next_fault w 1 = true ->
    folder_of (drive w) = Some fid -> fid <> "" ->
    r = Raise (HttpError 503) ->
    Drive.log (drive w') = Drive.log (drive w)
      ++ [(folder_lookup, true); (children_lookup fid, false)] ->
    decisions (out w') = decisions (out w) ->
    run w r w'
| Swept fid :
    let now := clock w (ticks w) in
    let files := listing (drive w) in
    is_ok (fst (get_credentials w)) = true ->
    next_fault w 0 = false ->
    next_fault w 1 = false ->
    folder_of (drive w) = Some fid -> fid <> "" ->
    r = Ok (Z.of_nat (List.length (filter (eligible now) files))) ->
    Drive.log (drive w') = Drive.log (drive w)
      ++ [(folder_lookup, true); (children_lookup fid, true)]
      ++ map ok_delete (filter (eligible now) files) ->
    decisions (out w') = decisions (out w)
      ++ map (fun f => (Drive.name f, eligible now f)) files ->
    run w r w'
| Aborted fid pre f post e :
    let now := clock w (ticks w) in
    is_ok (fst (get_credentials w)) = true ->
    next_fault w 0 = false ->
    next_fault w 1 = false ->
    folder_of (drive w) = Some fid -> fid <> "" ->
    listing (drive w) = pre ++ f :: post ->
    eligible now f = true ->
    r = Raise e ->
    Drive.log (drive w') = Drive.log (drive w)
      ++ [(folder_lookup, true); (children_lookup fid, true)]
      ++ map ok_delete (filter (eligible now) pre)
      ++ [failed_delete f] ->
    decisions (out w') = decisions (out w)
      ++ map (fun f => (Drive.name f, eligible now f)) (pre ++ [f]) ->
    run w r w'.

(** C2 as the spec words it: after the run, every eligible object of the
    listing has had its delete request made, whatever failed on the way. *)
Definition sweep_is_best_effort (w : world) : Prop :=
  let now := clock w (ticks w) in
  let w' := snd (cleanup_old_files w) in
  forall f, In f (listing (drive w)) -> eligible now f = true ->
    In (Drive.id f) (Drive.delete_ids (new_log (drive w) (drive w'))).


(** C3 as the spec words it: a non-zero exit status only when the
    credentials, the folder lookup or the object listing failed. *)
Definition exit_reflects_run_only (w : world) : Prop :=
  let requests := new_log (drive w) (drive (snd (main w))) in
  fst (main w) <> 0 ->
  is_ok (fst (get_credentials w)) = false \/
  In (folder_lookup, false) requests \/
  exists fid, In (children_lookup fid, false) requests.

End Spec.

(* ================================================================== *)
(** * Concrete stores and worlds                                       *)
(* ================================================================== *)

Module Examples.

Import Cleanup.

Definition no_fault : nat -> bool := fun _ => false.

(** Only request number [k] fails. *)
Definition fault_at (k : nat) : nat -> bool := fun n => Nat.eqb n k.

Definition ids : nat -> Drive.fileId :=
  fun n => String.append "new-" (PyFloat.decimal (Z.of_nat n)).

Definition folder : Drive.file :=
  Drive.mkFile "folder-1" FOLDER_NAME FOLDER_MIME false [] 0 None [].

Definition doc (i : string) (modified : Z) : Drive.file :=
  Drive.mkFile i (String.append i ".txt") "text/plain" false ["folder-1"]
               modified (Some 3) [x61; x62; x63]%byte.

(** The moment of the run: day 100. *)
Definition today : Z := 100 * DAY.

(** A store with an empty log that stamps what it creates with [today]. *)
Definition store (fs : list Drive.file) (faults : nat -> bool) : Drive.t :=
  Drive.mkDrive fs faults [] ids (fun _ => today).

Definition good_env : environ :=
  mkEnviron (Some "ya29.token") (Some "1//refresh") None
            (Some "client.apps") (Some "secret").

Definition world_of (d : Drive.t) : world :=
  mkWorld good_env true false true d (fun n => today + Z.of_nat n) 0 [].

(** The folder and four objects: eight days old, exactly seven days old,
    one microsecond past seven days, and one day old. *)
Definition boundary_files : list Drive.file :=
  [folder;
   doc "old" (today - 8 * DAY);
   doc "edge" (today - 7 * DAY);
   doc "past" (today - 7 * DAY - 1);
   doc "fresh" (today - DAY)].

Definition boundary_world : world := world_of (store boundary_files no_fault).

Definition stale_files : list Drive.file :=
  [folder;
   doc "a" (today - 10 * DAY);
   doc "b" (today - 9 * DAY);
   doc "c" (today - 8 * DAY)].

(** Requests 0 and 1 are the two listings, 2 deletes [a], 3 deletes [b]. *)
Definition failing_world : world := world_of (store stale_files (fault_at 3)).

Definition empty_world : world := world_of (store [] no_fault).

(** [n] objects in the folder, each a microsecond younger than the one
    before, all of them a month old. *)
Definition crowd (n : nat) : list Drive.file :=
  map (fun k => doc (PyFloat.decimal (Z.of_nat k))
                    (today - 30 * DAY + Z.of_nat k))
      (seq 0 n).

Definition crowded_world : world := world_of (store (folder :: crowd 101) no_fault).

End Examples.

(* ================================================================== *)
(** * Vocabulary and concrete inputs for the session                   *)
(* ================================================================== *)

Module AppSpec.

Import App.

(** The non-trashed folders with the configured name, in store order. *)
Definition folders (d : Drive.t) : list Drive.file :=
  filter (Drive.matches folder_query) (Drive.files d).

Definition lookup : Drive.request := Drive.FilesList folder_query None None.

Definition create_folder : Drive.request := Drive.FilesCreate folder_metadata None.

(** The folder a create call on [d] adds, right after the lookup. *)
Definition added (d : Drive.t) : Drive.file :=
  Drive.created (Drive.with_log d (Drive.log d ++ [(lookup, true)]))
                folder_metadata None.

(** The create request that uploads item [u] into folder [fid]. *)
Definition upload_request (fid : Drive.fileId) (u : UploadedFile) : Drive.request :=
  Drive.FilesCreate (Drive.mkBody (up_name u) None [fid])
                    (Some (Drive.mkMedia (type_or_default u) (up_bytes u))).

(** How many requests of a log went through. *)
Definition successes (l : list (Drive.request * bool)) : nat :=
  List.length (filter snd l).

Definition trues (l : list bool) : nat := List.length (filter (fun b => b) l).

Definition session_of (d : Drive.t) : session := mkSession d None [].

(** Three picked files; the store fails the second request it gets. *)
Definition three_files : list UploadedFile :=
  [mkUploaded "a.txt" (Some "text/plain") [x61]%byte;
   mkUploaded "b.bin" None [x62; x62]%byte;
   mkUploaded "c.txt" (Some "") [x63]%byte].

Definition flaky_session : session :=
  session_of (Examples.store [Examples.folder] (Examples.fault_at 1)).

Definition fresh_store : Drive.t := Examples.store [] Examples.no_fault.

(** A store holding one five-byte object. *)
Definition hello : Drive.file :=
  Drive.mkFile "obj-1" "hello.txt" "text/plain" false ["folder-1"] 0 (Some 5)
               [x68; x65; x6c; x6c; x6f]%byte.

Definition hello_store : Drive.t :=
  Examples.store [Examples.folder; hello] Examples.no_fault.

(** No request to the store fails from now on. *)
Definition quiet (d : Drive.t) : Prop :=
  forall n, Drive.fault d (n + List.length (Drive.log d)) = false.

(** The units [format_size] can print. *)
Definition UNITS : list string := ["B"; "KB"; "MB"; "GB"; "TB"].

(** The unit by the size of the count. *)
Definition unit_of (n : Z) : string :=
  if n <? 1024 then "B"
  else if n <? 1024 ^ 2 then "KB"
  else if n <? 1024 ^ 3 then "MB"
  else if n <? 1024 ^ 4 then "GB"
  else "TB".

(** A number and a unit, as [format_size] joins them. *)
Definition labelled (number unit : string) : string :=
  String.append number (String.append " " unit).

(** The first byte count whose quotient by 1024 rounds past the largest
    double. *)
Definition FLOAT_LIMIT : Z := 2 ^ 1034 - 2 ^ 980.

(** C10 as the spec words it: a string for every non-negative count. *)
Definition format_size_total : Prop :=
  forall n, 0 <= n -> exists s, format_size (Some n) = Ok s.

End AppSpec.

(* ================================================================== *)
(** * Further vocabulary for the retention job                         *)
(* ================================================================== *)

Module CleanupMore.

Import Cleanup Spec.

(** The four required settings are all present and non-empty. *)
Definition complete (e : environ) : bool :=
  truthy (GOOGLE_TOKEN e) && truthy (GOOGLE_REFRESH_TOKEN e)
  && truthy (GOOGLE_CLIENT_ID e) && truthy (GOOGLE_CLIENT_SECRET e).

(** The ages, in days, that the run reported on its DELETING lines. *)
Fixpoint deleting_ages (ls : list line) : list Z :=
  match ls with
  | [] => []
  | InfoDeleting _ a :: r => a :: deleting_ages r
  | _ :: r => deleting_ages r
  end.

(** From the reading the run is about to take, the clock never shows an
    earlier time than that reading. *)
Definition never_earlier (w : world) : Prop :=
  forall k, clock w (ticks w) <= clock w (k + ticks w)%nat.

(** A statement about a computation: from a world satisfying [P], the
    result and the world it leaves satisfy [Q]. *)
Definition triple {A} (P : world -> Prop) (m : M world A)
    (Q : result A -> world -> Prop) : Prop :=
  forall w, P w -> Q (fst (m w)) (snd (m w)).

(** All DELETING lines so far report at least [MAX_AGE_DAYS] days, and
    the clock from now on shows no time earlier than [base]. *)
Definition aged (base : Z) (clock0 : nat -> Z) (w : world) : Prop :=
  clock w = clock0 /\
  (forall k, base <= clock0 (k + ticks w)%nat) /\
  Forall (fun a => MAX_AGE_DAYS <= a) (deleting_ages (out w)).

(** A computation that reads no clock and writes no DELETING line. *)
Definition calm {A} (m : M world A) : Prop :=
  forall w, clock (snd (m w)) = clock w /\
            ticks (snd (m w)) = ticks w /\
            deleting_ages (out (snd (m w))) = deleting_ages (out w).

(** The invariant before the cutoff is computed: the next reading of the
    clock is [base]. *)
Definition fresh (base : Z) (clock0 : nat -> Z) (w : world) : Prop :=
  aged base clock0 w /\ clock0 (ticks w) = base.

(** A world in which the clock stands still between readings far apart:
    the first reading is day 100, every later one is a day later. *)
Definition slow_world : world :=
  mkWorld Examples.good_env true false true
          (Examples.store Examples.boundary_files Examples.no_fault)
          (fun n => match n with O => Examples.today | _ => Examples.today + DAY end)
          0 [].

(** The settings without a client secret. *)
Definition no_secret_world : world :=
  mkWorld (mkEnviron (Some "ya29.token") (Some "1//refresh") None
                     (Some "client.apps") (Some ""))
          true false true
          (Examples.store Examples.stale_files Examples.no_fault)
          (fun n => Examples.today + Z.of_nat n) 0 [].

End CleanupMore.

(* ================================================================== *)
(** * Further vocabulary for the session                               *)
(* ================================================================== *)

Module AppMore.

Import App AppSpec.

(** Two resources stand in the order [o] asks for. *)
Definition in_order (o : Drive.order) (a b : Drive.file) : Prop :=
  Drive.le_by o a b = true.

(** Newest first. *)
Definition newer (a b : Drive.file) : Prop :=
  Drive.modifiedTime b <= Drive.modifiedTime a.

(** No two resources of the store share an id. *)
Definition unique_ids (d : Drive.t) : Prop :=
  NoDup (map Drive.id (Drive.files d)).

(** The id the store assigns to the next resource is not in use. *)
Definition next_id_unused (d : Drive.t) : Prop :=
  existsb (Drive.has_id (Drive.new_id d (List.length (Drive.log d))))
          (Drive.files d) = false.

(** The cache of [get_folder_id] holds nothing a call at [now] can use:
    it is empty, or what it holds has outlived [TTL]. *)
Definition nothing_cached (now : Z) (s : session) : Prop :=
  match folder_cache s with
  | None => True
  | Some (stored, _) => TTL <= now - stored
  end.

(** What a handler added to the page. *)
Definition new_page (s s' : session) : list widget :=
  skipn (List.length (page s)) (page s').

(** The names on the error boxes of a page, in order. *)
Fixpoint error_names (p : list widget) : list string :=
  match p with
  | [] => []
  | StError n _ :: r => n :: error_names r
  | _ :: r => error_names r
  end.

(** The successive settings of the progress bar. *)
Fixpoint progress_steps (p : list widget) : list (nat * nat) :=
  match p with
  | [] => []
  | Progress a b :: r => (a, b) :: progress_steps r
  | _ :: r => progress_steps r
  end.

(** The success box and the balloons of a page. *)
Fixpoint celebrations (p : list widget) : list widget :=
  match p with
  | [] => []
  | StSuccess n :: r => StSuccess n :: celebrations r
  | Balloons :: r => Balloons :: celebrations r
  | _ :: r => celebrations r
  end.

(** The picked files whose upload failed, given the outcome of each. *)
Fixpoint failed (ups : list UploadedFile) (outcomes : list bool) : list UploadedFile :=
  match ups, outcomes with
  | u :: us, b :: bs => if b then failed us bs else u :: failed us bs
  | _, _ => []
  end.

(** How many times [format_size] divides a count by 1024 before it
    prints it. *)
Definition divisions (n : Z) : Z :=
  if n <? 1024 then 0
  else if n <? 1024 ^ 2 then 1
  else if n <? 1024 ^ 3 then 2
  else if n <? 1024 ^ 4 then 3
  else 4.

(** ** The download tab *)

(** The icon shown before a file's name. *)
Inductive icon : Type :=
| IconFolder | IconImage | IconPdf | IconArchive | IconVideo | IconAudio
| IconSheet | IconDocument | IconOther.

(** [needle in hay] on strings *)
Definition contains (needle hay : string) : bool :=
  match String.index 0 needle hay with
  | Some _ => true
  | None => false
  end.

(** The [if 'folder' in mime: ... elif ...] chain. *)
Definition icon_of (mime : string) : icon :=
  if contains "folder" mime then IconFolder
  else if contains "image" mime then IconImage
  else if contains "pdf" mime then IconPdf
  else if contains "zip" mime || contains "compressed" mime then IconArchive
  else if contains "video" mime then IconVideo
  else if contains "audio" mime then IconAudio
  else if contains "spreadsheet" mime || contains "excel" mime then IconSheet
  else if contains "document" mime || contains "word" mime then IconDocument
  else IconOther.

(** What the download tab puts on the page. *)
Inductive element : Type :=
| ListError (e : exn)                 (* the st.error of a failed listing *)
| NoFiles                             (* the st.info of an empty folder *)
| Available (n : nat)                 (* the line with len(files) *)
| Divider
| Title (i : icon) (name : string)    (* first column: icon and name *)
| Size (s : string)                   (* second column: format_size of the size *)
| DownloadButton (data : Io.BytesIO) (file_name key : string)
| Cross                               (* third column when the download raised *)
| DeleteButton (key : string).        (* fourth column *)

(** The Drive service and the page built so far. *)
Record view : Type := mkView { service : Drive.t; shown : list element }.

Definition write (e : element) (v : view) : view :=
  mkView (service v) (shown v ++ [e]).

(** [for file in files:] of the download tab, on a run in which no
    button is pressed, so that every [st.button] returns [False].
    [format_size] is called outside any [try]; the download is inside
    one that catches every exception.  The widget keys are made from the
    ids, which Drive keeps distinct, so no key is used twice. *)
Fixpoint for_file (fuel : nat) (files : list Drive.file) (v : view)
    : option (result unit * view) :=
  match files with
  | [] => Some (Ok tt, v)
  | file :: rest =>
      let mime := Drive.mimeType file in
      let v1 := write (Title (icon_of mime) (Drive.name file)) v in
      match format_size (Drive.size file) with
      | Raise e => Some (Raise e, v1)
      | Ok s =>
          let v2 := write (Size s) v1 in
          match download_file fuel (Drive.id file) (service v2) with
          | None => None
          | Some (r, d) =>
              let v3 :=
                match r with
                | Ok file_content =>
                    write (DownloadButton file_content (Drive.name file)
                                          (String.append "dl_" (Drive.id file)))
                          (mkView d (shown v2))
                | Raise _ => write Cross (mkView d (shown v2))
                end in
              for_file fuel rest
                (write (DeleteButton (String.append "del_" (Drive.id file))) v3)
          end
      end
  end.

(** The body of [with tab2:] from the listing on, on a run in which no
    button is pressed; [None] when the fuel of a download runs out. *)
Definition download_tab (fuel : nat) (folder_id : Drive.fileId) (d : Drive.t)
    : option (result unit * view) :=
  let '(r, d1) := list_files folder_id d in
  let '(files, v) :=
    match r with
    | Ok files => (files, mkView d1 [])
    | Raise e => ([], mkView d1 [ListError e])
    end in
  match files with
  | [] => Some (Ok tt, write NoFiles v)
  | _ :: _ =>
      for_file fuel files (write Divider (write (Available (List.length files)) v))
  end.

(** What the third column of each row holds: the bytes behind the
    download button, or nothing where the cross mark stands. *)
Fixpoint downloads (p : list element) : list (option (list byte)) :=
  match p with
  | [] => []
  | DownloadButton data _ _ :: r => Some (Io.read data) :: downloads r
  | Cross :: r => None :: downloads r
  | _ :: r => downloads r
  end.

(** The names on the rows of a page, with their icons. *)
Fixpoint titles (p : list element) : list (icon * string) :=
  match p with
  | [] => []
  | Title i n :: r => (i, n) :: titles r
  | _ :: r => titles r
  end.

(** A store every object of which the tab can show: each size prints and
    each content is shorter than the fuel of a download. *)
Definition showable (fuel : nat) (d : Drive.t) : Prop :=
  forall f, In f (Drive.files d) ->
    is_ok (format_size (Drive.size f)) = true /\
    (S (List.length (Drive.content f)) <= fuel)%nat.

(** A store whose first request fails and no other. *)
Definition offline_once : Drive.t :=
  Examples.store [Examples.folder; hello] (Examples.fault_at 0).

(** The world of a job run right after the session has uploaded two
    bytes to the store of [hello_store]. *)
Definition after_upload : Cleanup.world :=
  Examples.world_of
    (snd (upload_file "folder-1" "note.txt" [x68; x69]%byte "text/plain"
                      hello_store)).

End AppMore.

(* ================================================================== *)
(** * Properties of the store                                          *)
(* ================================================================== *)

Module DriveFacts.

Import Drive.

Lemma pair_of_fst {A B} (p : A * B) (a : A) : fst p = a -> p = (a, snd p).
Proof. intros <-. apply surjective_pairing. Qed.

Lemma call_log {A} (r : request) (serve : t -> result A * t) (d : t) :
  (forall d0, log (snd (serve d0)) = log d0) ->
  log (snd (call r serve d)) = log d ++ [(r, is_ok (fst (call r serve d)))].
Proof.
  intros Hserve. unfold call.
  destruct (fault d (List.length (log d))); [reflexivity|].
  specialize (Hserve d).
  destruct (serve d) as [[a|e] d']; reflexivity.
Qed.

Lemma files_list_run q ps o d :
  files_list q ps o d =
  if fault d (List.length (log d))
  then (Raise (HttpError 503), with_log d (log d ++ [(FilesList q ps o, false)]))
  else (Ok (firstn (page_limit ps) (result_set q o d)),
        with_log d (log d ++ [(FilesList q ps o, true)])).
Proof. reflexivity. Qed.

Lemma files_delete_log i d :
  log (snd (files_delete i d))
  = log d ++ [(FilesDelete i, is_ok (fst (files_delete i d)))].
Proof.
  unfold files_delete. apply call_log. intros d0.
  destruct (existsb (has_id i) (files d0)); reflexivity.
Qed.

Lemma files_create_run b m d :
  files_create b m d =
  if fault d (List.length (log d))
  then (Raise (HttpError 503), with_log d (log d ++ [(FilesCreate b m, false)]))
  else (Ok (created d b m),
        with_log (with_files d (files d ++ [created d b m]))
                 (log d ++ [(FilesCreate b m, true)])).
Proof. reflexivity. Qed.

Lemma new_log_app d d' l : log d' = log d ++ l -> Spec.new_log d d' = l.
Proof.
  intros H. unfold Spec.new_log. rewrite H.
  rewrite skipn_app, skipn_all, Nat.sub_diag. reflexivity.
Qed.

Lemma delete_ids_app l1 l2 : delete_ids (l1 ++ l2) = delete_ids l1 ++ delete_ids l2.
Proof.
  induction l1 as [|[r b] l1 IH]; [reflexivity|].
  destruct r; simpl; rewrite IH; reflexivity.
Qed.

Lemma delete_ids_ok_deletes (fs : list file) :
  delete_ids (map Spec.ok_delete fs) = map id fs.
Proof. induction fs as [|f fs IH]; simpl; [reflexivity|now rewrite IH]. Qed.

End DriveFacts.

(* ================================================================== *)
(** * Properties of the retention job                                  *)
(* ================================================================== *)

Module CleanupFacts.

Import Cleanup Spec.

Lemma decisions_app l1 l2 : decisions (l1 ++ l2) = decisions l1 ++ decisions l2.
Proof.
  induction l1 as [|x l1 IH]; [reflexivity|].
  destruct x; simpl; rewrite ?IH; reflexivity.
Qed.

(** The code compares [modified_time < cutoff_date]; that is the strict
    [age > maxAge] of the policy. *)
Lemma before_cutoff_iff_eligible now f :
  (Drive.modifiedTime f <? now - timedelta_days MAX_AGE_DAYS) = eligible now f.
Proof.
  unfold eligible, age, max_age.
  destruct (Z.ltb_spec (Drive.modifiedTime f) (now - timedelta_days MAX_AGE_DAYS));
    destruct (Z.ltb_spec (timedelta_days MAX_AGE_DAYS) (now - Drive.modifiedTime f));
    try reflexivity; lia.
Qed.

(** What one [delete_file] does to the world. *)
Lemma delete_file_run i n w :
  let b := is_ok (fst (Drive.files_delete i (drive w))) in
  let w' := snd (delete_file i n w) in
  is_ok (fst (delete_file i n w)) = b /\
  Drive.log (drive w') = Drive.log (drive w) ++ [(Drive.FilesDelete i, b)] /\
  decisions (out w') = decisions (out w) /\
  clock w' = clock w /\ ticks w' = ticks w.
Proof.
  pose proof (DriveFacts.files_delete_log i (drive w)) as Hlog.
  unfold delete_file, bind, on_drive, emit, modify.
  destruct (Drive.files_delete i (drive w)) as [[[]|e] d'] eqn:E; simpl in *.
  - repeat split; try assumption. rewrite decisions_app. simpl. apply app_nil_r.
  - repeat split; assumption.
Qed.

(** The loop decides the objects in order; it either gets through all of
    them, or stops at the first object whose delete call fails. *)
Lemma for_files_trace files : forall cutoff count w r w',
  for_files files cutoff count w = (r, w') ->
  exists done rest,
    files = done ++ rest /\
    decisions (out w') = decisions (out w)
                         ++ map (fun f => (Drive.name f, before cutoff f)) done /\
    match r with
    | Ok n =>
        rest = [] /\
        n = count + Z.of_nat (List.length (filter (before cutoff) done)) /\
        Drive.log (drive w') = Drive.log (drive w)
                               ++ map ok_delete (filter (before cutoff) done)
    | Raise e =>
        exists pre f,
          done = pre ++ [f] /\ before cutoff f = true /\
          Drive.log (drive w') = Drive.log (drive w)
                                 ++ map ok_delete (filter (before cutoff) pre)
                                 ++ [failed_delete f]
    end.
Proof.
  induction files as [|file rest IH]; intros cutoff count w r w' Hrun.
  - inversion Hrun; subst. exists [], []. simpl.
    rewrite !app_nil_r. repeat split; lia.
  - simpl in Hrun. fold (before cutoff file) in Hrun.
    destruct (before cutoff file) eqn:Hb.
    + unfold bind at 1 in Hrun. simpl in Hrun.
      unfold bind at 1 in Hrun. simpl in Hrun.
      unfold bind at 1 in Hrun.
      match type of Hrun with context [delete_file ?i ?n ?w0] =>
        pose proof (delete_file_run i n w0) as (Hok & Hlog & Hdec & _);
        destruct (delete_file i n w0) as [[[]|e] w1] eqn:Hdel
      end; simpl in *.
      * apply IH in Hrun. destruct Hrun as (done & rest' & -> & Hd & Hr).
        exists (file :: done), rest'. split; [reflexivity|]. split.
        { rewrite Hd, Hdec, decisions_app. simpl. rewrite Hb, <- app_assoc. reflexivity. }
        destruct r as [n|e].
        { destruct Hr as (-> & -> & Hl). simpl. rewrite Hb. simpl.
          repeat split; [lia|]. rewrite Hl, Hlog, <- Hok, <- app_assoc. reflexivity. }
        { destruct Hr as (pre & f & -> & Hf & Hl).
          exists (file :: pre), f. simpl. rewrite Hb. simpl.
          repeat split; [assumption|]. rewrite Hl, Hlog, <- Hok, <- app_assoc. reflexivity. }
      * inversion Hrun; subst. exists [file], rest. split; [reflexivity|]. split.
        { rewrite Hdec, decisions_app. simpl. rewrite Hb. reflexivity. }
        exists [], file. simpl. repeat split; [assumption|].
        rewrite Hlog, <- Hok. reflexivity.
    + unfold bind at 1 in Hrun. simpl in Hrun.
      unfold bind at 1 in Hrun. simpl in Hrun.
      apply IH in Hrun. simpl in Hrun. destruct Hrun as (done & rest' & -> & Hd & Hr).
      exists (file :: done), rest'. split; [reflexivity|]. split.
      { rewrite Hd, decisions_app. simpl. rewrite Hb, <- app_assoc. reflexivity. }
      destruct r as [n|e].
      { destruct Hr as (-> & -> & Hl). simpl. rewrite Hb. repeat split. assumption. }
      { destruct Hr as (pre & f & -> & Hf & Hl).
        exists (file :: pre), f. simpl. rewrite Hb. repeat split; assumption. }
Qed.

(** Resolving the credentials touches neither the store nor the clock. *)
Lemma get_credentials_frame w r w' :
  get_credentials w = (r, w') ->
  drive w' = drive w /\ clock w' = clock w /\ ticks w' = ticks w /\
  decisions (out w') = decisions (out w).
Proof.
  unfold get_credentials, bind, get, raise, ret, emit, modify. simpl.
  destruct (nonempty (missing (env w))).
  { intros H; inversion H; subst; auto. }
  destruct (creds_valid w); simpl.
  { intros H; inversion H; subst; auto. }
  destruct (creds_expired w && truthy (GOOGLE_REFRESH_TOKEN (env w))).
  2:{ intros H; inversion H; subst; auto. }
  destruct (refresh_ok w); simpl; intros H; inversion H; subst; simpl;
    rewrite ?decisions_app; simpl; rewrite ?app_nil_r; auto.
Qed.

(** The folder lookup of the job: one request, then the first match. *)
Lemma get_folder_id_run w :
  get_folder_id w =
  let d := drive w in
  let r := folder_lookup in
  if Drive.fault d (List.length (Drive.log d)) then
    (Raise (HttpError 503),
     with_drive w (Drive.with_log d (Drive.log d ++ [(r, false)])))
  else
    let w1 := with_drive w (Drive.with_log d (Drive.log d ++ [(r, true)])) in
    match folder_of d with
    | None => (Ok None, snd (emit WarnFolderNotFound w1))
    | Some fid => (Ok (Some fid), w1)
    end.
Proof.
  unfold get_folder_id, bind, on_drive. rewrite DriveFacts.files_list_run.
  simpl. destruct (Drive.fault (drive w) (List.length (Drive.log (drive w)))); [reflexivity|].
  unfold folder_of, Drive.result_set, Drive.ordered, Drive.page_limit.
  destruct (filter (Drive.matches folder_query) (Drive.files (drive w))); reflexivity.
Qed.

Arguments first_page : simpl never.

(** The listing step: one request, answered with the first page. *)
Lemma list_files_run fid w :
  list_files fid w =
  let d := drive w in
  if Drive.fault d (List.length (Drive.log d)) then
    (Raise (HttpError 503),
     with_drive w (Drive.with_log d (Drive.log d ++ [(children_lookup fid, false)])))
  else
    (Ok (first_page fid d),
     with_drive w (Drive.with_log d (Drive.log d ++ [(children_lookup fid, true)]))).
Proof.
  unfold list_files, on_drive. rewrite DriveFacts.files_list_run. simpl.
  destruct (Drive.fault (drive w) (List.length (Drive.log (drive w)))); reflexivity.
Qed.

Lemma filter_before_eligible now fs :
  filter (before (now - timedelta_days MAX_AGE_DAYS)) fs = filter (eligible now) fs.
Proof. apply filter_ext. intros f. apply before_cutoff_iff_eligible. Qed.

Lemma map_before_eligible now fs :
  map (fun f => (Drive.name f, before (now - timedelta_days MAX_AGE_DAYS) f)) fs
  = map (fun f => (Drive.name f, eligible now f)) fs.
Proof.
  apply map_ext. intros f. unfold before.
  rewrite before_cutoff_iff_eligible. reflexivity.
Qed.

(** Every run of [cleanup_old_files] has one of the six shapes. *)
Lemma cleanup_run w r w' : cleanup_old_files w = (r, w') -> run w r w'.
Proof.
  unfold cleanup_old_files, get_drive_service.
  unfold bind at 1. simpl. unfold bind at 1. simpl. unfold bind at 1.
  set (w0 := mkWorld _ _ _ _ _ _ _ _).
  assert (Hcred0 : fst (get_credentials w0) = fst (get_credentials w)).
  { unfold get_credentials, bind, get, raise, ret, emit, modify. simpl.
    destruct (nonempty (missing (env w))); [reflexivity|].
    destruct (creds_valid w); [reflexivity|]. simpl.
    destruct (creds_expired w && truthy (GOOGLE_REFRESH_TOKEN (env w))); [|reflexivity].
    destruct (refresh_ok w); reflexivity. }
  destruct (get_credentials w0) as [[[]|e0] w1] eqn:Hcred;
    pose proof (get_credentials_frame _ _ _ Hcred) as (Hd1 & Hc1 & Ht1 & Ho1);
    simpl in Hcred0, Hd1, Hc1, Ht1, Ho1.
  2:{ intros H; inversion H; subst. apply CredentialsFailed.
      - rewrite <- Hcred0. reflexivity.
      - reflexivity.
      - rewrite Hd1. reflexivity.
      - rewrite Ho1. subst w0. simpl. rewrite !decisions_app. simpl.
        rewrite !app_nil_r. reflexivity. }
  assert (Ho0 : decisions (out w1) = decisions (out w)).
  { rewrite Ho1. rewrite !decisions_app. simpl. rewrite !app_nil_r. reflexivity. }
  assert (Hok : is_ok (fst (get_credentials w)) = true) by (rewrite <- Hcred0; reflexivity).
  unfold bind at 1. rewrite get_folder_id_run. simpl. rewrite Hd1.
  destruct (Drive.fault (drive w) (List.length (Drive.log (drive w)))) eqn:Hf0.
  { intros H; inversion H; subst. apply LookupFailed; auto. }
  destruct (folder_of (drive w)) as [fid|] eqn:Hfold.
  2:{ simpl. unfold bind, emit, modify, ret. simpl.
      intros H; inversion H; subst. simpl.
      apply NoFolder; auto; simpl.
      rewrite !decisions_app. simpl. rewrite !app_nil_r. assumption. }
  simpl. destruct (String.eqb_spec fid "") as [->|Hne].
  { simpl. unfold bind, emit, modify, ret. simpl.
    intros H; inversion H; subst. simpl.
    apply NoFolder; auto; simpl.
    rewrite !decisions_app. simpl. rewrite !app_nil_r. assumption. }
  simpl. unfold bind at 1. rewrite list_files_run. simpl.
  rewrite length_app. simpl. rewrite Nat.add_1_r.
  destruct (Drive.fault (drive w) (S (List.length (Drive.log (drive w))))) eqn:Hf1.
  { intros H; inversion H; subst. simpl.
    eapply ListingFailed; eauto. simpl. rewrite <- app_assoc. reflexivity. }
  assert (Hn0 : next_fault w 0 = false) by exact Hf0.
  assert (Hn1 : next_fault w 1 = false) by exact Hf1.
  unfold bind at 1. simpl. unfold bind at 1. simpl. unfold bind at 1. simpl.
  unfold bind at 1.
  match goal with |- context [for_files ?fs ?c ?n ?wx] =>
    destruct (for_files fs c n wx) as [r1 w2] eqn:Hloop end.
  apply for_files_trace in Hloop. simpl in Hloop.
  destruct Hloop as (done & rest & Hsplit & Hdec & Hr).
  assert (Hlist : listing (drive w) = done ++ rest).
  { unfold listing. rewrite Hfold. destruct (String.eqb_spec fid ""); [contradiction|].
    exact Hsplit. }
  rewrite Ht1, Hc1 in *. subst w0. simpl in *.
  rewrite map_before_eligible in Hdec.
  destruct r1 as [n|e].
  - destruct Hr as (-> & -> & Hl). rewrite app_nil_r in Hlist.
    rewrite filter_before_eligible in Hl |- *.
    unfold bind, emit, modify, ret. simpl.
    intros H; inversion H; subst. simpl.
    eapply Swept; eauto; simpl.
    + rewrite Hl, <- !app_assoc. reflexivity.
    + rewrite decisions_app, Hdec, !decisions_app. simpl. rewrite !app_nil_r. rewrite Ho0. reflexivity.
  - destruct Hr as (pre & f & -> & Hf & Hl).
    rewrite filter_before_eligible in Hl.
    unfold before in Hf. rewrite before_cutoff_iff_eligible in Hf.
    intros H; inversion H; subst.
    rewrite <- app_assoc in Hlist. simpl in Hlist.
    eapply Aborted; eauto.
    + rewrite Hl, <- !app_assoc. reflexivity.
    + simpl. rewrite Hdec, !decisions_app. simpl. rewrite !app_nil_r. rewrite Ho0. reflexivity.
Qed.

(** ** What a run does to the store *)

Lemma deleted_ok_app l1 l2 : deleted_ok (l1 ++ l2) = deleted_ok l1 ++ deleted_ok l2.
Proof.
  induction l1 as [|[r b] l1 IH]; [reflexivity|].
  destruct r, b; simpl; rewrite IH; reflexivity.
Qed.

Lemma deleted_ok_ok_deletes fs : deleted_ok (map ok_delete fs) = map Drive.id fs.
Proof. induction fs as [|f fs IH]; simpl; [reflexivity|now rewrite IH]. Qed.

Lemma without_nil fs : without [] fs = fs.
Proof.
  induction fs as [|f fs IH]; [reflexivity|].
  unfold without in *. simpl in *. now rewrite IH.
Qed.

Lemma filter_twice {A} (p q : A -> bool) l :
  filter q (filter p l) = filter (fun x => p x && q x) l.
Proof.
  induction l as [|x l IH]; [reflexivity|]. simpl.
  destruct (p x); simpl; [destruct (q x)|]; now rewrite IH.
Qed.

Lemma without_app ids1 ids2 fs :
  without (ids1 ++ ids2) fs = without ids2 (without ids1 fs).
Proof.
  unfold without. rewrite filter_twice. apply filter_ext. intros f.
  now rewrite existsb_app, negb_orb.
Qed.

Lemma tracks_refl d : tracks d d.
Proof.
  split; [exists []; now rewrite app_nil_r|].
  unfold new_log. rewrite skipn_all. simpl. now rewrite without_nil.
Qed.

Lemma tracks_trans d1 d2 d3 : tracks d1 d2 -> tracks d2 d3 -> tracks d1 d3.
Proof.
  intros [[l1 Hl1] Hf1] [[l2 Hl2] Hf2].
  rewrite (DriveFacts.new_log_app _ _ _ Hl1) in Hf1.
  rewrite (DriveFacts.new_log_app _ _ _ Hl2) in Hf2.
  assert (Hl : Drive.log d3 = Drive.log d1 ++ l1 ++ l2)
    by (rewrite Hl2, Hl1, app_assoc; reflexivity).
  split; [eexists; exact Hl|].
  rewrite (DriveFacts.new_log_app _ _ _ Hl), deleted_ok_app, without_app.
  rewrite <- Hf1. exact Hf2.
Qed.

Lemma steady_ret {A} (a : A) : steady (ret a).
Proof. intros w. apply tracks_refl. Qed.

Lemma steady_raise {A} e : steady (@raise world A e).
Proof. intros w. apply tracks_refl. Qed.

Lemma steady_get : steady (@get world).
Proof. intros w. apply tracks_refl. Qed.

Lemma steady_emit l : steady (emit l).
Proof. intros w. apply tracks_refl. Qed.

Lemma steady_utcnow : steady utcnow.
Proof. intros w. apply tracks_refl. Qed.

(** Sequencing keeps a computation steady. *)
Lemma steady_bind {A B} (m : M world A) (k : A -> M world B) :
  steady m -> (forall a, steady (k a)) -> steady (bind m k).
Proof.
  intros Hm Hk w. unfold bind. specialize (Hm w).
  destruct (m w) as [[a|e] w1]; simpl in *; [|exact Hm].
  eapply tracks_trans; [exact Hm|apply Hk].
Qed.

Lemma steady_files_list q ps o : steady (on_drive (Drive.files_list q ps o)).
Proof.
  intros w. unfold on_drive. rewrite DriveFacts.files_list_run.
  destruct (Drive.fault (drive w) (List.length (Drive.log (drive w)))); simpl;
    (split; [eexists; reflexivity|]);
    (erewrite DriveFacts.new_log_app by reflexivity);
    simpl; now rewrite without_nil.
Qed.

Lemma steady_files_delete i : steady (on_drive (Drive.files_delete i)).
Proof.
  intros w. unfold on_drive, Drive.files_delete, Drive.call.
  destruct (Drive.fault (drive w) (List.length (Drive.log (drive w)))); simpl.
  { split; [eexists; reflexivity|].
    erewrite DriveFacts.new_log_app by reflexivity. simpl. now rewrite without_nil. }
  destruct (existsb (Drive.has_id i) (Drive.files (drive w))); simpl.
  - split; [eexists; reflexivity|].
    erewrite DriveFacts.new_log_app by reflexivity. simpl.
    unfold without. apply filter_ext. intros f. unfold Drive.has_id. simpl.
    now rewrite orb_false_r.
  - split; [eexists; reflexivity|].
    erewrite DriveFacts.new_log_app by reflexivity. simpl. now rewrite without_nil.
Qed.

Lemma steady_get_credentials : steady get_credentials.
Proof.
  unfold get_credentials. apply steady_bind; [apply steady_get|]. intros w.
  destruct (nonempty (missing (env w))); [apply steady_raise|].
  destruct (negb (creds_valid w)); [|apply steady_ret].
  destruct (creds_expired w && truthy (GOOGLE_REFRESH_TOKEN (env w)));
    [|apply steady_raise].
  apply steady_bind; [apply steady_emit|]. intros _.
  apply steady_bind; [|intros _; apply steady_emit].
  destruct (refresh_ok w); [apply steady_ret|apply steady_raise].
Qed.

Lemma steady_for_files files : forall cutoff count,
  steady (for_files files cutoff count).
Proof.
  induction files as [|file rest IH]; intros cutoff count; simpl.
  - apply steady_ret.
  - destruct (Drive.modifiedTime file <? cutoff).
    + apply steady_bind; [apply steady_utcnow|]. intros now.
      apply steady_bind; [apply steady_emit|]. intros _.
      apply steady_bind; [|intros _; apply IH].
      unfold delete_file. apply steady_bind; [apply steady_files_delete|].
      intros _. apply steady_emit.
    + apply steady_bind; [apply steady_utcnow|]. intros now.
      apply steady_bind; [apply steady_emit|]. intros _. apply IH.
Qed.

(** Whatever happens in a run, the store afterwards is the store before
    minus the objects whose delete request went through. *)
Lemma steady_cleanup : steady cleanup_old_files.
Proof.
  unfold cleanup_old_files.
  apply steady_bind; [apply steady_emit|]. intros _.
  apply steady_bind; [apply steady_emit|]. intros _.
  apply steady_bind; [apply steady_get_credentials|]. intros _.
  apply steady_bind.
  { unfold get_folder_id. apply steady_bind; [apply steady_files_list|].
    intros [|f fs]; [|apply steady_ret].
    apply steady_bind; [apply steady_emit|]. intros _. apply steady_ret. }
  intros folder_id. destruct (negb (truthy folder_id)).
  { apply steady_bind; [apply steady_emit|]. intros _. apply steady_ret. }
  apply steady_bind; [apply steady_files_list|]. intros files.
  apply steady_bind; [apply steady_emit|]. intros _.
  apply steady_bind; [apply steady_utcnow|]. intros now.
  apply steady_bind; [apply steady_emit|]. intros _.
  apply steady_bind; [apply steady_for_files|]. intros n.
  apply steady_bind; [apply steady_emit|]. intros _. apply steady_ret.
Qed.

End CleanupFacts.

(* ================================================================== *)
(** * The listing step                                                 *)
(* ================================================================== *)

Module Listing.

Import Cleanup Spec CleanupFacts Examples.

Lemma insert_by_perm o x l : Permutation (Drive.insert_by o x l) (x :: l).
Proof.
  induction l as [|y l IH]; simpl; [reflexivity|].
  destruct (Drive.le_by o x y); [reflexivity|].
  rewrite IH. apply perm_swap.
Qed.

Lemma sort_by_perm o l : Permutation (Drive.sort_by o l) l.
Proof.
  induction l as [|x l IH]; simpl; [reflexivity|].
  rewrite insert_by_perm. now constructor.
Qed.

Lemma insert_by_sorted x l :
  StronglySorted older l ->
  StronglySorted older (Drive.insert_by Drive.ModifiedTimeAsc x l).
Proof.
  induction 1 as [|y l Hs IH Hall]; simpl.
  - repeat constructor.
  - destruct (Z.leb_spec (Drive.modifiedTime x) (Drive.modifiedTime y)) as [Hle|Hgt].
    + constructor; [now constructor|].
      constructor; [exact Hle|].
      eapply Forall_impl; [|exact Hall]. unfold older. intros; lia.
    + constructor; [exact IH|].
      eapply Permutation_Forall; [symmetry; apply insert_by_perm|].
      constructor; [unfold older; lia|exact Hall].
Qed.

Lemma sort_by_sorted l : StronglySorted older (Drive.sort_by Drive.ModifiedTimeAsc l).
Proof.
  induction l as [|x l IH]; simpl; [constructor|].
  now apply insert_by_sorted.
Qed.

Lemma In_firstn {A} n (l : list A) x : In x (firstn n l) -> In x l.
Proof.
  intros H. rewrite <- (firstn_skipn n l). apply in_or_app. now left.
Qed.

Lemma firstn_sorted {A} (R : A -> A -> Prop) n l :
  StronglySorted R l -> StronglySorted R (firstn n l).
Proof.
  intros Hs. revert n. induction Hs as [|x l Hs IH Hall]; intros [|n]; simpl;
    try constructor.
  - apply IH.
  - apply Forall_forall. intros y Hy. apply In_firstn in Hy.
    rewrite Forall_forall in Hall. now apply Hall.
Qed.

Lemma matches_children fid f :
  Drive.matches (children_query fid) f = true <-> child_of fid f.
Proof.
  unfold Drive.matches, children_query, child_of. simpl.
  rewrite andb_true_r, andb_true_iff, existsb_exists, eqb_true_iff.
  split.
  - intros [(p & Hin & Heq) Ht]. apply String.eqb_eq in Heq. subst p. auto.
  - intros [Ht Hin]. split; [|exact Ht]. exists fid. split; [exact Hin|].
    apply String.eqb_refl.
Qed.

(** The children of [fid] are the non-trashed objects parented at it. *)
Lemma In_children fid d f :
  In f (children fid d) <-> In f (Drive.files d) /\ child_of fid f.
Proof.
  unfold children.
  split.
  - intros H. apply (Permutation_in _ (sort_by_perm _ _)) in H.
    apply filter_In in H. now rewrite matches_children in H.
  - intros H. apply (Permutation_in _ (Permutation_sym (sort_by_perm _ _))).
    apply filter_In. now rewrite matches_children.
Qed.

(** The listing of a sweep holds resources of the store, children of the
    resolved folder. *)
Lemma listing_in_files d f : In f (listing d) -> In f (Drive.files d).
Proof.
  unfold listing, first_page.
  destruct (folder_of d) as [fid|]; [|intros []].
  destruct (String.eqb fid ""); [intros []|].
  intros H. apply In_firstn in H. now apply In_children in H.
Qed.

(** ** Distinct ids *)

Lemma NoDup_map_filter {A B} (g : A -> B) (p : A -> bool) l :
  NoDup (map g l) -> NoDup (map g (filter p l)).
Proof.
  induction l as [|a l IH]; simpl; intros H; [constructor|].
  inversion H as [|? ? Hn Hl]. destruct (p a); simpl; [|auto].
  constructor; [|auto]. intros Hin. apply Hn.
  apply in_map_iff in Hin. destruct Hin as (y & Hy & Hin).
  apply filter_In in Hin. apply in_map_iff. exists y. tauto.
Qed.

Lemma NoDup_firstn {A} n (l : list A) : NoDup l -> NoDup (firstn n l).
Proof.
  intros H. rewrite <- (firstn_skipn n l) in H.
  now apply NoDup_app_remove_r in H.
Qed.

Lemma listing_ids_distinct d :
  NoDup (map Drive.id (Drive.files d)) -> NoDup (map Drive.id (listing d)).
Proof.
  intros H. unfold listing. destruct (folder_of d) as [fid|]; [|constructor].
  destruct (String.eqb fid ""); [constructor|].
  unfold first_page, children. rewrite <- firstn_map. apply NoDup_firstn.
  eapply Permutation_NoDup.
  - apply Permutation_map, Permutation_sym, sort_by_perm.
  - now apply NoDup_map_filter.
Qed.

(** Objects on the two sides of a list with distinct ids have different
    ids. *)
Lemma ids_apart (l1 l2 : list Drive.file) h g :
  NoDup (map Drive.id (l1 ++ l2)) -> In h l1 -> In g l2 ->
  Drive.id h <> Drive.id g.
Proof.
  induction l1 as [|a l1 IH]; simpl; intros Hnd Hh Hg; [destruct Hh|].
  inversion Hnd as [|? ? Hnot Hrest]. destruct Hh as [->|Hh]; [|now apply IH].
  intros Heq. apply Hnot. rewrite Heq. apply in_map, in_or_app. now right.
Qed.

(** What [list_files] returns when the request goes through: the first
    hundred children, oldest first; all of them when there are no more
    than a hundred. *)
Lemma list_files_first_page fid w :
  next_fault w 0 = false ->
  exists listed,
    fst (list_files fid w) = Ok listed /\
    listed = firstn 100 (children fid (drive w)) /\
    (List.length listed <= 100)%nat /\
    StronglySorted older listed /\
    (forall f, In f listed -> In f (Drive.files (drive w)) /\ child_of fid f) /\
    ((List.length (children fid (drive w)) <= 100)%nat ->
     forall f, In f (Drive.files (drive w)) -> child_of fid f -> In f listed).
Proof.
  intros Hf. unfold next_fault in Hf. simpl in Hf.
  exists (first_page fid (drive w)).
  rewrite list_files_run. cbv zeta. rewrite Hf.
  split; [reflexivity|]. unfold first_page. split; [reflexivity|].
  split; [apply firstn_le_length|].
  split; [apply firstn_sorted, sort_by_sorted|].
  split.
  - intros f Hin. apply In_firstn in Hin. now apply In_children.
  - intros Hlen f Hin Hc. rewrite firstn_all2 by exact Hlen.
    apply In_children. auto.
Qed.

(** The listing of the folder of 101 objects, evaluated. *)
Lemma crowded_listing :
  fst (list_files "folder-1" crowded_world)
  = Ok (first_page "folder-1" (drive crowded_world)) /\
  List.length (children "folder-1" (drive crowded_world)) = 101%nat /\
  List.length (first_page "folder-1" (drive crowded_world)) = 100%nat /\
  existsb (Drive.has_id "100") (Drive.files (drive crowded_world)) = true /\
  existsb (Drive.has_id "100") (first_page "folder-1" (drive crowded_world)) = false.
Proof. repeat split; vm_compute; reflexivity. Qed.

(** C7, at a folder of 101 objects: the request goes through, all 101
    objects are non-trashed children of the folder, and [list_files]
    returns the hundred oldest; the newest is not listed. *)
Theorem list_files_stops_at_100 :
  exists listed,
    fst (list_files "folder-1" crowded_world) = Ok listed /\
    List.length (children "folder-1" (drive crowded_world)) = 101%nat /\
    List.length listed = 100%nat /\
    existsb (Drive.has_id "100") (Drive.files (drive crowded_world)) = true /\
    existsb (Drive.has_id "100") listed = false.
Proof.
  exists (first_page "folder-1" (drive crowded_world)).
  split; [vm_compute; reflexivity|].
  split; [vm_compute; reflexivity|].
  split; [vm_compute; reflexivity|].
  split; vm_compute; reflexivity.
Qed.

(** The same, against the sentence of the spec: an object of the folder
    is missing from the listing. *)
Lemma listing_not_complete : ~ listing_is_complete "folder-1" crowded_world.
Proof.
  intros (listed & Hl & Hall).
  assert (Hid : existsb (Drive.has_id "100") listed = false).
  { destruct crowded_listing as (Hl' & _ & _ & _ & Hno).
    rewrite Hl in Hl'. inversion Hl'; subst. exact Hno. }
  pose (f := doc "100" (today - 30 * DAY + 100)).
  assert (Hin : In f (Drive.files (drive crowded_world))).
  { right. unfold crowd. apply in_map_iff. exists 100%nat. split; [reflexivity|].
    apply in_seq. lia. }
  assert (Hc : child_of "folder-1" f) by (split; [reflexivity|left; reflexivity]).
  specialize (Hall f Hin Hc).
  assert (existsb (Drive.has_id "100") listed = true).
  { apply existsb_exists. exists f. split; [exact Hall|reflexivity]. }
  congruence.
Qed.

End Listing.

(* ================================================================== *)
(** * The retention job: statements                                    *)
(* ================================================================== *)

Module Retention.

Import Cleanup Spec CleanupFacts Examples.

Lemma new_log_nil d d' : Drive.log d' = Drive.log d -> new_log d d' = [].
Proof.
  intros H. apply DriveFacts.new_log_app. rewrite app_nil_r. exact H.
Qed.


Lemma all_ok_deletes fs : all_ok (map ok_delete fs) = true.
Proof. induction fs as [|f fs IH]; [reflexivity|exact IH]. Qed.

(** The drive after [main] is the drive after [cleanup_old_files]. *)
Lemma main_drive w : drive (snd (main w)) = drive (snd (cleanup_old_files w)).
Proof.
  unfold main. destruct (cleanup_old_files w) as [[n|e] w']; reflexivity.
Qed.

Lemma main_exit w :
  fst (main w) = if is_ok (fst (cleanup_old_files w)) then 0 else 1.
Proof.
  unfold main. destruct (cleanup_old_files w) as [[n|e] w']; reflexivity.
Qed.

Lemma In_without ids fs f :
  In f (without ids fs) <->
  In f fs /\ existsb (String.eqb (Drive.id f)) ids = false.
Proof.
  unfold without. rewrite filter_In, negb_true_iff. reflexivity.
Qed.

Lemma id_among fs f :
  existsb (String.eqb (Drive.id f)) (map Drive.id fs) = true <->
  exists g, In g fs /\ Drive.id g = Drive.id f.
Proof.
  rewrite existsb_exists. split.
  - intros (i & Hin & Heq). apply in_map_iff in Hin. destruct Hin as (g & <- & Hg).
    apply String.eqb_eq in Heq. eauto.
  - intros (g & Hg & Heq). exists (Drive.id g). split; [now apply in_map|].
    apply String.eqb_eq. now symmetry.
Qed.




(** ** Failing deletions *)

Lemma all_ok_app (l1 l2 : list (Drive.request * bool)) :
  all_ok (l1 ++ l2) = all_ok l1 && all_ok l2.
Proof. apply forallb_app. Qed.

(** A log that ends in a failed request is not a log of successes. *)
Lemma ends_in_failure l r : all_ok (l ++ [(r, false)]) = false.
Proof. rewrite all_ok_app. apply andb_false_r. Qed.

(** C2, counterexample: on [failing_world] the delete of [b] fails; the
    run stops there and [c], eight days old and listed after [b], gets no
    delete request. *)
Lemma sweep_not_best_effort : ~ sweep_is_best_effort failing_world.
Proof.
  intros H.
  specialize (H (doc "c" (today - 8 * DAY))).
  assert (Hin : In (doc "c" (today - 8 * DAY)) (listing (drive failing_world))).
  { vm_compute. right; right; left; reflexivity. }
  specialize (H Hin eq_refl).
  assert (Hids : Drive.delete_ids
                   (new_log (drive failing_world)
                            (drive (snd (cleanup_old_files failing_world))))
                 = ["a"; "b"]) by (vm_compute; reflexivity).
  rewrite Hids in H. simpl in H.
  destruct H as [H|[H|[]]]; discriminate H.
Qed.

(** C2, amended: when the last request of a run is a failed delete, the
    run raised; the failing object [f] is an eligible object of the
    listing, decided like the objects listed before it, of which the
    eligible ones were deleted; nothing listed after [f] was decided or
    requested; the store lost the resources with the ids deleted before
    the failure and nothing else, so that, where the store's ids are
    distinct, [f] and everything listed after it are still there; no
    failure was recorded for [f] beyond the exception, and the job exits
    with status 1. *)
Theorem delete_failure_aborts_sweep w r w' l i :
  cleanup_old_files w = (r, w') ->
  new_log (drive w) (drive w') = l ++ [(Drive.FilesDelete i, false)] ->
  let now := clock w (ticks w) in
  exists fid e pre f post,
    r = Raise e /\
    listing (drive w) = pre ++ f :: post /\
    Drive.id f = i /\
    eligible now f = true /\
    l = [(folder_lookup, true); (children_lookup fid, true)]
        ++ map ok_delete (filter (eligible now) pre) /\
    decisions (out w') = decisions (out w)
      ++ map (fun g => (Drive.name g, eligible now g)) (pre ++ [f]) /\
    Drive.files (drive w')
    = without (map Drive.id (filter (eligible now) pre)) (Drive.files (drive w)) /\
    (NoDup (map Drive.id (Drive.files (drive w))) ->
     forall g, In g (f :: post) -> In g (Drive.files (drive w'))) /\
    fst (main w) = 1.
Proof.
  intros Hrun Hnew now.
  pose proof (steady_cleanup w) as [_ Hstore]. rewrite Hrun in Hstore.
  simpl in Hstore. rewrite Hnew, deleted_ok_app in Hstore. simpl in Hstore.
  rewrite app_nil_r in Hstore.
  assert (Hexit : is_ok r = false -> fst (main w) = 1).
  { intros Hr. rewrite main_exit, Hrun. simpl. now rewrite Hr. }
  assert (Hbad : all_ok (new_log (drive w) (drive w')) = false)
    by (rewrite Hnew; apply ends_in_failure).
  apply cleanup_run in Hrun.
  destruct Hrun as [? Hr Hlog ?| ? ? Hr Hlog ?|? ? ? Hr Hlog ? ?
                   |fid ? ? ? ? ? Hr Hlog ?|fid ? ? ? ? ? ? ? Hr Hlog Hdec
                   |fid pre f post e ? ? ? ? ? ? Hlist Hel Hr Hlog Hdec].
  - rewrite (new_log_nil _ _ Hlog) in Hnew.
    destruct l; discriminate Hnew.
  - rewrite (DriveFacts.new_log_app _ _ _ Hlog) in Hnew.
    change [(folder_lookup, false)] with ([] ++ [(folder_lookup, false)]) in Hnew.
    apply app_inj_tail in Hnew. destruct Hnew as [_ Hnew]. discriminate Hnew.
  - rewrite (DriveFacts.new_log_app _ _ _ Hlog) in Hbad. discriminate Hbad.
  - rewrite (DriveFacts.new_log_app _ _ _ Hlog) in Hnew.
    change [(folder_lookup, true); (children_lookup fid, false)]
      with ([(folder_lookup, true)] ++ [(children_lookup fid, false)]) in Hnew.
    apply app_inj_tail in Hnew. destruct Hnew as [_ Hnew]. discriminate Hnew.
  - rewrite (DriveFacts.new_log_app _ _ _ Hlog) in Hbad.
    simpl in Hbad. rewrite all_ok_deletes in Hbad. discriminate Hbad.
  - rewrite (DriveFacts.new_log_app _ _ _ Hlog) in Hnew.
    rewrite app_assoc in Hnew.
    apply app_inj_tail in Hnew. destruct Hnew as [Hl Hf].
    exists fid, e, pre, f, post.
    assert (Hfiles : Drive.files (drive w')
                     = without (map Drive.id (filter (eligible now) pre))
                               (Drive.files (drive w))).
    { rewrite Hstore, <- Hl, deleted_ok_app. simpl.
      now rewrite deleted_ok_ok_deletes. }
    refine (conj Hr (conj Hlist (conj _ (conj Hel (conj (eq_sym Hl)
              (conj Hdec (conj Hfiles (conj _ _)))))))).
    + unfold failed_delete in Hf. congruence.
    + intros Hnd g Hg. rewrite Hfiles. apply In_without.
      assert (Hlisted : In g (listing (drive w)))
        by (rewrite Hlist; apply in_or_app; now right).
      split; [now apply Listing.listing_in_files|].
      destruct (existsb _ _) eqn:Hex; [exfalso|reflexivity].
      apply id_among in Hex. destruct Hex as (h & Hh & Heq).
      apply filter_In in Hh. destruct Hh as [Hh _].
      pose proof (Listing.listing_ids_distinct (drive w) Hnd) as Hdistinct.
      rewrite Hlist in Hdistinct.
      exact (Listing.ids_apart pre (f :: post) h g Hdistinct Hh Hg Heq).
    + apply Hexit. rewrite Hr. reflexivity.
Qed.

(** On [failing_world] the last request is the failed delete of [b],
    and [b] is still in the store. *)
Lemma delete_failure_aborts_sweep_witness :
  exists e pre f post,
    fst (cleanup_old_files failing_world) = Raise e /\
    listing (drive failing_world) = pre ++ f :: post /\
    Drive.id f = "b" /\
    In f (Drive.files (drive (snd (cleanup_old_files failing_world)))) /\
    fst (main failing_world) = 1.
Proof.
  assert (Hnew : new_log (drive failing_world)
                         (drive (snd (cleanup_old_files failing_world)))
                 = [(folder_lookup, true);
                    (children_lookup "folder-1", true);
                    (Drive.FilesDelete "a", true)]
                   ++ [(Drive.FilesDelete "b", false)])
    by (vm_compute; reflexivity).
  destruct (delete_failure_aborts_sweep failing_world _ _ _ _
              (surjective_pairing _) Hnew)
    as (fid & e & pre & f & post & Hr & Hl & Hi & _ & _ & _ & _ & Hstay & Hx).
  exists e, pre, f, post.
  refine (conj Hr (conj Hl (conj Hi (conj _ Hx)))).
  apply Hstay; [|now left].
  unfold failing_world, world_of, store, stale_files.
  cbn [drive Drive.files map Drive.id folder doc].
  repeat (constructor; [simpl; intuition discriminate|]). constructor.
Defined.

(** ** Exit status *)

(** C3, counterexample: on [failing_world] the credentials resolve and
    both listings succeed, one deletion succeeds and one fails, and the
    job exits with status 1. *)
Lemma partial_failure_exits_nonzero : ~ exit_reflects_run_only failing_world.
Proof.
  unfold exit_reflects_run_only.
  assert (Hexit : fst (main failing_world) = 1) by (vm_compute; reflexivity).
  assert (Hnew : new_log (drive failing_world) (drive (snd (main failing_world)))
                 = [(folder_lookup, true);
                    (children_lookup "folder-1", true);
                    (Drive.FilesDelete "a", true);
                    (Drive.FilesDelete "b", false)])
    by (vm_compute; reflexivity).
  rewrite Hexit, Hnew. intros H.
  assert (Hne : 1 <> 0) by discriminate.
  unfold folder_lookup, children_lookup in H.
  destruct (H Hne) as [Hc|[Hl|[fid Hl]]].
  - vm_compute in Hc. discriminate Hc.
  - simpl in Hl. destruct Hl as [Hl|[Hl|[Hl|[Hl|[]]]]]; discriminate Hl.
  - simpl in Hl. destruct Hl as [Hl|[Hl|[Hl|[Hl|[]]]]]; discriminate Hl.
Qed.

(** C3, amended: the job exits with status 0 or 1, and with 0 exactly
    when the credentials resolved and every request of the run, each
    attempted deletion included, went through. *)
Theorem exit_status_iff_no_failure w :
  (fst (main w) = 0 \/ fst (main w) = 1) /\
  (fst (main w) = 0 <->
   is_ok (fst (get_credentials w)) = true /\
   all_ok (new_log (drive w) (drive (snd (main w)))) = true).
Proof.
  rewrite main_exit, main_drive.
  destruct (cleanup_old_files w) as [r w'] eqn:Hrun. simpl.
  apply cleanup_run in Hrun.
  destruct Hrun as [Hc Hr Hlog ?| ? ? Hr Hlog ?|? ? ? Hr Hlog ? ?
                   |fid ? ? ? ? ? Hr Hlog ?|fid ? ? ? ? ? ? ? Hr Hlog Hdec
                   |fid pre f post e ? ? ? ? ? ? Hlist Hel Hr Hlog Hdec];
    try rewrite (DriveFacts.new_log_app _ _ _ Hlog);
    try (subst r; simpl).
  - rewrite Hr, Hc. split; [now right|]. split; [discriminate|].
    intros [Hx _]; discriminate Hx.
  - split; [now right|]. split; [discriminate|]. intros [_ Hx]; discriminate Hx.
  - split; [now left|]. split; [auto|reflexivity].
  - split; [now right|]. split; [discriminate|]. intros [_ Hx]; discriminate Hx.
  - split; [now left|]. split; [|reflexivity]. intros _. split; [assumption|].
    apply all_ok_deletes.
  - split; [now right|]. split; [discriminate|]. intros [_ Hx].
    unfold all_ok in Hx. simpl in Hx. rewrite forallb_app in Hx.
    simpl in Hx. rewrite andb_false_r in Hx. discriminate Hx.
Qed.

(** ** Missing folder *)

(** C6: with credentials that resolve and a folder lookup that goes
    through, a store without the configured folder makes the job a no-op:
    it returns 0, exits with status 0, makes no request but the lookup and
    leaves every resource in place. *)
Theorem missing_folder_is_noop w :
  is_ok (fst (get_credentials w)) = true ->
  next_fault w 0 = false ->
  folder_of (drive w) = None ->
  fst (cleanup_old_files w) = Ok 0 /\
  fst (main w) = 0 /\
  new_log (drive w) (drive (snd (main w))) = [(folder_lookup, true)] /\
  Drive.delete_ids (new_log (drive w) (drive (snd (main w)))) = [] /\
  Drive.files (drive (snd (main w))) = Drive.files (drive w).
Proof.
  intros Hcred Hfault Hnone.
  rewrite main_exit, main_drive.
  destruct (cleanup_old_files w) as [r w'] eqn:Hrun. simpl.
  apply cleanup_run in Hrun.
  destruct Hrun as [Hc Hr Hlog ?| ? Hf Hr Hlog ?|? ? ? Hr Hlog Hfiles ?
                   |fid ? ? ? Hfo ? Hr Hlog ?|fid ? ? ? ? ? Hfo ? Hr Hlog Hdec
                   |fid pre f post e ? ? ? ? Hfo ? Hlist Hel Hr Hlog Hdec];
    try congruence.
  subst r. rewrite (DriveFacts.new_log_app _ _ _ Hlog). auto.
Qed.

(** On [empty_world] there is no folder at all. *)
Lemma missing_folder_is_noop_witness :
  fst (cleanup_old_files empty_world) = Ok 0 /\ fst (main empty_world) = 0.
Proof.
  destruct (missing_folder_is_noop empty_world eq_refl eq_refl eq_refl)
    as (Hr & Hx & _).
  split; assumption.
Defined.

(** ** One cutoff, one listing *)

Lemma children_lookups_of_deletes fs :
  filter is_children_lookup (Drive.requests (map ok_delete fs)) = [].
Proof. induction fs as [|f fs IH]; [reflexivity|exact IH]. Qed.

Lemma requests_app l1 l2 :
  Drive.requests (l1 ++ l2) = Drive.requests l1 ++ Drive.requests l2.
Proof. apply map_app. Qed.

(** C8: in every run, completed or not, the listing is requested at most
    once, and every decision the run makes is the test of one object of
    that listing, as the store stood when the run began, against the one
    cutoff computed from the first reading of the clock; the deletions
    requested are exactly the judged objects that fail that test. *)
Theorem one_cutoff_one_listing w :
  let w' := snd (cleanup_old_files w) in
  let cutoff := clock w (ticks w) - timedelta_days MAX_AGE_DAYS in
  let requests := new_log (drive w) (drive w') in
  (List.length (filter is_children_lookup (Drive.requests requests)) <= 1)%nat /\
  exists judged rest,
    listing (drive w) = judged ++ rest /\
    decisions (out w') = decisions (out w)
      ++ map (fun f => (Drive.name f, before cutoff f)) judged /\
    Drive.delete_ids requests = map Drive.id (filter (before cutoff) judged).
Proof.
  destruct (cleanup_old_files w) as [r w'] eqn:Hrun. simpl.
  apply cleanup_run in Hrun.
  destruct Hrun as [Hc Hr Hlog Hdec| ? ? Hr Hlog Hdec|? ? ? Hr Hlog ? Hdec
                   |fid ? ? ? ? ? Hr Hlog Hdec|fid ? ? ? ? ? ? ? Hr Hlog Hdec
                   |fid pre f post e now ? ? ? ? ? Hlist Hel Hr Hlog Hdec];
    first [rewrite (new_log_nil _ _ Hlog)
          |rewrite (DriveFacts.new_log_app _ _ _ Hlog)].
  1-4: (split; [simpl; lia|]; exists [], (listing (drive w));
        rewrite Hdec; simpl; rewrite ?app_nil_r; auto).
  - split.
    + rewrite requests_app, filter_app, children_lookups_of_deletes.
      simpl. lia.
    + exists (listing (drive w)), []. rewrite app_nil_r.
      rewrite map_before_eligible, filter_before_eligible, DriveFacts.delete_ids_app.
      simpl. rewrite DriveFacts.delete_ids_ok_deletes. auto.
  - split.
    + rewrite app_assoc, !requests_app, !filter_app, children_lookups_of_deletes.
      simpl. lia.
    + subst now. exists (pre ++ [f]), post.
      split; [rewrite <- app_assoc; exact Hlist|].
      split; [rewrite map_before_eligible; exact Hdec|].
      rewrite filter_before_eligible, filter_app. simpl. rewrite Hel.
      rewrite !DriveFacts.delete_ids_app. simpl.
      rewrite DriveFacts.delete_ids_ok_deletes, map_app. reflexivity.
Qed.

End Retention.

(* ================================================================== *)
(** * Folder resolution                                            *)
(* ================================================================== *)

Module Resolve.

Import App AppSpec.

(** The body of [get_folder_id] step by step: the lookup, then the first
    match or a create call. *)
Lemma resolve_run d :
  get_folder_id d =
  if Drive.fault d (List.length (Drive.log d)) then
    (Raise (HttpError 503), Drive.with_log d (Drive.log d ++ [(lookup, false)]))
  else
    let d1 := Drive.with_log d (Drive.log d ++ [(lookup, true)]) in
    match folders d with
    | f :: _ => (Ok (Drive.id f), d1)
    | [] => (folder <- Drive.files_create folder_metadata None ;; ret (Drive.id folder)) d1
    end.
Proof.
  unfold get_folder_id, bind at 1. rewrite DriveFacts.files_list_run.
  destruct (Drive.fault d (List.length (Drive.log d))); [reflexivity|].
  unfold Drive.result_set, Drive.ordered, Drive.page_limit. fold (folders d).
  destruct (folders d); reflexivity.
Qed.

(** The folder that [get_folder_id] creates is one that its own lookup
    finds. *)
Lemma created_folder_matches d :
  Drive.matches folder_query (Drive.created d folder_metadata None) = true.
Proof. reflexivity. Qed.

Lemma folders_with_log d l : folders (Drive.with_log d l) = folders d.
Proof. reflexivity. Qed.

(** A listed folder is adopted: one request, no create. *)
Lemma adopt d f rest :
  Drive.fault d (List.length (Drive.log d)) = false ->
  folders d = f :: rest ->
  get_folder_id d
  = (Ok (Drive.id f), Drive.with_log d (Drive.log d ++ [(lookup, true)])).
Proof.
  intros Hf0 Hfs. rewrite resolve_run, Hf0. cbv zeta. rewrite Hfs.
  reflexivity.
Qed.

(** With no folder listed, one create call follows the lookup. *)
Lemma create d :
  Drive.fault d (List.length (Drive.log d)) = false ->
  Drive.fault d (S (List.length (Drive.log d))) = false ->
  folders d = [] ->
  get_folder_id d
  = (Ok (Drive.id (added d)),
     Drive.with_log (Drive.with_files d (Drive.files d ++ [added d]))
                    (Drive.log d ++ [(lookup, true); (create_folder, true)])).
Proof.
  intros Hf0 Hf1 Hnone. rewrite resolve_run, Hf0. cbv zeta. rewrite Hnone.
  unfold bind. rewrite DriveFacts.files_create_run. simpl.
  rewrite length_app. simpl. rewrite Nat.add_1_r, Hf1.
  unfold ret, added, Drive.with_log, Drive.with_files, create_folder. simpl.
  rewrite ?length_app. simpl. rewrite ?Nat.add_1_r, <- app_assoc. reflexivity.
Qed.

Lemma folders_after_create d :
  folders d = [] ->
  folders (Drive.with_log (Drive.with_files d (Drive.files d ++ [added d]))
                          (Drive.log d ++ [(lookup, true); (create_folder, true)]))
  = [added d].
Proof.
  intros Hnone. unfold folders. simpl. rewrite filter_app. fold (folders d).
  rewrite Hnone. reflexivity.
Qed.

(** C4: when the lookup goes through, [get_folder_id] adopts the first
    listed folder without any create call; with no folder listed it makes
    exactly one create call and returns the new id, after which the store
    lists exactly that folder and a second [get_folder_id] returns the
    same id without creating anything. *)
Theorem resolve_adopts_or_creates_once d :
  Drive.fault d (List.length (Drive.log d)) = false ->
  (forall f rest, folders d = f :: rest ->
     fst (get_folder_id d) = Ok (Drive.id f) /\
     Spec.new_log d (snd (get_folder_id d)) = [(lookup, true)] /\
     Drive.files (snd (get_folder_id d)) = Drive.files d) /\
  (folders d = [] ->
   Drive.fault d (S (List.length (Drive.log d))) = false ->
   let d1 := snd (get_folder_id d) in
   exists new,
     fst (get_folder_id d) = Ok (Drive.id new) /\
     Spec.new_log d d1 = [(lookup, true); (create_folder, true)] /\
     Drive.files d1 = Drive.files d ++ [new] /\
     folders d1 = [new] /\
     (Drive.fault d (S (S (List.length (Drive.log d)))) = false ->
      let d2 := snd (get_folder_id d1) in
      fst (get_folder_id d1) = Ok (Drive.id new) /\
      Spec.new_log d1 d2 = [(lookup, true)] /\
      folders d2 = [new])).
Proof.
  intros Hf0. split.
  - intros f rest Hfs. rewrite (adopt d f rest Hf0 Hfs). simpl.
    split; [reflexivity|]. split; [|reflexivity].
    now apply DriveFacts.new_log_app.
  - intros Hnone Hf1 d1. subst d1. rewrite (create d Hf0 Hf1 Hnone). simpl.
    exists (added d). split; [reflexivity|].
    split; [now apply DriveFacts.new_log_app|].
    split; [reflexivity|].
    pose proof (folders_after_create d Hnone) as Hfolders.
    split; [exact Hfolders|].
    intros Hf2. erewrite adopt; [| |exact Hfolders].
    + simpl. split; [reflexivity|]. split; [|exact Hfolders].
      now apply DriveFacts.new_log_app.
    + simpl. rewrite length_app. simpl.
      replace (List.length (Drive.log d) + 2)%nat
        with (S (S (List.length (Drive.log d)))) by lia.
      exact Hf2.
Qed.

(** On [fresh_store], which holds nothing, two calls in sequence. *)
Lemma resolve_adopts_or_creates_once_witness :
  exists new,
    fst (get_folder_id fresh_store) = Ok (Drive.id new) /\
    folders (snd (get_folder_id fresh_store)) = [new] /\
    fst (get_folder_id (snd (get_folder_id fresh_store))) = Ok (Drive.id new).
Proof.
  destruct (proj2 (resolve_adopts_or_creates_once fresh_store eq_refl) eq_refl eq_refl)
    as (new & Hr & _ & _ & Hfs & Hsecond).
  destruct (Hsecond eq_refl) as (Hr2 & _ & _).
  exists new. repeat split; assumption.
Defined.

(** The same two calls through [st.cache_data], at times [now1] and
    [now2], from an empty cache and a store without the folder: one create
    call in all and the same id twice, whether the second call hits the
    cache or finds it expired. *)
Lemma cached_resolve_twice now1 now2 s :
  folder_cache s = None ->
  folders (drive s) = [] ->
  (forall k, (k < 3)%nat ->
     Drive.fault (drive s) (k + List.length (Drive.log (drive s))) = false) ->
  let r1 := cached_get_folder_id now1 s in
  let r2 := cached_get_folder_id now2 (snd r1) in
  exists new,
    fst r1 = Ok (Drive.id new) /\
    fst r2 = Ok (Drive.id new) /\
    filter Drive.is_create
           (Drive.requests (Spec.new_log (drive s) (drive (snd r2))))
    = [create_folder] /\
    folders (drive (snd r2)) = [new].
Proof.
  intros Hcache Hnone Hfaults r1 r2.
  pose proof (Hfaults 0%nat ltac:(lia)) as Hf0.
  pose proof (Hfaults 1%nat ltac:(lia)) as Hf1.
  pose proof (Hfaults 2%nat ltac:(lia)) as Hf2.
  simpl in Hf0, Hf1, Hf2.
  assert (H1 : r1 = (Ok (Drive.id (added (drive s))),
                     mkSession
                       (Drive.with_log
                          (Drive.with_files (drive s)
                             (Drive.files (drive s) ++ [added (drive s)]))
                          (Drive.log (drive s)
                             ++ [(lookup, true); (create_folder, true)]))
                       (Some (now1, Drive.id (added (drive s))))
                       (page s))).
  { subst r1. unfold cached_get_folder_id, bind at 1, get. rewrite Hcache.
    unfold bind, on_drive. rewrite (create _ Hf0 Hf1 Hnone). reflexivity. }
  pose proof (folders_after_create _ Hnone) as Hfolders.
  exists (added (drive s)). split; [rewrite H1; reflexivity|].
  subst r2. rewrite H1. cbn [snd].
  set (d1 := Drive.with_log _ _) in *.
  set (s1 := mkSession d1 _ _).
  destruct (now2 - now1 <? TTL) eqn:Httl.
  - assert (H2 : cached_get_folder_id now2 s1 = (Ok (Drive.id (added (drive s))), s1)).
    { unfold cached_get_folder_id, bind, get. cbn [folder_cache s1].
      rewrite Httl. reflexivity. }
    rewrite H2. cbn [fst snd drive s1]. split; [reflexivity|].
    split; [|exact Hfolders].
    erewrite DriveFacts.new_log_app; [|reflexivity]. reflexivity.
  - assert (Hf : Drive.fault d1 (List.length (Drive.log d1)) = false).
    { subst d1. cbn [Drive.fault Drive.log Drive.with_log Drive.with_files].
      rewrite length_app. simpl.
      replace (List.length (Drive.log (drive s)) + 2)%nat
        with (S (S (List.length (Drive.log (drive s))))) by lia.
      exact Hf2. }
    assert (H2 : cached_get_folder_id now2 s1
                 = (Ok (Drive.id (added (drive s))),
                    mkSession (Drive.with_log d1 (Drive.log d1 ++ [(lookup, true)]))
                              (Some (now2, Drive.id (added (drive s))))
                              (page s))).
    { unfold cached_get_folder_id, bind at 1, get. cbv beta iota.
      cbn [folder_cache s1]. rewrite Httl.
      unfold bind, on_drive. cbn [drive s1].
      rewrite (adopt d1 _ _ Hf Hfolders). reflexivity. }
    rewrite H2. cbn [fst snd drive]. split; [reflexivity|].
    split; [|exact Hfolders].
    erewrite DriveFacts.new_log_app.
    2:{ subst d1. cbn [Drive.log Drive.with_log]. rewrite <- app_assoc. reflexivity. }
    reflexivity.
Qed.

End Resolve.

(* ================================================================== *)
(** * Batch upload                                                 *)
(* ================================================================== *)

Module Upload.

Import App AppSpec.

Lemma requests_combine (rs : list Drive.request) (bs : list bool) :
  List.length bs = List.length rs -> Drive.requests (combine rs bs) = rs.
Proof.
  revert bs. induction rs as [|r rs IH]; intros [|b bs] Hlen; simpl in *;
    try discriminate; [reflexivity|].
  f_equal. apply IH. lia.
Qed.

Lemma successes_combine (rs : list Drive.request) (bs : list bool) :
  List.length bs = List.length rs -> successes (combine rs bs) = trues bs.
Proof.
  unfold successes, trues.
  revert bs. induction rs as [|r rs IH]; intros [|b bs] Hlen; simpl in *;
    try discriminate; [reflexivity|].
  destruct b; simpl; rewrite IH by lia; reflexivity.
Qed.

(** One upload: a single create request, which the fault schedule lets
    through or not. *)
Lemma upload_file_run fid u d :
  upload_file fid (up_name u) (up_bytes u) (type_or_default u) d =
  if Drive.fault d (List.length (Drive.log d)) then
    (Raise (HttpError 503),
     Drive.with_log d (Drive.log d ++ [(upload_request fid u, false)]))
  else
    let f := Drive.created d (Drive.mkBody (up_name u) None [fid])
               (Some (Drive.mkMedia (type_or_default u) (up_bytes u))) in
    (Ok f, Drive.with_log (Drive.with_files d (Drive.files d ++ [f]))
                          (Drive.log d ++ [(upload_request fid u, true)])).
Proof. unfold upload_file. apply DriveFacts.files_create_run. Qed.

(** One turn of the loop: the upload is requested; a failure is shown and
    the count is kept, a success raises the count; either way the loop
    goes on with the rest. *)
Lemma for_uploaded_cons fid total i u rest count s :
  for_uploaded fid total i (u :: rest) count s =
  let d := drive s in
  let shown := page s ++ [StatusUploading (up_name u)] in
  if Drive.fault d (List.length (Drive.log d)) then
    for_uploaded fid total (S i) rest count
      (mkSession
         (Drive.with_log d (Drive.log d ++ [(upload_request fid u, false)]))
         (folder_cache s)
         ((shown ++ [StError (up_name u) (HttpError 503)])
          ++ [Progress (i + 1) total]))
  else
    let f := Drive.created d (Drive.mkBody (up_name u) None [fid])
               (Some (Drive.mkMedia (type_or_default u) (up_bytes u))) in
    for_uploaded fid total (S i) rest (count + 1)
      (mkSession
         (Drive.with_log (Drive.with_files d (Drive.files d ++ [f]))
                         (Drive.log d ++ [(upload_request fid u, true)]))
         (folder_cache s)
         (shown ++ [Progress (i + 1) total])).
Proof.
  cbn [for_uploaded]. unfold bind at 1, show at 1, modify. cbv beta iota.
  unfold bind at 1, try_except, bind at 1, on_drive. cbn [drive].
  rewrite upload_file_run.
  destruct (Drive.fault (drive s) (List.length (Drive.log (drive s))));
    reflexivity.
Qed.

(** The loop attempts every item, whatever happened to the ones before. *)
Lemma for_uploaded_trace fid total ups : forall i count s,
  let r := for_uploaded fid total i ups count s in
  exists outcomes,
    List.length outcomes = List.length ups /\
    fst r = Ok (count + Z.of_nat (trues outcomes)) /\
    Drive.log (drive (snd r))
    = Drive.log (drive s) ++ combine (map (upload_request fid) ups) outcomes /\
    List.length (Drive.files (drive (snd r)))
    = (List.length (Drive.files (drive s)) + trues outcomes)%nat.
Proof.
  induction ups as [|u rest IH]; intros i count s r; subst r.
  - exists []. simpl. rewrite app_nil_r, Z.add_0_r, Nat.add_0_r. auto.
  - rewrite for_uploaded_cons. cbv zeta.
    destruct (Drive.fault (drive s) (List.length (Drive.log (drive s)))) eqn:Hf.
    + match goal with |- context [for_uploaded fid total (S i) rest ?c ?s1] =>
        destruct (IH (S i) c s1) as (outs & Hlen & Hr & Hlog & Hfiles) end.
      exists (false :: outs).
      split; [simpl; lia|]. split; [rewrite Hr; reflexivity|].
      split; [|rewrite Hfiles; reflexivity].
      rewrite Hlog. cbn [drive Drive.log Drive.with_log].
      rewrite <- app_assoc. reflexivity.
    + match goal with |- context [for_uploaded fid total (S i) rest ?c ?s1] =>
        destruct (IH (S i) c s1) as (outs & Hlen & Hr & Hlog & Hfiles) end.
      exists (true :: outs).
      split; [simpl; lia|]. split.
      { rewrite Hr. f_equal. unfold trues. simpl. lia. }
      split.
      { rewrite Hlog. cbn [drive Drive.log Drive.with_log].
        rewrite <- app_assoc. reflexivity. }
      rewrite Hfiles. cbn [drive Drive.files Drive.with_log Drive.with_files].
      rewrite length_app. unfold trues. simpl. lia.
Qed.

(** C5: the batch makes exactly one upload request per selected item, in
    order, whether or not earlier ones failed; the count it reports is the
    number of those requests that went through, and each of them added one
    object to the store. *)
Theorem batch_upload_isolated fid ups s :
  let r := upload_all fid ups s in
  let requests := Spec.new_log (drive s) (drive (snd r)) in
  Drive.requests requests = map (upload_request fid) ups /\
  fst r = Ok (Z.of_nat (successes requests)) /\
  List.length (Drive.files (drive (snd r)))
  = (List.length (Drive.files (drive s)) + successes requests)%nat.
Proof.
  cbv zeta.
  destruct (for_uploaded_trace fid (List.length ups) ups 0%nat 0 s)
    as (outs & Hlen & Hr & Hlog & Hfiles).
  destruct (for_uploaded fid (List.length ups) 0 ups 0 s) as [r1 s1] eqn:Hloop.
  cbn [fst snd] in *. subst r1.
  assert (Hrun : exists s2,
            upload_all fid ups s = (Ok (0 + Z.of_nat (trues outs)), s2) /\
            drive s2 = drive s1).
  { unfold upload_all, bind at 1. rewrite Hloop.
    unfold bind at 1, show at 1, modify. cbv beta iota.
    destruct (0 <? 0 + Z.of_nat (trues outs)); eexists; split; reflexivity. }
  destruct Hrun as (s2 & Hrun & Hd). rewrite Hrun. cbn [fst snd]. rewrite Hd.
  assert (Hlen' : List.length outs = List.length (map (upload_request fid) ups))
    by now rewrite length_map.
  rewrite (DriveFacts.new_log_app _ _ _ Hlog).
  rewrite requests_combine, successes_combine by exact Hlen'.
  rewrite Hfiles. auto.
Qed.

(** Three items, the second of which fails: two uploaded, the third among
    them, and the failure shown for the second. *)
Lemma middle_failure_counts_two :
  fst (upload_all "folder-1" three_files flaky_session) = Ok 2 /\
  map snd (Drive.log (drive (snd (upload_all "folder-1" three_files flaky_session))))
  = [true; false; true] /\
  map Drive.name (Drive.files (drive (snd (upload_all "folder-1" three_files flaky_session))))
  = ["WorkPC_Transfer"; "a.txt"; "c.txt"] /\
  In (StError "b.bin" (HttpError 503))
     (page (snd (upload_all "folder-1" three_files flaky_session))).
Proof.
  repeat split; try (vm_compute; reflexivity).
  vm_compute. do 3 right. left. reflexivity.
Qed.

End Upload.

(* ================================================================== *)
(** * Chunked download                                             *)
(* ================================================================== *)

Module Download.

Import App AppSpec.

(** Writing at the end of the buffer appends. *)
Lemma write_at_end data b :
  Io.write (Io.mkBytesIO data (List.length data)) b
  = Io.mkBytesIO (data ++ b) (List.length (data ++ b)).
Proof.
  unfold Io.write. cbn [Io.getvalue Io.tell].
  rewrite firstn_all, skipn_all2 by lia.
  rewrite app_nil_r, length_app. reflexivity.
Qed.

Section Loop.

Variable D : Type.
Variable next_chunk : D -> result (list byte * bool) * D.

(** With fuel for every chunk the loop returns them all, appended. *)
Lemma while_not_done_completes d cs d' :
  completes D next_chunk d cs d' ->
  forall data fuel,
    (List.length cs <= fuel)%nat ->
    while_not_done D next_chunk fuel d (Io.mkBytesIO data (List.length data))
    = Some (Ok (Io.mkBytesIO (data ++ List.concat cs) (List.length (data ++ List.concat cs))), d').
Proof.
  induction 1 as [d c d' Hstep|d c d1 cs d' Hstep Hrest IH]; intros data fuel Hfuel.
  - destruct fuel as [|fuel]; [simpl in Hfuel; lia|].
    simpl. rewrite Hstep, write_at_end, app_nil_r. reflexivity.
  - destruct fuel as [|fuel]; [simpl in Hfuel; lia|].
    simpl in Hfuel. cbn [while_not_done]. rewrite Hstep, write_at_end.
    rewrite IH by lia. simpl. rewrite <- app_assoc. reflexivity.
Qed.

(** With less fuel than chunks the loop has not yet seen [done]. *)
Lemma while_not_done_short d cs d' :
  completes D next_chunk d cs d' ->
  forall fd fuel,
    (fuel < List.length cs)%nat ->
    while_not_done D next_chunk fuel d fd = None.
Proof.
  induction 1 as [d c d' Hstep|d c d1 cs d' Hstep Hrest IH]; intros fd fuel Hfuel.
  - destruct fuel as [|fuel]; [reflexivity|simpl in Hfuel; lia].
  - destruct fuel as [|fuel]; [reflexivity|].
    simpl in Hfuel. cbn [while_not_done]. rewrite Hstep.
    apply IH. lia.
Qed.

End Loop.

(** C9: when the stream reports completion at the last of the finitely
    many chunks [cs], the loop calls [next_chunk] exactly [length cs] times:
    with that much fuel or more it returns the buffer holding all the
    chunks in order, rewound to position 0, in the state the last call
    left; with less it is still looping. *)
Theorem download_stops_when_done (D : Type)
    (next_chunk : D -> result (list byte * bool) * D) d cs d' :
  completes D next_chunk d cs d' ->
  (forall fuel, (List.length cs <= fuel)%nat ->
     download_loop D next_chunk fuel d
     = Some (Ok (Io.mkBytesIO (List.concat cs) 0), d')) /\
  (forall fuel, (fuel < List.length cs)%nat ->
     download_loop D next_chunk fuel d = None).
Proof.
  intros Hc. split; intros fuel Hfuel; unfold download_loop, Io.empty.
  - change (Io.mkBytesIO [] 0) with (Io.mkBytesIO [] (List.length (@nil byte))).
    rewrite (while_not_done_completes D next_chunk d cs d' Hc [] fuel Hfuel).
    reflexivity.
  - rewrite (while_not_done_short D next_chunk d cs d' Hc _ fuel Hfuel).
    reflexivity.
Qed.

(** The five bytes of [hello] in chunks of two: three calls, not two. *)
Lemma download_stops_when_done_witness :
  exists d',
    download_loop _ next_chunk 3 (hello_store, mkDownloader "obj-1" 2 0)
    = Some (Ok (Io.mkBytesIO [x68; x65; x6c; x6c; x6f]%byte 0), d') /\
    download_loop _ next_chunk 2 (hello_store, mkDownloader "obj-1" 2 0) = None.
Proof.
  set (s0 := (hello_store, mkDownloader "obj-1" 2 0)).
  set (s1 := snd (next_chunk s0)).
  set (s2 := snd (next_chunk s1)).
  exists (snd (next_chunk s2)).
  assert (Hc : completes _ next_chunk s0
                 [[x68; x65]; [x6c; x6c]; [x6f]]%byte (snd (next_chunk s2))).
  { eapply completes_more;
      [apply DriveFacts.pair_of_fst; vm_compute; reflexivity|].
    eapply completes_more;
      [apply DriveFacts.pair_of_fst; vm_compute; reflexivity|].
    eapply completes_last.
    apply DriveFacts.pair_of_fst; vm_compute; reflexivity. }
  destruct (download_stops_when_done _ _ _ _ _ Hc) as [Hdone Hshort].
  split; [apply (Hdone 3%nat); simpl; lia|apply (Hshort 2%nat); simpl; lia].
Defined.

(** ** The stream of a stored object *)

Lemma find_with_log i d l :
  find (Drive.has_id i) (Drive.files (Drive.with_log d l))
  = find (Drive.has_id i) (Drive.files d).
Proof. reflexivity. Qed.

Lemma quiet_next d r b :
  quiet d -> quiet (Drive.with_log d (Drive.log d ++ [(r, b)])).
Proof.
  intros Hq n. cbn [Drive.fault Drive.log Drive.with_log].
  rewrite length_app. simpl.
  replace (n + (List.length (Drive.log d) + 1))%nat
    with (S n + List.length (Drive.log d))%nat by lia.
  apply Hq.
Qed.

(** A call inside the object: the next range comes back with status 206. *)
Lemma next_chunk_inside d i k p f :
  Drive.fault d (List.length (Drive.log d)) = false ->
  find (Drive.has_id i) (Drive.files d) = Some f ->
  (p < List.length (Drive.content f))%nat ->
  let c := firstn k (skipn p (Drive.content f)) in
  next_chunk (d, mkDownloader i k p)
  = (Ok (c, (p + List.length c =? List.length (Drive.content f))%nat),
     (Drive.with_log d (Drive.log d ++ [(Drive.FilesGetMedia i p k, true)]),
      mkDownloader i k (p + List.length c))).
Proof.
  intros Hf Hfind Hp c.
  unfold next_chunk, Drive.files_get_media, Drive.serve_media.
  cbn [dl_file dl_progress dl_chunksize]. rewrite Hf, Hfind.
  apply Nat.ltb_lt in Hp. rewrite Hp. reflexivity.
Qed.

(** A call on an empty object: status 416 with a total of zero ends the
    download at once. *)
Lemma next_chunk_empty d i k f :
  Drive.fault d (List.length (Drive.log d)) = false ->
  find (Drive.has_id i) (Drive.files d) = Some f ->
  Drive.content f = [] ->
  next_chunk (d, mkDownloader i k 0)
  = (Ok ([], true),
     (Drive.with_log d (Drive.log d ++ [(Drive.FilesGetMedia i 0 k, false)]),
      mkDownloader i k 0)).
Proof.
  intros Hf Hfind Hc.
  unfold next_chunk, Drive.files_get_media, Drive.serve_media.
  cbn [dl_file dl_progress dl_chunksize]. rewrite Hf, Hfind, Hc. reflexivity.
Qed.

(** From any position inside the object, the remaining ranges complete
    the stream and make up the rest of the content. *)
Lemma stream_from i k f : (0 < k)%nat ->
  forall m p d,
    (List.length (Drive.content f) - p <= m)%nat ->
    (p < List.length (Drive.content f))%nat ->
    quiet d ->
    find (Drive.has_id i) (Drive.files d) = Some f ->
    exists cs s',
      completes _ next_chunk (d, mkDownloader i k p) cs s' /\
      List.concat cs = skipn p (Drive.content f) /\
      Drive.files (fst s') = Drive.files d /\
      (List.length cs <= m)%nat.
Proof.
  intros Hk. induction m as [|m IH]; intros p d Hm Hp Hq Hfind; [lia|].
  pose proof (Hq 0%nat) as Hf. simpl in Hf.
  pose proof (next_chunk_inside d i k p f Hf Hfind Hp) as Hstep. cbv zeta in Hstep.
  set (c := firstn k (skipn p (Drive.content f))) in *.
  assert (Hlen : List.length c = Nat.min k (List.length (Drive.content f) - p)).
  { unfold c. rewrite length_firstn, length_skipn. reflexivity. }
  destruct (Nat.eqb_spec (p + List.length c) (List.length (Drive.content f)))
    as [Hend|Hmore].
  - exists [c], (Drive.with_log d (Drive.log d ++ [(Drive.FilesGetMedia i p k, true)]),
                mkDownloader i k (p + List.length c)).
    split; [apply completes_last; exact Hstep|].
    split; [|split; [reflexivity|simpl; lia]].
    simpl. rewrite app_nil_r. unfold c. apply firstn_all2.
    rewrite length_skipn. lia.
  - assert (Hck : List.length c = k) by lia.
    destruct (IH (p + List.length c)%nat
                 (Drive.with_log d (Drive.log d ++ [(Drive.FilesGetMedia i p k, true)])))
      as (cs & s' & Hc & Hcat & Hfiles & Hn);
      [lia|lia|now apply quiet_next|exact Hfind|].
    exists (c :: cs), s'.
    split; [eapply completes_more; [exact Hstep|exact Hc]|].
    split; [|split; [exact Hfiles|simpl; lia]].
    simpl. rewrite Hcat, Hck. unfold c.
    rewrite Nat.add_comm, <- skipn_skipn. apply firstn_skipn.
Qed.

(** The stream of a stored object completes, and its chunks make up the
    object's content. *)
Lemma stored_object_completes d i k f :
  (0 < k)%nat ->
  quiet d ->
  find (Drive.has_id i) (Drive.files d) = Some f ->
  exists cs s',
    completes _ next_chunk (d, mkDownloader i k 0) cs s' /\
    List.concat cs = Drive.content f /\
    Drive.files (fst s') = Drive.files d /\
    (List.length cs <= S (List.length (Drive.content f)))%nat.
Proof.
  intros Hk Hq Hfind.
  destruct (Drive.content f) as [|b bs] eqn:Hc.
  - pose proof (Hq 0%nat) as Hf. simpl in Hf.
    eexists [[]], _. split.
    + apply completes_last. apply (next_chunk_empty d i k f Hf Hfind Hc).
    + repeat split. simpl. lia.
  - destruct (stream_from i k f Hk (List.length (Drive.content f)) 0 d)
      as (cs & s' & Hcs & Hcat & Hfiles & Hn); try assumption.
    + lia.
    + rewrite Hc. simpl. lia.
    + exists cs, s'. rewrite Hc in *. simpl in Hcat.
      repeat split; try assumption. simpl in *. lia.
Qed.

(** [download_file] on a stored object, with a store that answers: the
    whole content, rewound, and the store's resources untouched. *)
Lemma download_file_returns_content d i f fuel :
  quiet d ->
  find (Drive.has_id i) (Drive.files d) = Some f ->
  (S (List.length (Drive.content f)) <= fuel)%nat ->
  exists d',
    download_file fuel i d = Some (Ok (Io.mkBytesIO (Drive.content f) 0), d') /\
    Io.read (Io.mkBytesIO (Drive.content f) 0) = Drive.content f /\
    Drive.files d' = Drive.files d.
Proof.
  intros Hq Hfind Hfuel.
  assert (Hk : (0 < DEFAULT_CHUNK_SIZE)%nat) by (unfold DEFAULT_CHUNK_SIZE; lia).
  destruct (stored_object_completes d i DEFAULT_CHUNK_SIZE f Hk Hq Hfind)
    as (cs & [d' dl'] & Hc & Hcat & Hfiles & Hn).
  exists d'. unfold download_file, download_file_with, download_loop, Io.empty.
  change (Io.mkBytesIO [] 0) with (Io.mkBytesIO [] (List.length (@nil byte))).
  rewrite (while_not_done_completes _ next_chunk _ cs (d', dl') Hc [] fuel) by lia.
  simpl. rewrite Hcat. auto.
Qed.

End Download.

(* ================================================================== *)
(** * Size formatting                                              *)
(* ================================================================== *)

Module Format.

Import App AppSpec.

(** ** Rounding to 53 bits *)

Lemma round53_exact n : 0 < n < 2 ^ 53 -> PyFloat.round53 n = PyFloat.mk n 0.
Proof.
  intros [Hpos Hlt]. unfold PyFloat.round53.
  assert (Hlog : Z.log2 n < 53) by (apply Z.log2_lt_pow2; lia).
  destruct (Z.leb_spec (Z.log2 n + 1) 53); [reflexivity|lia].
Qed.

(** Above [2^53] the mantissa keeps 53 bits (or is [2^53] after rounding
    up) and the exponent is what was shifted out. *)
Lemma round53_rounded n :
  2 ^ 53 <= n ->
  exists m s,
    PyFloat.round53 n = PyFloat.mk m s /\
    s = Z.log2 n - 52 /\ 1 <= s /\
    2 ^ 52 <= n / 2 ^ s < 2 ^ 53 /\
    (m = n / 2 ^ s \/
     m = n / 2 ^ s + 1 /\
     (2 ^ (s - 1) < n mod 2 ^ s \/
      n mod 2 ^ s = 2 ^ (s - 1) /\ Z.odd (n / 2 ^ s) = true)) /\
    (m = n / 2 ^ s + 1 \/
     m = n / 2 ^ s /\
     (n mod 2 ^ s < 2 ^ (s - 1) \/
      n mod 2 ^ s = 2 ^ (s - 1) /\ Z.odd (n / 2 ^ s) = false)).
Proof.
  intros Hn.
  assert (Hpos : 0 < n) by (assert (0 < 2 ^ 53) by reflexivity; lia).
  assert (Hlog : 53 <= Z.log2 n) by (apply Z.log2_le_pow2; lia).
  destruct (Z.log2_spec n Hpos) as [Hlo Hhi].
  set (s := Z.log2 n - 52).
  assert (Hs : 1 <= s) by (unfold s; lia).
  assert (Hp : 0 < 2 ^ s) by (apply Z.pow_pos_nonneg; lia).
  assert (Hlo' : 2 ^ s * 2 ^ 52 <= n).
  { rewrite <- Z.pow_add_r by lia. replace (s + 52) with (Z.log2 n) by (unfold s; lia).
    exact Hlo. }
  assert (Hhi' : n < 2 ^ s * 2 ^ 53).
  { rewrite <- Z.pow_add_r by lia.
    replace (s + 53) with (Z.succ (Z.log2 n)) by (unfold s; lia). exact Hhi. }
  assert (Hq : 2 ^ 52 <= n / 2 ^ s < 2 ^ 53).
  { split; [apply Z.div_le_lower_bound; lia|apply Z.div_lt_upper_bound; lia]. }
  unfold PyFloat.round53.
  destruct (Z.leb_spec (Z.log2 n + 1) 53); [lia|].
  replace (Z.log2 n + 1 - 53) with s by (unfold s; lia).
  destruct (Z.ltb_spec (2 ^ (s - 1)) (n mod 2 ^ s)) as [Hgt|Hle]; simpl.
  - eexists _, s. split; [reflexivity|]. repeat split; try lia; auto.
  - destruct (Z.eqb_spec (n mod 2 ^ s) (2 ^ (s - 1))) as [Heq|Hne]; simpl.
    + destruct (Z.odd (n / 2 ^ s)) eqn:Hodd.
      * eexists _, s. split; [reflexivity|]. repeat split; try lia; auto.
      * eexists _, s. split; [reflexivity|]. repeat split; try lia; auto.
    + eexists _, s. split; [reflexivity|]. repeat split; lia.
Qed.

(** ** Comparisons and overflow *)

Lemma lt_1024_scaled n k :
  0 < k ->
  PyFloat.lt_1024 (PyFloat.mk n (- k)) = (n <? 1024 * 2 ^ k).
Proof.
  intros Hk. unfold PyFloat.lt_1024. cbn [PyFloat.expo PyFloat.mant].
  destruct (Z.leb_spec 0 (- k)); [lia|]. now rewrite Z.opp_involutive.
Qed.

Lemma lt_1024_large m e :
  2 ^ 52 <= m -> -42 <= e -> PyFloat.lt_1024 (PyFloat.mk m e) = false.
Proof.
  intros Hm He. unfold PyFloat.lt_1024. cbn [PyFloat.expo PyFloat.mant].
  assert (H52 : 2 ^ 52 = 1024 * 2 ^ 42) by reflexivity.
  destruct (Z.leb_spec 0 e) as [Hpos|Hneg]; apply Z.ltb_ge.
  - assert (1 <= 2 ^ e) by (apply (Z.pow_le_mono_r 2 0 e); lia).
    assert (0 < 2 ^ 42) by reflexivity. nia.
  - assert (2 ^ (- e) <= 2 ^ 42) by (apply Z.pow_le_mono_r; lia).
    lia.
Qed.

Lemma log2_mantissa m : 2 ^ 52 <= m <= 2 ^ 53 -> 52 <= Z.log2 m <= 53.
Proof.
  intros [Hlo Hhi].
  assert (0 < m) by (assert (0 < 2 ^ 52) by reflexivity; lia).
  split.
  - apply Z.log2_le_pow2; lia.
  - change 53 with (Z.log2 (2 ^ 53)). now apply Z.log2_le_mono.
Qed.

Lemma tenths_nonneg x : 0 <= PyFloat.mant x -> 0 <= PyFloat.tenths x.
Proof.
  intros Hm. unfold PyFloat.tenths.
  destruct (Z.leb_spec 0 (PyFloat.expo x)).
  - assert (0 <= 2 ^ PyFloat.expo x) by (apply Z.pow_nonneg; lia). nia.
  - assert (0 < 2 ^ (- PyFloat.expo x)) by (apply Z.pow_pos_nonneg; lia).
    assert (0 <= 10 * PyFloat.mant x / 2 ^ (- PyFloat.expo x))
      by (apply Z.div_pos; lia).
    destruct (_ || _); lia.
Qed.

(** Below [FLOAT_LIMIT] the quotient fits a double; from it on it does
    not. *)
Lemma truediv_fits n :
  2 ^ 53 <= n < FLOAT_LIMIT ->
  exists m s,
    PyFloat.int_truediv_1024 n = Ok (PyFloat.mk m (s - 10)) /\
    2 ^ 52 <= m <= 2 ^ 53 /\ 1 <= s.
Proof.
  intros [Hlo Hhi].
  destruct (round53_rounded n Hlo) as (m & s & Hr & Hs & Hs1 & Hq & Hup & Hdown).
  exists m, s. unfold PyFloat.int_truediv_1024, PyFloat.div_1024.
  rewrite Hr. cbn [PyFloat.mant PyFloat.expo].
  assert (Hm : 2 ^ 52 <= m <= 2 ^ 53) by (destruct Hup as [->|[-> _]]; lia).
  split; [|auto].
  assert (Hfit : PyFloat.overflows (PyFloat.mk m (s - 10)) = false); [|now rewrite Hfit].
  unfold PyFloat.overflows. cbn [PyFloat.mant PyFloat.expo]. apply Z.leb_gt.
  pose proof (log2_mantissa m Hm) as Hlm.
  assert (Hpos : 0 < n) by (assert (0 < 2 ^ 53) by reflexivity; lia).
  assert (Hlog : Z.log2 n < 1034).
  { apply Z.log2_lt_pow2; [lia|]. unfold FLOAT_LIMIT in Hhi.
    assert (0 < 2 ^ 980) by reflexivity. lia. }
  destruct (Z.eq_dec s 981) as [Hs981|Hsne]; [|lia].
  (* the top binade: the mantissa stays below 2^53 *)
  assert (Hm53 : m < 2 ^ 53); [|assert (Z.log2 m < 53) by (apply Z.log2_lt_pow2; lia); lia].
  subst s. rewrite Hs981 in *.
  unfold FLOAT_LIMIT in Hhi.
  pose proof (Z.div_mod n (2 ^ 981) ltac:(discriminate)) as Hdm.
  pose proof (Z.mod_pos_bound n (2 ^ 981) ltac:(reflexivity)) as Hmod.
  change (981 - 1) with 980 in *.
  set (q := n / 2 ^ 981) in *. set (r := n mod 2 ^ 981) in *.
  assert (H981 : 2 ^ 981 = 2 * 2 ^ 980) by reflexivity.
  assert (H1034 : 2 ^ 1034 = 2 ^ 53 * (2 * 2 ^ 980)) by reflexivity.
  assert (H53 : 2 ^ 53 = 9007199254740992) by reflexivity.
  rewrite H981 in *. rewrite H1034 in Hhi. rewrite H53 in *.
  set (h := 2 ^ 980) in *. assert (0 < h) by reflexivity.
  destruct Hup as [->|[-> Hcase]]; [lia|].
  destruct Hcase as [Hgt|[Heq _]]; nia.
Qed.

(** From [FLOAT_LIMIT] on the rounded quotient reaches [2^1024]. *)
Lemma truediv_overflows n :
  FLOAT_LIMIT <= n -> PyFloat.int_truediv_1024 n = Raise OverflowError.
Proof.
  intros Hn. unfold FLOAT_LIMIT in Hn.
  assert (H1033 : 2 ^ 1033 <= n).
  { assert (2 ^ 1033 <= 2 ^ 1034 - 2 ^ 980) by (apply Z.leb_le; reflexivity). lia. }
  assert (Hpos : 0 < n) by (assert (0 < 2 ^ 1033) by reflexivity; lia).
  assert (H53 : 2 ^ 53 <= n).
  { assert (2 ^ 53 <= 2 ^ 1033) by (apply Z.leb_le; reflexivity). lia. }
  destruct (round53_rounded n H53) as (m & s & Hr & Hs & Hs1 & Hq & Hup & Hdown).
  unfold PyFloat.int_truediv_1024, PyFloat.div_1024.
  rewrite Hr. cbn [PyFloat.mant PyFloat.expo].
  assert (Hm : 2 ^ 52 <= m <= 2 ^ 53) by (destruct Hup as [->|[-> _]]; lia).
  assert (Hover : PyFloat.overflows (PyFloat.mk m (s - 10)) = true); [|now rewrite Hover].
  unfold PyFloat.overflows. cbn [PyFloat.mant PyFloat.expo]. apply Z.leb_le.
  pose proof (log2_mantissa m Hm) as Hlm.
  assert (Hlog : 1033 <= Z.log2 n) by (apply Z.log2_le_pow2; lia).
  destruct (Z.eq_dec s 981) as [Hs981|Hsne]; [|lia].
  (* the top binade: the mantissa rounds up to 2^53 *)
  assert (Hm53 : m = 2 ^ 53).
  2:{ rewrite Hm53. change (Z.log2 (2 ^ 53)) with 53. lia. }
  assert (Hlt : n < 2 ^ 1034).
  { destruct (Z.log2_spec n Hpos) as [_ Hhi].
    replace (Z.succ (Z.log2 n)) with 1034 in Hhi by lia. exact Hhi. }
  clear Hs. rewrite Hs981 in *.
  pose proof (Z.div_mod n (2 ^ 981) ltac:(discriminate)) as Hdm.
  pose proof (Z.mod_pos_bound n (2 ^ 981) ltac:(reflexivity)) as Hmod.
  change (981 - 1) with 980 in *.
  assert (Hq' : n / 2 ^ 981 = 2 ^ 53 - 1).
  { assert (H981 : 2 ^ 981 = 2 * 2 ^ 980) by reflexivity.
    assert (H1034 : 2 ^ 1034 = 2 ^ 53 * (2 * 2 ^ 980)) by reflexivity.
    assert (H53' : 2 ^ 53 = 9007199254740992) by reflexivity.
    rewrite H981 in *. rewrite H1034 in *. rewrite H53' in *.
    set (q := n / (2 * 2 ^ 980)) in *. set (r := n mod (2 * 2 ^ 980)) in *.
    set (h := 2 ^ 980) in *. assert (0 < h) by reflexivity. nia. }
  destruct Hdown as [->|[-> Hcase]]; [lia|]. exfalso.
  rewrite Hq' in *.
  destruct Hcase as [Hless|[_ Hodd]]; [|discriminate Hodd].
  assert (H981 : 2 ^ 981 = 2 * 2 ^ 980) by reflexivity.
  assert (H1034 : 2 ^ 1034 = 2 ^ 53 * (2 * 2 ^ 980)) by reflexivity.
  assert (H53' : 2 ^ 53 = 9007199254740992) by reflexivity.
  rewrite H981 in *. rewrite H1034 in *. rewrite H53' in *.
  set (r := n mod (2 * 2 ^ 980)) in *.
  set (h := 2 ^ 980) in *. lia.
Qed.

(** ** The loop over the units *)

Lemma for_unit_float u rest x :
  for_unit (u :: rest) (PFloat x) =
  if PyFloat.lt_1024 x then Ok (labelled (PyFloat.format_f1 x) u)
  else for_unit rest (PFloat (PyFloat.div_1024 x)).
Proof. reflexivity. Qed.

Lemma for_unit_int u rest n :
  for_unit (u :: rest) (PInt n) =
  if n <? 1024 then render (PInt n) u
  else match PyFloat.int_truediv_1024 n with
       | Ok x => for_unit rest (PFloat x)
       | Raise e => Raise e
       end.
Proof.
  cbn [for_unit lt_1024 div_1024].
  destruct (n <? 1024); [reflexivity|].
  destruct (PyFloat.int_truediv_1024 n); reflexivity.
Qed.

Lemma for_unit_last x :
  for_unit [] (PFloat x) = Ok (labelled (PyFloat.format_f1 x) "TB").
Proof. reflexivity. Qed.

Lemma format_bytes n :
  0 <= n < 1024 ->
  format_size (Some n) = Ok (labelled (PyFloat.show_tenths (10 * n)) "B").
Proof.
  intros [Hlo Hhi]. unfold format_size. cbn [for_unit lt_1024].
  destruct (Z.ltb_spec n 1024); [|lia].
  unfold render, PyFloat.format_f1_int.
  destruct (Z.eqb_spec n 0) as [->|Hne]; [reflexivity|].
  rewrite Z.abs_eq by lia.
  rewrite round53_exact by (assert (1024 < 2 ^ 53) by reflexivity; lia).
  assert (Hfit : PyFloat.overflows (PyFloat.mk n 0) = false).
  { unfold PyFloat.overflows. cbn [PyFloat.mant PyFloat.expo]. apply Z.leb_gt.
    assert (Z.log2 n < 10) by (apply Z.log2_lt_pow2; [lia|exact Hhi]). lia. }
  rewrite Hfit. cbn [PyFloat.mant PyFloat.expo].
  destruct (Z.ltb_spec n 0); [lia|].
  unfold labelled, PyFloat.show_tenths.
  rewrite Z.pow_0_r, Z.mul_1_r.
  replace (10 * n / 10) with n by (symmetry; rewrite Z.mul_comm; apply Z.div_mul; lia).
  replace ((10 * n) mod 10) with 0 by (symmetry; rewrite Z.mul_comm; apply Z.mod_mul; lia).
  reflexivity.
Qed.

(** Between 1024 and [2^53] every division is exact: the value is
    [n * 2^-10], then [n * 2^-20], and so on. *)
Lemma format_exact n :
  1024 <= n < 2 ^ 53 ->
  exists x, PyFloat.mant x = n /\
            format_size (Some n) = Ok (labelled (PyFloat.format_f1 x) (unit_of n)).
Proof.
  intros [Hlo Hhi]. unfold format_size. rewrite for_unit_int.
  destruct (Z.ltb_spec n 1024) as [|_]; [lia|].
  unfold PyFloat.int_truediv_1024.
  rewrite round53_exact by lia.
  assert (Hfit : PyFloat.overflows (PyFloat.div_1024 (PyFloat.mk n 0)) = false).
  { unfold PyFloat.overflows, PyFloat.div_1024. cbn [PyFloat.mant PyFloat.expo].
    apply Z.leb_gt.
    assert (Z.log2 n < 53) by (apply Z.log2_lt_pow2; lia). lia. }
  rewrite Hfit. unfold PyFloat.div_1024. cbn [PyFloat.mant PyFloat.expo].
  unfold unit_of. destruct (Z.ltb_spec n 1024) as [|_]; [lia|].
  rewrite for_unit_float.
  change (0 - 10) with (- (10)). rewrite lt_1024_scaled by lia.
  change (1024 * 2 ^ 10) with (1024 ^ 2).
  destruct (n <? 1024 ^ 2); [eexists; split; [|reflexivity]; reflexivity|].
  rewrite for_unit_float. unfold PyFloat.div_1024. cbn [PyFloat.mant PyFloat.expo].
  change (- (10) - 10) with (- (20)). rewrite lt_1024_scaled by lia.
  change (1024 * 2 ^ 20) with (1024 ^ 3).
  destruct (n <? 1024 ^ 3); [eexists; split; [|reflexivity]; reflexivity|].
  rewrite for_unit_float. unfold PyFloat.div_1024. cbn [PyFloat.mant PyFloat.expo].
  change (- (20) - 10) with (- (30)). rewrite lt_1024_scaled by lia.
  change (1024 * 2 ^ 30) with (1024 ^ 4).
  destruct (n <? 1024 ^ 4); [eexists; split; [|reflexivity]; reflexivity|].
  rewrite for_unit_last. eexists; split; [|reflexivity]; reflexivity.
Qed.

(** From [2^53] on the value stays far above 1024 through all four
    divisions. *)
Lemma format_rounded n :
  2 ^ 53 <= n < FLOAT_LIMIT ->
  exists x, 0 <= PyFloat.mant x /\
            format_size (Some n) = Ok (labelled (PyFloat.format_f1 x) "TB").
Proof.
  intros Hn. destruct (truediv_fits n Hn) as (m & s & Hdiv & Hm & Hs).
  assert (H1024 : 1024 < 2 ^ 53) by reflexivity.
  unfold format_size. rewrite for_unit_int.
  destruct (Z.ltb_spec n 1024) as [|_]; [lia|].
  rewrite Hdiv.
  rewrite for_unit_float, lt_1024_large by lia.
  rewrite for_unit_float. unfold PyFloat.div_1024. cbn [PyFloat.mant PyFloat.expo].
  rewrite lt_1024_large by lia.
  rewrite for_unit_float. unfold PyFloat.div_1024. cbn [PyFloat.mant PyFloat.expo].
  rewrite lt_1024_large by lia.
  rewrite for_unit_last. eexists. split; [|reflexivity].
  cbn [PyFloat.mant]. assert (0 < 2 ^ 52) by reflexivity. lia.
Qed.

Lemma unit_of_cases n :
  In (unit_of n) UNITS /\
  (unit_of n = "B" <-> n < 1024) /\
  (1024 ^ 4 <= n -> unit_of n = "TB").
Proof.
  unfold unit_of, UNITS.
  destruct (Z.ltb_spec n 1024);
    [|destruct (Z.ltb_spec n (1024 ^ 2));
      [|destruct (Z.ltb_spec n (1024 ^ 3));
        [|destruct (Z.ltb_spec n (1024 ^ 4))]]];
    (split; [simpl; tauto|]);
    (split; [split; [try discriminate; intros; lia|intros; try reflexivity; lia]|]);
    intros; try reflexivity;
    assert (1024 < 1024 ^ 2 < 1024 ^ 3 /\ 1024 ^ 3 < 1024 ^ 4) by (repeat split; reflexivity);
    lia.
Qed.

(** C10, counterexample: the count [2^1034], whose quotient by 1024 is
    [2^1024], past the largest double. *)
Lemma format_size_not_total : ~ format_size_total.
Proof.
  intros H. destruct (H (2 ^ 1034)) as [s Hs]; [apply Z.pow_nonneg; lia|].
  assert (Hraise : format_size (Some (2 ^ 1034)) = Raise OverflowError)
    by (vm_compute; reflexivity).
  rewrite Hraise in Hs. discriminate Hs.
Qed.

(** C10, amended: [format_size] returns ["N/A"] for [None]; for every
    count from 0 up to [FLOAT_LIMIT] it returns a decimal number with one
    digit after the point, a space and one unit among B, KB, MB, GB and TB,
    the unit being B exactly below 1024 and TB from [1024^4] on; from
    [FLOAT_LIMIT] on it raises [OverflowError]. *)
Theorem format_size_within_float_range :
  format_size None = Ok "N/A" /\
  (forall n, 0 <= n < FLOAT_LIMIT ->
     exists tenths,
       0 <= tenths /\
       format_size (Some n)
       = Ok (labelled (PyFloat.show_tenths tenths) (unit_of n)) /\
       In (unit_of n) UNITS /\
       (unit_of n = "B" <-> n < 1024) /\
       (1024 ^ 4 <= n -> unit_of n = "TB")) /\
  (forall n, FLOAT_LIMIT <= n -> format_size (Some n) = Raise OverflowError).
Proof.
  split; [reflexivity|]. split.
  - intros n [Hlo Hhi].
    destruct (unit_of_cases n) as (Hin & HB & HTB).
    destruct (Z.lt_ge_cases n 1024) as [Hsmall|Hbig].
    { exists (10 * n). split; [lia|]. split; [|auto].
      rewrite format_bytes by lia. f_equal. f_equal. symmetry. now apply HB. }
    destruct (Z.lt_ge_cases n (2 ^ 53)) as [Hexact|Hround].
    { destruct (format_exact n (conj Hbig Hexact)) as (x & Hx & Hfmt).
      exists (PyFloat.tenths x). split; [apply tenths_nonneg; lia|]. auto. }
    destruct (format_rounded n (conj Hround Hhi)) as (x & Hx & Hfmt).
    exists (PyFloat.tenths x). split; [now apply tenths_nonneg|].
    split; [|auto]. rewrite Hfmt. f_equal. f_equal. symmetry. apply HTB.
    assert (1024 ^ 4 <= 2 ^ 53) by (apply Z.leb_le; reflexivity). lia.
  - intros n Hn. unfold format_size. rewrite for_unit_int.
    assert (1024 < FLOAT_LIMIT) by reflexivity.
    destruct (Z.ltb_spec n 1024) as [|_]; [lia|].
    now rewrite truediv_overflows.
Qed.

(** 1536 bytes are 1.5 KB; [2^1034] bytes overflow. *)
Lemma format_size_within_float_range_witness :
  (exists tenths,
     format_size (Some 1536) = Ok (labelled (PyFloat.show_tenths tenths) "KB")) /\
  format_size (Some (2 ^ 1034)) = Raise OverflowError.
Proof.
  destruct format_size_within_float_range as (_ & Hin & Hout).
  split.
  - destruct (Hin 1536) as (t & _ & Hfmt & _); [split; [lia|reflexivity]|].
    exists t. exact Hfmt.
  - apply Hout. unfold FLOAT_LIMIT.
    assert (0 < 2 ^ 980) by reflexivity. lia.
Defined.

End Format.

(* ================================================================== *)
(** * More on the retention job                                      *)
(* ================================================================== *)

Module RetentionMore.

Import Cleanup Spec CleanupFacts CleanupMore Examples.

(** ** Credentials *)

Lemma complete_iff_none_missing e : complete e = negb (nonempty (missing e)).
Proof.
  unfold complete, missing.
  destruct (truthy (GOOGLE_TOKEN e)), (truthy (GOOGLE_REFRESH_TOKEN e)),
    (truthy (GOOGLE_CLIENT_ID e)), (truthy (GOOGLE_CLIENT_SECRET e)); reflexivity.
Qed.

(** X1: [get_credentials] succeeds exactly when all four required
    settings are present and non-empty and the token is valid or is
    expired and its refresh goes through; with a setting missing it raises
    the "missing" [ValueError] whatever the state of the token; it never
    touches the store. *)
Theorem credentials_resolve_iff w :
  (is_ok (fst (get_credentials w)) = true <->
   complete (env w) = true /\
   (creds_valid w = true \/ creds_expired w = true /\ refresh_ok w = true)) /\
  (complete (env w) = false ->
   fst (get_credentials w) = Raise (ValueError "Missing required credentials")) /\
  drive (snd (get_credentials w)) = drive w.
Proof.
  rewrite complete_iff_none_missing.
  assert (Hrt : nonempty (missing (env w)) = false ->
                truthy (GOOGLE_REFRESH_TOKEN (env w)) = true).
  { unfold missing.
    destruct (truthy (GOOGLE_TOKEN (env w))),
      (truthy (GOOGLE_REFRESH_TOKEN (env w))); simpl; congruence. }
  unfold get_credentials, bind, get, raise, ret, emit, modify. simpl.
  destruct (nonempty (missing (env w))) eqn:Hm; simpl.
  { split; [|split; [reflexivity|reflexivity]].
    split; [discriminate|]. intros [H _]; discriminate H. }
  rewrite (Hrt eq_refl), andb_true_r.
  destruct (creds_valid w), (creds_expired w), (refresh_ok w); simpl;
    (split; [|split; [discriminate|reflexivity]]);
    (split; [intros H; try discriminate H; auto|]);
    intros [_ [H|[H1 H2]]]; try discriminate; reflexivity.
Qed.

(** On [no_secret_world] the client secret is the empty string. *)
Lemma credentials_resolve_iff_witness :
  fst (get_credentials no_secret_world)
  = Raise (ValueError "Missing required credentials").
Proof.
  apply (proj1 (proj2 (credentials_resolve_iff no_secret_world))).
  reflexivity.
Defined.

(** ** What a run may delete *)

(** The ids deleted in any run are ids of eligible objects of the listing. *)
Lemma deleted_ok_of_run w r w' :
  cleanup_old_files w = (r, w') ->
  forall i, In i (deleted_ok (new_log (drive w) (drive w'))) ->
  exists g, In g (listing (drive w)) /\
            eligible (clock w (ticks w)) g = true /\ Drive.id g = i.
Proof.
  intros Hrun i Hi. apply cleanup_run in Hrun.
  destruct Hrun as [? ? Hlog ?| ? ? ? Hlog ?|? ? ? ? Hlog ? ?
                   |fid ? ? ? ? ? ? Hlog ?|fid now files ? ? ? ? ? ? Hlog ?
                   |fid pre f post e now ? ? ? ? ? Hlist ? ? Hlog ?];
    first [rewrite (Retention.new_log_nil _ _ Hlog) in Hi
          |rewrite (DriveFacts.new_log_app _ _ _ Hlog) in Hi];
    simpl in Hi; try contradiction.
  - rewrite deleted_ok_ok_deletes in Hi. apply in_map_iff in Hi.
    destruct Hi as (g & Hid & Hg). apply filter_In in Hg. destruct Hg as [Hg He].
    exists g. auto.
  - rewrite deleted_ok_app, deleted_ok_ok_deletes in Hi. simpl in Hi.
    rewrite app_nil_r in Hi. apply in_map_iff in Hi.
    destruct Hi as (g & Hid & Hg). apply filter_In in Hg. destruct Hg as [Hg He].
    exists g. split; [|auto]. rewrite Hlist. apply in_or_app. now left.
Qed.

(** X2: whatever happens in a run, the store afterwards holds only
    resources it held before, and every resource that is gone had the id
    of an object of the listing that was past the cutoff: where ids are
    distinct, objects outside the listing and objects within the
    retention window are never deleted. *)
Theorem sweep_deletes_only_eligible_listed w :
  let w' := snd (cleanup_old_files w) in
  let now := clock w (ticks w) in
  (forall f, In f (Drive.files (drive w')) -> In f (Drive.files (drive w))) /\
  (forall f, In f (Drive.files (drive w)) -> ~ In f (Drive.files (drive w')) ->
     exists g, In g (listing (drive w)) /\ eligible now g = true /\
               Drive.id g = Drive.id f).
Proof.
  cbv zeta. pose proof (steady_cleanup w) as [_ Hstore].
  destruct (cleanup_old_files w) as [r w'] eqn:Hrun. simpl in *.
  split.
  - intros f Hf. rewrite Hstore in Hf. now apply Retention.In_without in Hf.
  - intros f Hf Hgone.
    destruct (existsb (String.eqb (Drive.id f))
                (deleted_ok (new_log (drive w) (drive w')))) eqn:Hex.
    + apply existsb_exists in Hex. destruct Hex as (i & Hi & Heq).
      apply String.eqb_eq in Heq. subst i.
      exact (deleted_ok_of_run w r w' Hrun _ Hi).
    + exfalso. apply Hgone. rewrite Hstore. apply Retention.In_without. auto.
Qed.

(** The deletions of a completed run on a found folder: the eligible
    objects of the listing. *)
Lemma swept_ids w n w' fid :
  cleanup_old_files w = (Ok n, w') ->
  folder_of (drive w) = Some fid ->
  fid <> "" ->
  deleted_ok (new_log (drive w) (drive w'))
  = map Drive.id (filter (eligible (clock w (ticks w))) (listing (drive w))).
Proof.
  intros Hrun Hfolder Hne. apply cleanup_run in Hrun.
  destruct Hrun as [? Hr| ? ? Hr ? ?|? ? [Hnf|Hnf] Hr Hlog ? ?
                   |? ? ? ? ? ? Hr ? ?|? ? ? ? ? ? ? ? Hr Hlog ?
                   |? ? ? ? ? ? ? ? ? ? ? ? ? Hr ? ?];
    try discriminate Hr; try congruence.
  rewrite (DriveFacts.new_log_app _ _ _ Hlog), deleted_ok_app. simpl.
  apply deleted_ok_ok_deletes.
Qed.

(** X3: after a run that completes on a folder of at most a hundred
    objects, no object left in that folder is past the cutoff of the run. *)
Theorem completed_sweep_leaves_none_expired w deleted w' fid :
  cleanup_old_files w = (Ok deleted, w') ->
  folder_of (drive w) = Some fid ->
  fid <> "" ->
  (List.length (children fid (drive w)) <= 100)%nat ->
  forall f, In f (children fid (drive w')) ->
            eligible (clock w (ticks w)) f = false.
Proof.
  intros Hrun Hfolder Hne Hsmall f Hf.
  pose proof (steady_cleanup w) as [_ Hstore]. rewrite Hrun in Hstore.
  simpl in Hstore.
  apply Listing.In_children in Hf. destruct Hf as [Hin Hchild].
  rewrite Hstore in Hin. apply Retention.In_without in Hin.
  destruct Hin as [Hin Hkept].
  assert (Hlisted : In f (listing (drive w))).
  { unfold listing, first_page. rewrite Hfolder.
    destruct (String.eqb_spec fid ""); [contradiction|].
    rewrite firstn_all2 by exact Hsmall. apply Listing.In_children. auto. }
  destruct (eligible (clock w (ticks w)) f) eqn:Hel; [exfalso|reflexivity].
  pose proof (swept_ids w deleted w' fid Hrun Hfolder Hne) as Hall.
  rewrite Hall in Hkept.
  assert (Hyes : existsb (String.eqb (Drive.id f))
                   (map Drive.id (filter (eligible (clock w (ticks w)))
                                         (listing (drive w)))) = true).
  { apply Retention.id_among. exists f. split; [|reflexivity].
    now apply filter_In. }
  congruence.
Qed.

(** On [boundary_world] the folder holds four objects. *)
Lemma completed_sweep_leaves_none_expired_witness :
  Forall (fun f => eligible (clock boundary_world (ticks boundary_world)) f = false)
         (children "folder-1" (drive (snd (cleanup_old_files boundary_world)))).
Proof.
  assert (H : fst (cleanup_old_files boundary_world) = Ok 2)
    by (vm_compute; reflexivity).
  apply Forall_forall.
  apply (completed_sweep_leaves_none_expired boundary_world 2 _ "folder-1"
           (DriveFacts.pair_of_fst _ _ H)).
  - reflexivity.
  - discriminate.
  - vm_compute. lia.
Defined.

(** X4: a run requests no deletion unless the credentials resolved, a
    folder was found and the listing went through, in that order; with
    credentials that do not resolve it makes no request at all. *)
Theorem deletion_needs_all_preconditions w :
  let requests := new_log (drive w) (drive (snd (cleanup_old_files w))) in
  (is_ok (fst (get_credentials w)) = false -> requests = []) /\
  (forall i b, In (Drive.FilesDelete i, b) requests ->
     is_ok (fst (get_credentials w)) = true /\
     exists fid,
       folder_of (drive w) = Some fid /\
       firstn 2 requests = [(folder_lookup, true); (children_lookup fid, true)]).
Proof.
  cbv zeta. destruct (cleanup_old_files w) as [r w'] eqn:Hrun. simpl.
  apply cleanup_run in Hrun.
  unfold folder_lookup, children_lookup in *.
  destruct Hrun as [Hc ? Hlog ?| Hc ? ? Hlog ?|Hc ? ? ? Hlog ? ?
                   |fid Hc ? ? ? ? ? Hlog ?|fid now files Hc ? ? ? ? ? Hlog ?
                   |fid pre f post e now Hc ? ? ? ? ? ? ? Hlog ?];
    first [rewrite (Retention.new_log_nil _ _ Hlog)
          |rewrite (DriveFacts.new_log_app _ _ _ Hlog)];
    (split; [intros Hno; try reflexivity; congruence|]);
    intros i b Hin; simpl in Hin.
  - contradiction.
  - destruct Hin as [Hin|[]]; discriminate Hin.
  - destruct Hin as [Hin|[]]; discriminate Hin.
  - destruct Hin as [Hin|[Hin|[]]]; discriminate Hin.
  - split; [exact Hc|]. exists fid. auto.
  - split; [exact Hc|]. exists fid. auto.
Qed.

(** On [failing_world] the delete of [a] is requested. *)
Lemma deletion_needs_all_preconditions_witness :
  is_ok (fst (get_credentials failing_world)) = true /\
  exists fid, folder_of (drive failing_world) = Some fid.
Proof.
  destruct (proj2 (deletion_needs_all_preconditions failing_world) "a" true)
    as (Hc & fid & Hf & _).
  - vm_compute. right; right; left; reflexivity.
  - split; [exact Hc|]. exists fid. exact Hf.
Defined.

(** ** The ages a run reports *)

Lemma triple_bind {A B} (P : world -> Prop) (m : M world A) (k : A -> M world B)
    (Q : result A -> world -> Prop) (R : result B -> world -> Prop) :
  triple P m Q ->
  (forall a, triple (Q (Ok a)) (k a) R) ->
  (forall e w, Q (Raise e) w -> R (Raise e) w) ->
  triple P (bind m k) R.
Proof.
  intros Hm Hk He w HP. specialize (Hm w HP). unfold bind.
  destruct (m w) as [[a|e] w1]; simpl in *; [now apply Hk|now apply He].
Qed.

Lemma triple_weaken {A} (P P' : world -> Prop) (m : M world A) Q :
  (forall w, P' w -> P w) -> triple P m Q -> triple P' m Q.
Proof. intros HPP Hm w HP. apply Hm, HPP, HP. Qed.

Lemma deleting_ages_app l1 l2 :
  deleting_ages (l1 ++ l2) = deleting_ages l1 ++ deleting_ages l2.
Proof.
  induction l1 as [|x l1 IH]; [reflexivity|].
  destruct x; simpl; rewrite ?IH; reflexivity.
Qed.

(** A line that is not a DELETING line leaves the invariant alone. *)
Lemma aged_emit base c l :
  deleting_ages [l] = [] ->
  triple (aged base c) (emit l) (fun _ w => aged base c w).
Proof.
  intros Hl w (Hc & Hk & Hall). unfold emit, modify, aged. cbn [fst snd clock ticks out].
  repeat split; try assumption.
  rewrite deleting_ages_app, Hl, app_nil_r. exact Hall.
Qed.

Lemma aged_ret base c {A} (a : A) :
  triple (aged base c) (ret a) (fun _ w => aged base c w).
Proof. intros w H. exact H. Qed.

Lemma aged_raise base c {A} e :
  triple (aged base c) (@raise world A e) (fun _ w => aged base c w).
Proof. intros w H. exact H. Qed.

(** A store request changes neither the clock nor the lines. *)
Lemma aged_on_drive base c {A} (m : M Drive.t A) :
  triple (aged base c) (on_drive m) (fun _ w => aged base c w).
Proof.
  intros w H. unfold on_drive. destruct (m (drive w)) as [r d]. exact H.
Qed.

(** A reading of the clock is at least [base], and the invariant goes on
    for the readings after it. *)
Lemma aged_utcnow base c :
  triple (aged base c) utcnow
         (fun r w => aged base c w /\ forall now, r = Ok now -> base <= now).
Proof.
  intros w (Hc & Hk & Hall). unfold utcnow, aged. cbn [fst snd clock ticks out].
  split.
  - repeat split; try assumption. intros k.
    replace (k + S (ticks w))%nat with (S k + ticks w)%nat by lia. apply Hk.
  - intros now Hnow. inversion Hnow. rewrite Hc. apply (Hk 0%nat).
Qed.

(** Seven days and more than nothing make at least seven whole days. *)
Lemma days_of_past_cutoff now later modified :
  now <= later ->
  modified < now - timedelta_days MAX_AGE_DAYS ->
  MAX_AGE_DAYS <= days_of (later - modified).
Proof.
  unfold days_of, timedelta_days, MAX_AGE_DAYS. intros Hl Hm.
  apply Z.div_le_lower_bound; [reflexivity|]. lia.
Qed.

Lemma aged_for_files base c files : forall cutoff count,
  cutoff = base - timedelta_days MAX_AGE_DAYS ->
  triple (aged base c) (for_files files cutoff count) (fun _ w => aged base c w).
Proof.
  induction files as [|file rest IH]; intros cutoff count Hcut; simpl.
  - apply aged_ret.
  - destruct (Z.ltb_spec (Drive.modifiedTime file) cutoff) as [Hold|Hnew].
    + eapply triple_bind; [apply aged_utcnow| |intros e w [H _]; exact H].
      intros now. eapply triple_bind with (Q := fun _ w => aged base c w).
      * intros w [(Hc & Hk & Hall) Hnow]. unfold emit, modify, aged.
        cbn [fst snd clock ticks out].
        repeat split; try assumption.
        rewrite deleting_ages_app. apply Forall_app. split; [exact Hall|].
        simpl. constructor; [|constructor].
        apply (days_of_past_cutoff base); [now apply Hnow|]. now subst cutoff.
      * intros _. eapply triple_bind with (Q := fun _ w => aged base c w);
          [|intros _; now apply IH|auto].
        unfold delete_file.
        eapply triple_bind with (Q := fun _ w => aged base c w);
          [apply aged_on_drive|intros _; now apply aged_emit|auto].
      * auto.
    + eapply triple_bind; [apply aged_utcnow| |intros e w [H _]; exact H].
      intros now. eapply triple_bind with (Q := fun _ w => aged base c w).
      * intros w [H _]. revert w H. now apply aged_emit.
      * intros _. now apply IH.
      * auto.
Qed.

Lemma calm_ret {A} (a : A) : calm (ret a).
Proof. intros w. auto. Qed.

Lemma calm_raise {A} e : calm (@raise world A e).
Proof. intros w. auto. Qed.

Lemma calm_get : calm (@get world).
Proof. intros w. auto. Qed.

Lemma calm_emit l : deleting_ages [l] = [] -> calm (emit l).
Proof.
  intros Hl w. unfold emit, modify. cbn [fst snd clock ticks out].
  rewrite deleting_ages_app, Hl, app_nil_r. auto.
Qed.

Lemma calm_on_drive {A} (m : M Drive.t A) : calm (on_drive m).
Proof. intros w. unfold on_drive. destruct (m (drive w)). auto. Qed.

Lemma calm_bind {A B} (m : M world A) (k : A -> M world B) :
  calm m -> (forall a, calm (k a)) -> calm (bind m k).
Proof.
  intros Hm Hk w. unfold bind. destruct (Hm w) as (Hc & Ht & Ho).
  destruct (m w) as [[a|e] w1]; simpl in *; [|auto].
  destruct (Hk a w1) as (Hc' & Ht' & Ho'). repeat split; congruence.
Qed.

Lemma calm_get_credentials : calm get_credentials.
Proof.
  unfold get_credentials. apply calm_bind; [apply calm_get|]. intros w.
  destruct (nonempty (missing (env w))); [apply calm_raise|].
  destruct (negb (creds_valid w)); [|apply calm_ret].
  destruct (creds_expired w && truthy (GOOGLE_REFRESH_TOKEN (env w)));
    [|apply calm_raise].
  apply calm_bind; [now apply calm_emit|]. intros _.
  apply calm_bind; [|intros _; now apply calm_emit].
  destruct (refresh_ok w); [apply calm_ret|apply calm_raise].
Qed.

Lemma calm_get_folder_id : calm get_folder_id.
Proof.
  unfold get_folder_id. apply calm_bind; [apply calm_on_drive|].
  intros [|f fs]; [|apply calm_ret].
  apply calm_bind; [now apply calm_emit|]. intros _. apply calm_ret.
Qed.

Lemma fresh_calm base c {A} (m : M world A) :
  calm m -> triple (fresh base c) m (fun _ w => fresh base c w).
Proof.
  intros Hm w [(Hc & Hk & Hall) Hb]. destruct (Hm w) as (Hc' & Ht' & Ho').
  unfold fresh, aged. rewrite Hc', Ht', Ho'. auto.
Qed.

(** X5: when the clock never shows a time earlier than the reading the
    cutoff is computed from, every DELETING line of a run reports an age of
    at least [MAX_AGE_DAYS] whole days, although the age is computed from a
    later reading than the one that decided the deletion. *)
Theorem deleting_lines_report_full_age w :
  never_earlier w ->
  Forall (fun a => MAX_AGE_DAYS <= a) (deleting_ages (out w)) ->
  Forall (fun a => MAX_AGE_DAYS <= a)
         (deleting_ages (out (snd (cleanup_old_files w)))).
Proof.
  intros Hclock Hout.
  set (base := clock w (ticks w)). set (c := clock w).
  assert (Hstart : fresh base c w) by (repeat split; auto).
  assert (Hrun : triple (fresh base c) cleanup_old_files
                        (fun _ w' => aged base c w')).
  { unfold cleanup_old_files, get_drive_service.
    eapply triple_bind with (Q := fun _ w => fresh base c w);
      [apply fresh_calm; now apply calm_emit| |intros e w0 []; auto].
    intros _. eapply triple_bind with (Q := fun _ w => fresh base c w);
      [apply fresh_calm; now apply calm_emit| |intros e w0 []; auto].
    intros _. eapply triple_bind with (Q := fun _ w => fresh base c w);
      [apply fresh_calm, calm_get_credentials| |intros e w0 []; auto].
    intros _. eapply triple_bind with (Q := fun _ w => fresh base c w);
      [apply fresh_calm, calm_get_folder_id| |intros e w0 []; auto].
    intros folder_id. destruct (negb (truthy folder_id)).
    { eapply triple_bind with (Q := fun _ w => fresh base c w);
        [apply fresh_calm; now apply calm_emit| |intros e w0 []; auto].
      intros _ w0 []; auto. }
    eapply triple_bind with (Q := fun _ w => fresh base c w);
      [apply fresh_calm, calm_on_drive| |intros e w0 []; auto].
    intros files. eapply triple_bind with (Q := fun _ w => fresh base c w);
      [apply fresh_calm; now apply calm_emit| |intros e w0 []; auto].
    intros _.
    eapply triple_bind
      with (Q := fun r w => aged base c w /\ forall now, r = Ok now -> now = base).
    - intros w0 [Hag Hb]. destruct (aged_utcnow base c w0 Hag) as [Hag' _].
      split; [exact Hag'|]. intros now Hnow. inversion Hnow.
      destruct Hag as (Hc & _). rewrite Hc. exact Hb.
    - intros now.
      eapply triple_bind with (Q := fun _ w => aged base c w /\ now = base).
      + intros w0 [Hag Hnow]. split; [|now apply Hnow].
        revert w0 Hag. now apply aged_emit.
      + intros _.
        eapply triple_bind with (Q := fun _ w => aged base c w).
        * intros w0 [Hag ->]. revert w0 Hag. now apply aged_for_files.
        * intros n. eapply triple_bind with (Q := fun _ w => aged base c w);
            [now apply aged_emit|intros _; apply aged_ret|auto].
        * auto.
      + intros e w0 []; auto.
    - intros e w0 []; auto. }
  destruct (Hrun w Hstart) as (_ & _ & Hall). exact Hall.
Qed.

(** On [slow_world] every reading after the first is a day later. *)
Lemma deleting_lines_report_full_age_witness :
  Forall (fun a => MAX_AGE_DAYS <= a)
         (deleting_ages (out (snd (cleanup_old_files slow_world)))).
Proof.
  apply deleting_lines_report_full_age.
  - intros k. unfold slow_world. cbn [clock ticks]. rewrite Nat.add_0_r.
    destruct k; unfold DAY; lia.
  - constructor.
Defined.

(** ** What the reported count counts *)

Lemma without_absent i fs :
  ~ In i (map Drive.id fs) -> without [i] fs = fs.
Proof.
  unfold without. induction fs as [|g fs IH]; simpl; intros Hn; [reflexivity|].
  destruct (String.eqb_spec (Drive.id g) i); [tauto|].
  simpl. f_equal. apply IH. tauto.
Qed.

Lemma without_one i fs :
  NoDup (map Drive.id fs) -> In i (map Drive.id fs) ->
  S (List.length (without [i] fs)) = List.length fs.
Proof.
  induction fs as [|f fs IH]; simpl; intros Hnd Hin; [tauto|].
  inversion Hnd as [|? ? Hnot Hrest]. unfold without in *. simpl.
  destruct (String.eqb_spec (Drive.id f) i) as [Heq|Hne]; simpl.
  - f_equal. rewrite Heq in Hnot.
    pose proof (without_absent i fs Hnot) as Habs. unfold without in Habs.
    simpl in Habs. now rewrite Habs.
  - f_equal. apply IH; [exact Hrest|]. destruct Hin; [contradiction|assumption].
Qed.

Lemma without_length ids : forall fs,
  NoDup (map Drive.id fs) -> NoDup ids ->
  (forall i, In i ids -> In i (map Drive.id fs)) ->
  (List.length (without ids fs) + List.length ids = List.length fs)%nat.
Proof.
  induction ids as [|i ids IH]; intros fs Hfs Hids Hin.
  - rewrite without_nil. simpl. lia.
  - change (i :: ids) with ([i] ++ ids). rewrite without_app.
    inversion Hids as [|? ? Hi Hrest].
    pose proof (without_one i fs Hfs (Hin i (or_introl eq_refl))) as Hone.
    rewrite length_app. simpl.
    rewrite Nat.add_succ_r, IH; [lia| | |].
    + now apply Listing.NoDup_map_filter.
    + exact Hrest.
    + intros j Hj. specialize (Hin j (or_intror Hj)).
      apply in_map_iff in Hin. destruct Hin as (f & Hf & Hin).
      apply in_map_iff. exists f. split; [exact Hf|].
      apply filter_In. split; [exact Hin|]. simpl.
      destruct (String.eqb_spec (Drive.id f) i); [|reflexivity].
      exfalso. apply Hi. congruence.
Qed.

(** X6: when the store's ids are distinct, the count a completed run
    returns is the number of resources the store lost, and the number of
    objects the run logged as marked for deletion. *)
Theorem returned_count_is_what_was_removed w n w' :
  cleanup_old_files w = (Ok n, w') ->
  NoDup (map Drive.id (Drive.files (drive w))) ->
  Z.of_nat (List.length (Drive.files (drive w'))) + n
  = Z.of_nat (List.length (Drive.files (drive w))) /\
  exists marks,
    decisions (out w') = decisions (out w) ++ marks /\
    n = Z.of_nat (List.length (filter snd marks)).
Proof.
  intros Hrun Hnd.
  pose proof (steady_cleanup w) as [_ Hstore]. rewrite Hrun in Hstore.
  simpl in Hstore.
  apply cleanup_run in Hrun.
  destruct Hrun as [? Hr| ? ? Hr ? ?|? ? [Hnf|Hnf] Hr Hlog Hfiles Hdec
                   |? ? ? ? ? ? Hr ? ?|fid now files ? ? ? ? ? Hr Hlog Hdec
                   |? ? ? ? ? ? ? ? ? ? ? ? ? Hr ? ?];
    try discriminate Hr.
  - injection Hr as ->. split; [rewrite Hfiles; lia|].
    exists []. rewrite app_nil_r. auto.
  - injection Hr as ->. split; [rewrite Hfiles; lia|].
    exists []. rewrite app_nil_r. auto.
  - injection Hr as ->. split.
    + rewrite (DriveFacts.new_log_app _ _ _ Hlog), deleted_ok_app in Hstore.
      simpl in Hstore. rewrite deleted_ok_ok_deletes in Hstore.
      pose proof (without_length
                    (map Drive.id (filter (eligible now) files))
                    (Drive.files (drive w)) Hnd) as Hlen.
      rewrite <- Hstore, length_map in Hlen. rewrite <- Hlen; [lia| |].
      * apply Listing.NoDup_map_filter, Listing.listing_ids_distinct, Hnd.
      * intros i Hi. apply in_map_iff in Hi. destruct Hi as (f & <- & Hf).
        apply filter_In in Hf. apply in_map, Listing.listing_in_files, Hf.
    + exists (map (fun f => (Drive.name f, eligible now f)) files).
      split; [exact Hdec|]. f_equal.
      clear. induction files as [|f fs IH]; simpl; [reflexivity|].
      destruct (eligible now f); simpl; congruence.
Qed.

(** On [boundary_world] two of the five resources go. *)
Lemma returned_count_is_what_was_removed_witness :
  Z.of_nat (List.length (Drive.files (drive (snd (cleanup_old_files boundary_world))))) + 2
  = 5.
Proof.
  assert (H : fst (cleanup_old_files boundary_world) = Ok 2)
    by (vm_compute; reflexivity).
  apply (returned_count_is_what_was_removed boundary_world 2 _
           (DriveFacts.pair_of_fst _ _ H)).
  unfold boundary_world, world_of, store, boundary_files.
  cbn [drive Drive.files map Drive.id folder doc].
  repeat (constructor; [simpl; intuition discriminate|]). constructor.
Defined.

End RetentionMore.

(* ================================================================== *)
(** * One page of a listing                                          *)
(* ================================================================== *)

Module Pages.

Import Cleanup Spec CleanupFacts CleanupMore AppMore Examples.

(** ** One page of a sorted result *)

Lemma in_order_trans o a b c : in_order o a b -> in_order o b c -> in_order o a c.
Proof.
  unfold in_order, Drive.le_by. destruct o; rewrite !Z.leb_le; lia.
Qed.

Lemma in_order_total o a b : Drive.le_by o a b = false -> in_order o b a.
Proof.
  unfold in_order, Drive.le_by. destruct o; rewrite Z.leb_gt, Z.leb_le; lia.
Qed.

Lemma insert_by_in_order o x l :
  StronglySorted (in_order o) l ->
  StronglySorted (in_order o) (Drive.insert_by o x l).
Proof.
  induction 1 as [|a l Hl IH Ha]; simpl.
  - constructor; constructor.
  - destruct (Drive.le_by o x a) eqn:Hxa.
    + constructor; [constructor; assumption|].
      constructor; [exact Hxa|].
      rewrite Forall_forall in *. intros b Hb.
      apply in_order_trans with a; [exact Hxa|auto].
    + constructor; [exact IH|].
      rewrite Forall_forall in *. intros b Hb.
      apply (Permutation_in _ (Listing.insert_by_perm o x l)) in Hb.
      destruct Hb as [<-|Hb]; [now apply in_order_total|auto].
Qed.

Lemma sort_by_in_order o l : StronglySorted (in_order o) (Drive.sort_by o l).
Proof.
  induction l; simpl; [constructor|now apply insert_by_in_order].
Qed.

Lemma sorted_firstn_skipn {A} (R : A -> A -> Prop) n : forall l,
  StronglySorted R l ->
  forall x y, In x (firstn n l) -> In y (skipn n l) -> R x y.
Proof.
  induction n as [|n IH]; intros l Hl x y Hx Hy; [destruct Hx|].
  destruct l as [|a l]; [destruct Hx|].
  inversion Hl as [|? ? Hl' Ha]. simpl in Hx, Hy. destruct Hx as [<-|Hx].
  - rewrite Forall_forall in Ha. apply Ha.
    rewrite <- (firstn_skipn n l). apply in_or_app. now right.
  - now apply (IH l).
Qed.

Lemma beyond_the_page {A} n (l : list A) y :
  In y l -> ~ In y (firstn n l) -> In y (skipn n l).
Proof.
  intros Hy Hn. rewrite <- (firstn_skipn n l) in Hy.
  apply in_app_or in Hy. tauto.
Qed.

(** X7: the one page the job lists holds the oldest objects of the
    folder: an object of the folder that is left out is never older than a
    listed one, so if any object past the cutoff is left out, every listed
    object is past the cutoff as well. *)
Theorem page_holds_the_oldest fid w :
  next_fault w 0 = false ->
  exists listed,
    fst (list_files fid w) = Ok listed /\
    (forall f g, In f listed ->
       In g (Drive.files (drive w)) -> child_of fid g -> ~ In g listed ->
       older f g) /\
    (forall now g,
       In g (Drive.files (drive w)) -> child_of fid g -> ~ In g listed ->
       eligible now g = true ->
       List.length listed = 100%nat /\
       forall f, In f listed -> eligible now f = true).
Proof.
  intros Hok. exists (first_page fid (drive w)).
  assert (Hold : forall f g, In f (first_page fid (drive w)) ->
            In g (Drive.files (drive w)) -> child_of fid g ->
            ~ In g (first_page fid (drive w)) -> older f g).
  { intros f g Hf Hg Hchild Hout.
    apply (sorted_firstn_skipn older 100 (children fid (drive w))).
    - apply Listing.sort_by_sorted.
    - exact Hf.
    - apply beyond_the_page; [|exact Hout].
      apply Listing.In_children. auto. }
  split; [|split].
  - rewrite list_files_run. cbv zeta. unfold next_fault in Hok. simpl in Hok.
    rewrite Hok. reflexivity.
  - exact Hold.
  - intros now g Hg Hchild Hout Hel. split.
    + unfold first_page in *.
      destruct (Nat.le_gt_cases (List.length (children fid (drive w))) 100)
        as [Hsmall|Hbig].
      * exfalso. apply Hout. rewrite firstn_all2 by exact Hsmall.
        apply Listing.In_children. auto.
      * rewrite length_firstn. lia.
    + intros f Hf. pose proof (Hold f g Hf Hg Hchild Hout) as Hfg.
      unfold eligible, age, older in *. rewrite Z.ltb_lt in *. lia.
Qed.

Lemma page_holds_the_oldest_witness :
  exists listed,
    fst (list_files "folder-1" crowded_world) = Ok listed /\
    List.length listed = 100%nat /\
    forall f, In f listed -> eligible today f = true.
Proof.
  destruct (page_holds_the_oldest "folder-1" crowded_world eq_refl)
    as (listed & Hrun & _ & Hall).
  exists listed. split; [exact Hrun|].
  assert (Hlisted : listed = first_page "folder-1" (drive crowded_world)).
  { pose proof (proj1 Listing.crowded_listing) as H. congruence. }
  apply (Hall today (doc "100" (today - 30 * DAY + 100))).
  - unfold crowded_world, world_of, store. cbn [drive Drive.files].
    right. unfold crowd. apply in_map_iff. exists 100%nat.
    split; [reflexivity|]. apply in_seq. lia.
  - split; [reflexivity|]. simpl. now left.
  - intros Hin. rewrite Hlisted in Hin.
    pose proof (proj2 (proj2 (proj2 (proj2 Listing.crowded_listing)))) as Hno.
    assert (Hyes : existsb (Drive.has_id "100")
                     (first_page "folder-1" (drive crowded_world)) = true).
    { apply existsb_exists. eexists. split; [exact Hin|reflexivity]. }
    congruence.
  - unfold eligible, age, max_age, timedelta_days, MAX_AGE_DAYS, today, DAY.
    cbn [Drive.modifiedTime doc]. apply Z.ltb_lt. lia.
Defined.

(** ** The page the session shows *)

Lemma sorted_weaken {A} (P Q : A -> A -> Prop) l :
  (forall a b, P a b -> Q a b) -> StronglySorted P l -> StronglySorted Q l.
Proof.
  intros HPQ. induction 1 as [|a l Hl IH Ha]; constructor; [exact IH|].
  rewrite Forall_forall in *. auto.
Qed.

Lemma sort_by_newest_first l :
  StronglySorted newer (Drive.sort_by Drive.ModifiedTimeDesc l).
Proof.
  apply sorted_weaken with (P := in_order Drive.ModifiedTimeDesc).
  - intros a b. unfold in_order, newer. simpl. apply Z.leb_le.
  - apply sort_by_in_order.
Qed.

Lemma In_shown fid d f :
  In f (Drive.result_set (App.children_query fid) (Some Drive.ModifiedTimeDesc) d)
  <-> In f (Drive.files d) /\ child_of fid f.
Proof.
  unfold Drive.result_set, Drive.ordered. split.
  - intros H. apply (Permutation_in _ (Listing.sort_by_perm _ _)) in H.
    apply filter_In in H. destruct H as [Hin Hm].
    split; [exact Hin|]. now apply Listing.matches_children.
  - intros [Hin Hc].
    apply (Permutation_in _ (Permutation_sym (Listing.sort_by_perm _ _))).
    apply filter_In. split; [exact Hin|]. now apply Listing.matches_children.
Qed.

(** X8: when its request goes through, [list_files] of the session
    returns at most a hundred objects of the folder, newest first, and
    leaves the store as it is; an object of the folder is left out only
    when a hundred are listed, and then it is not newer than any of them. *)
Theorem session_lists_the_newest fid d :
  Drive.fault d (List.length (Drive.log d)) = false ->
  exists listed,
    fst (App.list_files fid d) = Ok listed /\
    Drive.files (snd (App.list_files fid d)) = Drive.files d /\
    (List.length listed <= 100)%nat /\
    StronglySorted newer listed /\
    (forall f, In f listed -> In f (Drive.files d) /\ child_of fid f) /\
    (forall g, In g (Drive.files d) -> child_of fid g -> ~ In g listed ->
       List.length listed = 100%nat /\
       forall f, In f listed -> newer f g).
Proof.
  intros Hok.
  set (all := Drive.result_set (App.children_query fid)
                               (Some Drive.ModifiedTimeDesc) d).
  assert (Hsorted : StronglySorted newer all) by apply sort_by_newest_first.
  exists (firstn 100 all).
  unfold App.list_files. rewrite DriveFacts.files_list_run, Hok.
  cbn [fst snd Drive.page_limit Drive.files Drive.with_log Nat.min].
  fold all.
  refine (conj eq_refl (conj eq_refl (conj _ (conj _ (conj _ _))))).
  - rewrite length_firstn. lia.
  - now apply Listing.firstn_sorted.
  - intros f Hf. apply In_shown. eapply Listing.In_firstn, Hf.
  - intros g Hg Hchild Hout.
    assert (Hall : In g all) by (apply In_shown; auto).
    split.
    + destruct (Nat.le_gt_cases (List.length all) 100) as [Hsmall|Hbig].
      * exfalso. apply Hout. now rewrite firstn_all2.
      * rewrite length_firstn. lia.
    + intros f Hf. apply (sorted_firstn_skipn newer 100 all Hsorted f g Hf).
      now apply beyond_the_page.
Qed.

Lemma session_lists_the_newest_witness :
  exists listed,
    fst (App.list_files "folder-1" (drive crowded_world)) = Ok listed /\
    (List.length listed <= 100)%nat.
Proof.
  destruct (session_lists_the_newest "folder-1" (drive crowded_world) eq_refl)
    as (listed & Hrun & _ & Hlen & _).
  exists listed. auto.
Defined.

End Pages.

(* ================================================================== *)
(** * Upload, download and delete together                           *)
(* ================================================================== *)

Module Transfer.

Import App AppSpec AppMore Examples.

(** ** Upload, then download *)

Lemma find_appended i fs f :
  existsb (Drive.has_id i) fs = false -> Drive.has_id i f = true ->
  find (Drive.has_id i) (fs ++ [f]) = Some f.
Proof.
  induction fs as [|g fs IH]; simpl; intros Hno Hf.
  - now rewrite Hf.
  - apply orb_false_elim in Hno. destruct Hno as [Hg Hno].
    rewrite Hg. auto.
Qed.

Lemma quiet_first d : quiet d -> Drive.fault d (List.length (Drive.log d)) = false.
Proof. intros Hq. apply (Hq 0%nat). Qed.

Lemma quiet_after d fs r b :
  quiet d ->
  quiet (Drive.with_log (Drive.with_files d fs) (Drive.log d ++ [(r, b)])).
Proof.
  intros Hq n. cbn [Drive.fault Drive.log Drive.with_log Drive.with_files].
  rewrite length_app. simpl.
  replace (n + (List.length (Drive.log d) + 1))%nat
    with (S n + List.length (Drive.log d))%nat by lia.
  apply Hq.
Qed.

Lemma upload_file_quiet fid name bytes mime d :
  quiet d ->
  let f := Drive.created d (Drive.mkBody name None [fid])
                         (Some (Drive.mkMedia mime bytes)) in
  let d1 := snd (upload_file fid name bytes mime d) in
  upload_file fid name bytes mime d = (Ok f, d1) /\
  Drive.files d1 = Drive.files d ++ [f] /\
  quiet d1.
Proof.
  intros Hq f d1. unfold d1, upload_file.
  rewrite DriveFacts.files_create_run, (quiet_first d Hq). cbn [snd].
  split; [reflexivity|]. split; [reflexivity|]. now apply quiet_after.
Qed.

(** X9: what [upload_file] stores, [download_file] gives back: on a
    store that answers and assigns an id not in use, the upload adds one
    object with the given name under the given folder, and downloading the
    id it returns yields exactly the uploaded bytes, read from the start,
    leaving the store's resources as the upload left them. *)
Theorem upload_then_download fid name bytes mime d fuel :
  quiet d ->
  next_id_unused d ->
  (S (List.length bytes) <= fuel)%nat ->
  exists f d1 d2,
    upload_file fid name bytes mime d = (Ok f, d1) /\
    Drive.files d1 = Drive.files d ++ [f] /\
    Drive.name f = name /\ Drive.parents f = [fid] /\
    Drive.size f = Some (Z.of_nat (List.length bytes)) /\
    download_file fuel (Drive.id f) d1 = Some (Ok (Io.mkBytesIO bytes 0), d2) /\
    Io.read (Io.mkBytesIO bytes 0) = bytes /\
    Drive.files d2 = Drive.files d1.
Proof.
  intros Hq Hnew Hfuel.
  destruct (upload_file_quiet fid name bytes mime d Hq) as (Hrun & Hfiles & Hq1).
  set (f := Drive.created d (Drive.mkBody name None [fid])
                          (Some (Drive.mkMedia mime bytes))) in *.
  set (d1 := snd (upload_file fid name bytes mime d)) in *.
  assert (Hfind : find (Drive.has_id (Drive.id f)) (Drive.files d1) = Some f).
  { rewrite Hfiles. apply find_appended; [exact Hnew|].
    unfold Drive.has_id. apply String.eqb_refl. }
  destruct (Download.download_file_returns_content d1 (Drive.id f) f fuel
              Hq1 Hfind Hfuel) as (d2 & Hdl & Hread & Hsame).
  exists f, d1, d2. repeat split; try assumption; reflexivity.
Qed.

Lemma upload_then_download_witness :
  exists f d1 d2,
    upload_file "folder-1" "hello.txt" [x68; x69]%byte "text/plain" hello_store
    = (Ok f, d1) /\
    download_file 3 (Drive.id f) d1
    = Some (Ok (Io.mkBytesIO [x68; x69]%byte 0), d2).
Proof.
  destruct (upload_then_download "folder-1" "hello.txt" [x68; x69]%byte
              "text/plain" hello_store 3)
    as (f & d1 & d2 & Hup & _ & _ & _ & _ & Hdl & _).
  - intros n. reflexivity.
  - vm_compute. reflexivity.
  - simpl. lia.
  - exists f, d1, d2. auto.
Defined.

(** X10: an uploaded file shows in the next listing of its folder, as
    long as the folder held fewer than a hundred objects. *)
Theorem uploaded_file_is_listed fid name bytes mime d :
  quiet d ->
  (List.length (filter (Drive.matches (children_query fid)) (Drive.files d)) < 100)%nat ->
  exists f d1 listed,
    upload_file fid name bytes mime d = (Ok f, d1) /\
    fst (list_files fid d1) = Ok listed /\
    In f listed.
Proof.
  intros Hq Hroom.
  destruct (upload_file_quiet fid name bytes mime d Hq) as (Hrun & Hfiles & Hq1).
  set (f := Drive.created d (Drive.mkBody name None [fid])
                          (Some (Drive.mkMedia mime bytes))) in *.
  set (d1 := snd (upload_file fid name bytes mime d)) in *.
  exists f, d1. eexists. split; [exact Hrun|].
  unfold list_files. rewrite DriveFacts.files_list_run, (quiet_first d1 Hq1).
  split; [reflexivity|].
  cbn [Drive.page_limit Nat.min].
  rewrite firstn_all2.
  - apply Pages.In_shown. rewrite Hfiles. split.
    + apply in_or_app. right. now left.
    + split; [reflexivity|]. simpl. now left.
  - unfold Drive.result_set, Drive.ordered.
    rewrite (Permutation_length (Listing.sort_by_perm _ _)), Hfiles, filter_app,
      length_app.
    change (Nat.min 100 1000) with 100%nat.
    cbn [filter]. destruct (Drive.matches (children_query fid) f); simpl; lia.
Qed.

Lemma uploaded_file_is_listed_witness :
  exists f d1 listed,
    upload_file "folder-1" "hello.txt" [x68; x69]%byte "text/plain" hello_store
    = (Ok f, d1) /\
    fst (list_files "folder-1" d1) = Ok listed /\
    In f listed.
Proof.
  apply uploaded_file_is_listed.
  - intros n. reflexivity.
  - vm_compute. lia.
Defined.

(** ** Delete *)

Lemma delete_run i d :
  delete_file i d =
  let r := Drive.FilesDelete i in
  if Drive.fault d (List.length (Drive.log d)) then
    (Raise (HttpError 503), Drive.with_log d (Drive.log d ++ [(r, false)]))
  else if existsb (Drive.has_id i) (Drive.files d) then
    (Ok tt,
     Drive.with_log
       (Drive.with_files d (filter (fun f => negb (Drive.has_id i f)) (Drive.files d)))
       (Drive.log d ++ [(r, true)]))
  else (Raise (HttpError 404), Drive.with_log d (Drive.log d ++ [(r, false)])).
Proof.
  unfold delete_file, Drive.files_delete, Drive.call. cbv zeta.
  destruct (Drive.fault d (List.length (Drive.log d))); [reflexivity|].
  destruct (existsb (Drive.has_id i) (Drive.files d)); reflexivity.
Qed.

Lemma gone_after_filter i fs :
  existsb (Drive.has_id i) (filter (fun f => negb (Drive.has_id i f)) fs) = false.
Proof.
  induction fs as [|f fs IH]; simpl; [reflexivity|].
  destruct (Drive.has_id i f) eqn:Hf; simpl; [exact IH|].
  now rewrite Hf.
Qed.

Lemma find_absent i fs :
  existsb (Drive.has_id i) fs = false -> find (Drive.has_id i) fs = None.
Proof.
  induction fs as [|f fs IH]; simpl; [reflexivity|].
  destruct (Drive.has_id i f); simpl; [discriminate|exact IH].
Qed.

(** One call on an id the store does not hold: status 404 is raised. *)
Lemma next_chunk_missing d i k p :
  Drive.fault d (List.length (Drive.log d)) = false ->
  find (Drive.has_id i) (Drive.files d) = None ->
  next_chunk (d, mkDownloader i k p)
  = (Raise (HttpError 404),
     (Drive.with_log d (Drive.log d ++ [(Drive.FilesGetMedia i p k, false)]),
      mkDownloader i k p)).
Proof.
  intros Hf Hfind.
  unfold next_chunk, Drive.files_get_media, Drive.serve_media.
  cbn [dl_file dl_progress dl_chunksize]. rewrite Hf, Hfind. reflexivity.
Qed.

(** One call that the transport fails: status 503 is raised. *)
Lemma next_chunk_fault d i k p :
  Drive.fault d (List.length (Drive.log d)) = true ->
  next_chunk (d, mkDownloader i k p)
  = (Raise (HttpError 503),
     (Drive.with_log d (Drive.log d ++ [(Drive.FilesGetMedia i p k, false)]),
      mkDownloader i k p)).
Proof.
  intros Hf.
  unfold next_chunk, Drive.files_get_media.
  cbn [dl_file dl_progress dl_chunksize]. rewrite Hf. reflexivity.
Qed.

(** X11: on a store that answers, deleting an object it holds succeeds
    and removes the resources with that id and no other; after that a
    second delete of the id raises 404 and changes nothing, and a download
    of the id raises 404 on its first request. *)
Theorem deleted_object_is_gone i d :
  quiet d ->
  existsb (Drive.has_id i) (Drive.files d) = true ->
  let d1 := snd (delete_file i d) in
  fst (delete_file i d) = Ok tt /\
  (forall f, In f (Drive.files d1) <-> In f (Drive.files d) /\ Drive.id f <> i) /\
  fst (delete_file i d1) = Raise (HttpError 404) /\
  Drive.files (snd (delete_file i d1)) = Drive.files d1 /\
  (forall fuel, exists d2,
     download_file (S fuel) i d1 = Some (Raise (HttpError 404), d2) /\
     Spec.new_log d1 d2 = [(Drive.FilesGetMedia i 0 DEFAULT_CHUNK_SIZE, false)]).
Proof.
  intros Hq Hin d1.
  assert (Hrun : delete_file i d
                 = (Ok tt,
                    Drive.with_log
                      (Drive.with_files d
                         (filter (fun f => negb (Drive.has_id i f)) (Drive.files d)))
                      (Drive.log d ++ [(Drive.FilesDelete i, true)]))).
  { rewrite delete_run. cbv zeta. now rewrite (quiet_first d Hq), Hin. }
  assert (Hq1 : quiet d1) by (unfold d1; rewrite Hrun; now apply quiet_after).
  assert (Hfiles : Drive.files d1
                   = filter (fun f => negb (Drive.has_id i f)) (Drive.files d))
    by (unfold d1; now rewrite Hrun).
  assert (Hgone : existsb (Drive.has_id i) (Drive.files d1) = false)
    by (rewrite Hfiles; apply gone_after_filter).
  assert (Hagain : delete_file i d1
                   = (Raise (HttpError 404),
                      Drive.with_log d1 (Drive.log d1 ++ [(Drive.FilesDelete i, false)]))).
  { rewrite delete_run. cbv zeta. now rewrite (quiet_first d1 Hq1), Hgone. }
  refine (conj _ (conj _ (conj _ (conj _ _)))).
  - now rewrite Hrun.
  - intros f. rewrite Hfiles, filter_In. unfold Drive.has_id.
    destruct (String.eqb_spec (Drive.id f) i); simpl; intuition congruence.
  - now rewrite Hagain.
  - now rewrite Hagain.
  - intros fuel. eexists.
    unfold download_file, download_file_with, download_loop.
    cbn [while_not_done].
    rewrite (next_chunk_missing d1 i DEFAULT_CHUNK_SIZE 0 (quiet_first d1 Hq1)
               (find_absent _ _ Hgone)).
    split; [reflexivity|]. now apply DriveFacts.new_log_app.
Qed.

Lemma deleted_object_is_gone_witness :
  fst (delete_file "obj-1" hello_store) = Ok tt /\
  fst (delete_file "obj-1" (snd (delete_file "obj-1" hello_store)))
  = Raise (HttpError 404).
Proof.
  destruct (deleted_object_is_gone "obj-1" hello_store) as (H1 & _ & H2 & _).
  - intros n. reflexivity.
  - reflexivity.
  - auto.
Defined.

(** ** Download on a store that may fail *)

(** From any position inside the object, the loop ends within as many
    requests as bytes remain: with the rest of the content, or on the
    first request the transport fails. *)
Lemma loop_from i k f : (0 < k)%nat ->
  forall m p d data fuel,
    (List.length (Drive.content f) - p <= m)%nat ->
    (p < List.length (Drive.content f))%nat ->
    (m <= fuel)%nat ->
    find (Drive.has_id i) (Drive.files d) = Some f ->
    exists r s' l,
      while_not_done _ next_chunk fuel (d, mkDownloader i k p)
                     (Io.mkBytesIO data (List.length data)) = Some (r, s') /\
      Drive.files (fst s') = Drive.files d /\
      Drive.fault (fst s') = Drive.fault d /\
      Drive.log (fst s') = Drive.log d ++ l /\
      (1 <= List.length l <= m)%nat /\
      (r = Ok (Io.mkBytesIO (data ++ skipn p (Drive.content f))
                            (List.length (data ++ skipn p (Drive.content f)))) /\
       Spec.all_ok l = true
       \/
       r = Raise (HttpError 503) /\
       exists l0 rq, l = l0 ++ [(rq, false)] /\ Spec.all_ok l0 = true).
Proof.
  intros Hk. induction m as [|m IH]; intros p d data fuel Hm Hp Hfuel Hfind; [lia|].
  destruct fuel as [|fuel]; [lia|]. cbn [while_not_done].
  destruct (Drive.fault d (List.length (Drive.log d))) eqn:Hf.
  { rewrite (next_chunk_fault d i k p Hf).
    eexists _, _, [_]. split; [reflexivity|]. split; [reflexivity|].
    split; [reflexivity|].
    split; [reflexivity|]. split; [simpl; lia|]. right.
    split; [reflexivity|]. exists [], (Drive.FilesGetMedia i p k). auto. }
  pose proof (Download.next_chunk_inside d i k p f Hf Hfind Hp) as Hstep.
  cbv zeta in Hstep. rewrite Hstep.
  set (c := firstn k (skipn p (Drive.content f))) in *.
  assert (Hlen : List.length c = Nat.min k (List.length (Drive.content f) - p)).
  { unfold c. rewrite length_firstn, length_skipn. reflexivity. }
  rewrite Download.write_at_end.
  destruct (Nat.eqb_spec (p + List.length c) (List.length (Drive.content f)))
    as [Hend|Hmore].
  - eexists _, _, [_]. split; [reflexivity|]. split; [reflexivity|].
    split; [reflexivity|].
    split; [reflexivity|]. split; [simpl; lia|]. left. split; [|reflexivity].
    assert (Hc : c = skipn p (Drive.content f)).
    { unfold c. apply firstn_all2. rewrite length_skipn. lia. }
    now rewrite Hc.
  - assert (Hck : List.length c = k) by lia.
    destruct (IH (p + List.length c)%nat
                 (Drive.with_log d (Drive.log d ++ [(Drive.FilesGetMedia i p k, true)]))
                 (data ++ c) fuel)
      as (r & s' & l & Hrun & Hfiles & Hfault & Hlog & Hn & Hr);
      [lia|lia|lia|exact Hfind|].
    exists r, s', ((Drive.FilesGetMedia i p k, true) :: l).
    split; [exact Hrun|]. split; [exact Hfiles|]. split; [exact Hfault|].
    split; [rewrite Hlog; cbn [Drive.log Drive.with_log];
            now rewrite <- app_assoc|].
    split; [simpl; lia|].
    assert (Hrest : c ++ skipn (p + List.length c) (Drive.content f)
                    = skipn p (Drive.content f)).
    { rewrite Hck. unfold c. rewrite Nat.add_comm, <- skipn_skipn.
      apply firstn_skipn. }
    destruct Hr as [[-> Hall]|[-> (l0 & rq & -> & Hall)]].
    + left. split; [|exact Hall]. now rewrite <- app_assoc, Hrest.
    + right. split; [reflexivity|].
      exists ((Drive.FilesGetMedia i p k, true) :: l0), rq. auto.
Qed.

(** [download_file] on an object the store holds: it ends, and what it
    returns and leaves behind is one of two things. *)
Lemma download_file_total i f d fuel :
  find (Drive.has_id i) (Drive.files d) = Some f ->
  (S (List.length (Drive.content f)) <= fuel)%nat ->
  exists r d' l,
    download_file fuel i d = Some (r, d') /\
    Drive.files d' = Drive.files d /\
    Drive.fault d' = Drive.fault d /\
    Drive.log d' = Drive.log d ++ l /\
    (1 <= List.length l <= S (List.length (Drive.content f)))%nat /\
    (r = Ok (Io.mkBytesIO (Drive.content f) 0)
     \/
     r = Raise (HttpError 503) /\
     exists l0 rq, l = l0 ++ [(rq, false)] /\ Spec.all_ok l0 = true).
Proof.
  intros Hfind Hfuel.
  assert (Hk : (0 < DEFAULT_CHUNK_SIZE)%nat) by (unfold DEFAULT_CHUNK_SIZE; lia).
  unfold download_file, download_file_with, download_loop, Io.empty.
  destruct (Drive.content f) as [|b bs] eqn:Hc.
  - destruct fuel as [|fuel]; [simpl in Hfuel; lia|]. cbn [while_not_done].
    destruct (Drive.fault d (List.length (Drive.log d))) eqn:Hf.
    + rewrite (next_chunk_fault d i _ 0 Hf).
      eexists _, _, [_]. split; [reflexivity|]. split; [reflexivity|].
      split; [reflexivity|]. split; [reflexivity|].
      split; [simpl; lia|]. right. split; [reflexivity|].
      exists [], (Drive.FilesGetMedia i 0 DEFAULT_CHUNK_SIZE). auto.
    + rewrite (Download.next_chunk_empty d i _ f Hf Hfind Hc).
      eexists _, _, [_]. split; [reflexivity|]. split; [reflexivity|].
      split; [reflexivity|]. split; [reflexivity|].
      split; [simpl; lia|]. left. reflexivity.
  - destruct (loop_from i DEFAULT_CHUNK_SIZE f Hk (List.length (Drive.content f))
                0%nat d [] fuel)
      as (r & [d' dl'] & l & Hrun & Hfiles & Hfault & Hlog & Hn & Hr);
      [lia|rewrite Hc; simpl; lia|rewrite Hc; simpl in *; lia|exact Hfind|].
    change (List.length (@nil byte)) with 0%nat in Hrun. rewrite Hrun.
    rewrite Hc in Hr, Hn. cbn [fst] in Hfiles, Hfault, Hlog.
    destruct Hr as [[-> Hall]|[-> Hlast]].
    + exists (Ok (Io.mkBytesIO (b :: bs) 0)), d', l.
      split; [reflexivity|]. split; [exact Hfiles|]. split; [exact Hfault|].
      split; [exact Hlog|]. split; [simpl in *; lia|]. left. reflexivity.
    + exists (Raise (HttpError 503)), d', l.
      split; [reflexivity|]. split; [exact Hfiles|]. split; [exact Hfault|].
      split; [exact Hlog|]. split; [simpl in *; lia|]. right. auto.
Qed.



End Transfer.

(* ================================================================== *)
(** * The session: cache and upload handler                          *)
(* ================================================================== *)

Module Session.

Import App AppSpec AppMore Examples.

(** ** The cached folder id *)

Lemma cached_hit now stored v s :
  folder_cache s = Some (stored, v) -> now - stored < TTL ->
  cached_get_folder_id now s = (Ok v, s).
Proof.
  intros Hc Hlt. unfold cached_get_folder_id, bind, get. rewrite Hc.
  apply Z.ltb_lt in Hlt. now rewrite Hlt.
Qed.

Lemma cached_miss now s :
  nothing_cached now s ->
  cached_get_folder_id now s =
  match get_folder_id (drive s) with
  | (Ok v, d) => (Ok v, mkSession d (Some (now, v)) (page s))
  | (Raise e, d) => (Raise e, mkSession d (folder_cache s) (page s))
  end.
Proof.
  unfold nothing_cached, cached_get_folder_id, bind at 1, get. cbv beta iota.
  destruct (folder_cache s) as [[stored v0]|] eqn:Hc; intros Hmiss.
  - apply Z.ltb_ge in Hmiss. rewrite Hmiss.
    unfold bind, on_drive, cache_store, modify.
    destruct (get_folder_id (drive s)) as [[v|e] d]; cbn [drive folder_cache page];
      [reflexivity|now rewrite Hc].
  - unfold bind, on_drive, cache_store, modify.
    destruct (get_folder_id (drive s)) as [[v|e] d]; cbn [drive folder_cache page];
      [reflexivity|now rewrite Hc].
Qed.

Lemma get_folder_id_asks d :
  exists b rest,
    Drive.log (snd (get_folder_id d)) = Drive.log d ++ (lookup, b) :: rest.
Proof.
  rewrite Resolve.resolve_run.
  destruct (Drive.fault d (List.length (Drive.log d))); [now exists false, []|].
  cbv zeta. destruct (folders d); [|now exists true, []].
  unfold bind. rewrite DriveFacts.files_create_run.
  cbn [Drive.fault Drive.log Drive.with_log].
  match goal with |- context [if ?c then _ else _] => destruct c end;
    cbn [snd Drive.log Drive.with_log Drive.with_files];
    rewrite <- app_assoc; eexists true, [_]; reflexivity.
Qed.

(** X13: a folder id resolved through the cache at [now1] is served for
    the next [TTL] without any request, whatever the store holds by then;
    once [TTL] has passed the next call asks the store again; and a
    resolution that raises leaves the cache as it was. *)
Theorem folder_id_served_from_cache now1 s :
  nothing_cached now1 s ->
  let r1 := cached_get_folder_id now1 s in
  (forall v, fst r1 = Ok v ->
     forall d p now2,
       let s2 := mkSession d (folder_cache (snd r1)) p in
       (now2 - now1 < TTL -> cached_get_folder_id now2 s2 = (Ok v, s2)) /\
       (TTL <= now2 - now1 ->
        exists b rest,
          Drive.log (drive (snd (cached_get_folder_id now2 s2)))
          = Drive.log d ++ (lookup, b) :: rest)) /\
  (forall e, fst r1 = Raise e -> folder_cache (snd r1) = folder_cache s).
Proof.
  intros Hmiss r1. subst r1. rewrite (cached_miss now1 s Hmiss).
  destruct (get_folder_id (drive s)) as [[v|e] d1]; cbn [fst snd folder_cache].
  - split; [|discriminate]. intros v' Hv d p now2. injection Hv as <-.
    set (s2 := mkSession d (Some (now1, v)) p). split.
    + intros Hlt. now apply cached_hit with now1.
    + intros Hge.
      assert (Hmiss2 : nothing_cached now2 s2) by exact Hge.
      rewrite (cached_miss now2 s2 Hmiss2).
      destruct (get_folder_id_asks (drive s2)) as (b & rest & Hlog).
      exists b, rest.
      destruct (get_folder_id (drive s2)) as [[v2|e2] d2]; exact Hlog.
  - split; [discriminate|reflexivity].
Qed.

Lemma folder_id_served_from_cache_witness :
  exists v,
    fst (cached_get_folder_id 0 (session_of fresh_store)) = Ok v /\
    let s2 := mkSession fresh_store
                (folder_cache (snd (cached_get_folder_id 0 (session_of fresh_store))))
                [] in
    cached_get_folder_id 59999999 s2 = (Ok v, s2).
Proof.
  assert (H : fst (cached_get_folder_id 0 (session_of fresh_store)) = Ok "new-1")
    by (vm_compute; reflexivity).
  exists "new-1". split; [exact H|].
  apply (proj1 (folder_id_served_from_cache 0 (session_of fresh_store) I))
    with (d := fresh_store) (p := @nil widget) (now2 := 59999999) in H.
  apply (proj1 H). unfold TTL. lia.
Defined.

(** ** What the upload handler shows *)

Lemma error_names_app p q : error_names (p ++ q) = error_names p ++ error_names q.
Proof.
  induction p as [|w p IH]; simpl; [reflexivity|].
  destruct w; simpl; congruence.
Qed.

Lemma progress_steps_app p q :
  progress_steps (p ++ q) = progress_steps p ++ progress_steps q.
Proof.
  induction p as [|w p IH]; simpl; [reflexivity|].
  destruct w; simpl; congruence.
Qed.

Lemma celebrations_app p q :
  celebrations (p ++ q) = celebrations p ++ celebrations q.
Proof.
  induction p as [|w p IH]; simpl; [reflexivity|].
  destruct w; simpl; congruence.
Qed.

Lemma new_page_app s d c p : new_page s (mkSession d c (page s ++ p)) = p.
Proof.
  unfold new_page. cbn [page]. rewrite skipn_app, skipn_all, Nat.sub_diag.
  reflexivity.
Qed.

(** The loop shows one progress step per item and one error box per
    failed item, and nothing else that counts. *)
Lemma for_uploaded_page fid total ups : forall i count s,
  let r := for_uploaded fid total i ups count s in
  exists outcomes shown,
    List.length outcomes = List.length ups /\
    fst r = Ok (count + Z.of_nat (trues outcomes)) /\
    Drive.log (drive (snd r))
    = Drive.log (drive s) ++ combine (map (upload_request fid) ups) outcomes /\
    folder_cache (snd r) = folder_cache s /\
    page (snd r) = page s ++ shown /\
    error_names shown = map up_name (failed ups outcomes) /\
    progress_steps shown
    = map (fun j => ((j + 1)%nat, total)) (seq i (List.length ups)) /\
    celebrations shown = [].
Proof.
  induction ups as [|u rest IH]; intros i count s r; subst r.
  - exists [], []. simpl. rewrite !app_nil_r, Z.add_0_r. auto 10.
  - rewrite Upload.for_uploaded_cons. cbv zeta.
    destruct (Drive.fault (drive s) (List.length (Drive.log (drive s)))) eqn:Hf.
    + match goal with |- context [for_uploaded fid total (S i) rest ?c ?s1] =>
        destruct (IH (S i) c s1)
          as (outs & shown & Hlen & Hr & Hlog & Hcache & Hpage & Herr & Hprog & Hcel)
      end.
      exists (false :: outs),
        ([StatusUploading (up_name u); StError (up_name u) (HttpError 503);
          Progress (i + 1) total] ++ shown).
      split; [simpl; lia|]. split; [rewrite Hr; reflexivity|].
      split; [rewrite Hlog; cbn [drive Drive.log Drive.with_log];
              now rewrite <- app_assoc|].
      split; [exact Hcache|].
      split; [rewrite Hpage; cbn [page]; now rewrite <- !app_assoc|].
      rewrite error_names_app, progress_steps_app, celebrations_app.
      rewrite Herr, Hprog, Hcel. auto.
    + match goal with |- context [for_uploaded fid total (S i) rest ?c ?s1] =>
        destruct (IH (S i) c s1)
          as (outs & shown & Hlen & Hr & Hlog & Hcache & Hpage & Herr & Hprog & Hcel)
      end.
      exists (true :: outs),
        ([StatusUploading (up_name u); Progress (i + 1) total] ++ shown).
      split; [simpl; lia|].
      split; [rewrite Hr; f_equal; unfold trues; simpl; lia|].
      split; [rewrite Hlog; cbn [drive Drive.log Drive.with_log];
              now rewrite <- app_assoc|].
      split; [exact Hcache|].
      split; [rewrite Hpage; cbn [page]; now rewrite <- !app_assoc|].
      rewrite error_names_app, progress_steps_app, celebrations_app.
      rewrite Herr, Hprog, Hcel. auto.
Qed.

(** X14: the upload handler moves the progress bar once per picked file,
    from 1 of N to N of N, and shows an error box naming each file whose
    upload failed, in order; if at least one upload went through it shows
    the success box with the count and the balloons and empties the cache
    of the folder id; if none did it shows neither and leaves the cache. *)
Theorem upload_handler_reports fid ups s :
  let r := upload_all fid ups s in
  let s' := snd r in
  exists outcomes,
    List.length outcomes = List.length ups /\
    Spec.new_log (drive s) (drive s')
    = combine (map (upload_request fid) ups) outcomes /\
    fst r = Ok (Z.of_nat (trues outcomes)) /\
    error_names (new_page s s') = map up_name (failed ups outcomes) /\
    progress_steps (new_page s s')
    = map (fun j => ((j + 1)%nat, List.length ups)) (seq 0 (List.length ups)) /\
    ((0 < trues outcomes)%nat ->
     folder_cache s' = None /\
     celebrations (new_page s s')
     = [StSuccess (Z.of_nat (trues outcomes)); Balloons]) /\
    (trues outcomes = 0%nat ->
     folder_cache s' = folder_cache s /\ celebrations (new_page s s') = []).
Proof.
  cbv zeta.
  destruct (for_uploaded_page fid (List.length ups) ups 0%nat 0 s)
    as (outs & shown & Hlen & Hr & Hlog & Hcache & Hpage & Herr & Hprog & Hcel).
  destruct (for_uploaded fid (List.length ups) 0 ups 0 s) as [r1 s1] eqn:Hloop.
  cbn [fst snd] in *. subst r1. rewrite Z.add_0_l in *.
  set (n := Z.of_nat (trues outs)) in *.
  assert (Hrun : upload_all fid ups s =
            (Ok n,
             if 0 <? n then
               mkSession (drive s1) None
                 (page s ++ shown ++ [StatusText "Upload complete!"; StSuccess n; Balloons])
             else
               mkSession (drive s1) (folder_cache s)
                 (page s ++ shown ++ [StatusText "Upload complete!"]))).
  { unfold upload_all, bind at 1. rewrite Hloop.
    unfold bind at 1, show at 1, modify. cbv beta iota.
    destruct (0 <? n).
    - unfold bind, show, cache_clear, modify. cbn [drive folder_cache page].
      rewrite Hpage, <- !app_assoc. reflexivity.
    - unfold ret. cbn [drive folder_cache page].
      rewrite Hpage, Hcache, <- !app_assoc. reflexivity. }
  rewrite Hrun. cbn [fst snd]. exists outs.
  split; [exact Hlen|].
  assert (Hdrive : drive (if 0 <? n then
               mkSession (drive s1) None
                 (page s ++ shown ++ [StatusText "Upload complete!"; StSuccess n; Balloons])
             else
               mkSession (drive s1) (folder_cache s)
                 (page s ++ shown ++ [StatusText "Upload complete!"])) = drive s1)
    by (destruct (0 <? n); reflexivity).
  rewrite Hdrive. split; [now apply DriveFacts.new_log_app|].
  split; [reflexivity|].
  destruct (0 <? n) eqn:Hpos.
  - rewrite !new_page_app.
    rewrite error_names_app, progress_steps_app, celebrations_app, Herr, Hprog, Hcel.
    cbn [error_names progress_steps celebrations folder_cache].
    rewrite !app_nil_r. split; [reflexivity|]. split; [reflexivity|].
    split; [auto|]. apply Z.ltb_lt in Hpos. unfold n in Hpos. lia.
  - rewrite !new_page_app.
    rewrite error_names_app, progress_steps_app, celebrations_app, Herr, Hprog, Hcel.
    cbn [error_names progress_steps celebrations folder_cache].
    rewrite !app_nil_r. split; [reflexivity|]. split; [reflexivity|].
    split; [|auto]. apply Z.ltb_ge in Hpos. unfold n in Hpos. lia.
Qed.

Lemma upload_handler_reports_witness :
  exists outcomes,
    fst (upload_all "folder-1" three_files flaky_session)
    = Ok (Z.of_nat (trues outcomes)) /\
    folder_cache (snd (upload_all "folder-1" three_files flaky_session)) = None.
Proof.
  destruct (upload_handler_reports "folder-1" three_files flaky_session)
    as (outs & _ & _ & Hr & _ & _ & Hsome & _).
  exists outs. split; [exact Hr|]. apply Hsome.
  assert (H : fst (upload_all "folder-1" three_files flaky_session) = Ok 2)
    by (vm_compute; reflexivity).
  rewrite H in Hr. injection Hr as Hr. lia.
Defined.

End Session.

(* ================================================================== *)
(** * Accuracy of the printed size                                   *)
(* ================================================================== *)

Module Sizes.

Import App AppSpec AppMore.

(** ['%.1f'] of [n / 2^k] prints the tenth nearest to it. *)
Lemma tenths_nearest n k :
  0 < k -> 0 <= n ->
  2 * Z.abs (PyFloat.tenths (PyFloat.mk n (- k)) * 2 ^ k - 10 * n) <= 2 ^ k.
Proof.
  intros Hk Hn. unfold PyFloat.tenths. cbn [PyFloat.mant PyFloat.expo].
  destruct (Z.leb_spec 0 (- k)); [lia|]. rewrite Z.opp_involutive.
  assert (Hden : 0 < 2 ^ k) by (apply Z.pow_pos_nonneg; lia).
  pose proof (Z.div_mod (10 * n) (2 ^ k) ltac:(lia)) as Hdm.
  pose proof (Z.mod_pos_bound (10 * n) (2 ^ k) Hden) as Hr.
  set (q := 10 * n / 2 ^ k) in *. set (r := (10 * n) mod 2 ^ k) in *.
  destruct (Z.ltb_spec (2 ^ k) (2 * r)) as [Hup|Hdown]; cbn [orb].
  - replace ((q + 1) * 2 ^ k - 10 * n) with (2 ^ k - r) by lia. lia.
  - destruct (Z.eqb_spec (2 * r) (2 ^ k)) as [Htie|Hno]; cbn [andb].
    + destruct (Z.odd q).
      * replace ((q + 1) * 2 ^ k - 10 * n) with (2 ^ k - r) by lia. lia.
      * replace (q * 2 ^ k - 10 * n) with (- r) by lia. lia.
    + replace (q * 2 ^ k - 10 * n) with (- r) by lia. lia.
Qed.

(** Between 1024 and [2^53] the value printed is [n] scaled by the
    divisions made, with no rounding before the print. *)
Lemma format_scaled n :
  1024 <= n < 2 ^ 53 ->
  format_size (Some n)
  = Ok (labelled (PyFloat.format_f1 (PyFloat.mk n (- (10 * divisions n))))
                 (unit_of n)).
Proof.
  intros [Hlo Hhi]. unfold format_size. rewrite Format.for_unit_int.
  destruct (Z.ltb_spec n 1024) as [|_]; [lia|].
  unfold PyFloat.int_truediv_1024.
  rewrite Format.round53_exact by lia.
  assert (Hfit : PyFloat.overflows (PyFloat.div_1024 (PyFloat.mk n 0)) = false).
  { unfold PyFloat.overflows, PyFloat.div_1024. cbn [PyFloat.mant PyFloat.expo].
    apply Z.leb_gt.
    assert (Z.log2 n < 53) by (apply Z.log2_lt_pow2; lia). lia. }
  rewrite Hfit. unfold PyFloat.div_1024. cbn [PyFloat.mant PyFloat.expo].
  unfold unit_of, divisions. destruct (Z.ltb_spec n 1024) as [|_]; [lia|].
  rewrite Format.for_unit_float.
  change (0 - 10) with (- (10)). rewrite Format.lt_1024_scaled by lia.
  change (1024 * 2 ^ 10) with (1024 ^ 2).
  destruct (n <? 1024 ^ 2); [reflexivity|].
  rewrite Format.for_unit_float. unfold PyFloat.div_1024.
  cbn [PyFloat.mant PyFloat.expo].
  change (- (10) - 10) with (- (20)). rewrite Format.lt_1024_scaled by lia.
  change (1024 * 2 ^ 20) with (1024 ^ 3).
  destruct (n <? 1024 ^ 3); [reflexivity|].
  rewrite Format.for_unit_float. unfold PyFloat.div_1024.
  cbn [PyFloat.mant PyFloat.expo].
  change (- (20) - 10) with (- (30)). rewrite Format.lt_1024_scaled by lia.
  change (1024 * 2 ^ 30) with (1024 ^ 4).
  destruct (n <? 1024 ^ 4); [reflexivity|].
  rewrite Format.for_unit_last. reflexivity.
Qed.

(** X15: for a count below [2^53], [format_size] prints, with the unit
    of the count's size, the number of tenths nearest to the count divided
    by the unit: a count of bytes is printed exactly, and in KB, MB and GB
    the number printed lies between 1.0 and 1024.0, both included. *)
Theorem format_size_nearest_tenth n :
  0 <= n < 2 ^ 53 ->
  exists tenths,
    format_size (Some n)
    = Ok (labelled (PyFloat.show_tenths tenths) (unit_of n)) /\
    2 * Z.abs (tenths * 1024 ^ divisions n - 10 * n) <= 1024 ^ divisions n /\
    (n < 1024 -> tenths = 10 * n) /\
    (1024 <= n < 1024 ^ 4 -> 10 <= tenths <= 10240).
Proof.
  intros [Hlo Hhi].
  destruct (Z.ltb_spec n 1024) as [Hb|Hk].
  { exists (10 * n). rewrite Format.format_bytes by lia.
    unfold unit_of, divisions. apply Z.ltb_lt in Hb. rewrite Hb.
    split; [reflexivity|]. split; [|split; [reflexivity|lia]].
    rewrite Z.pow_0_r. replace (10 * n * 1 - 10 * n) with 0 by lia. simpl. lia. }
  exists (PyFloat.tenths (PyFloat.mk n (- (10 * divisions n)))).
  split; [now apply format_scaled|].
  assert (Hnear : forall k, 0 < k -> divisions n = k ->
            2 * Z.abs (PyFloat.tenths (PyFloat.mk n (- (10 * k))) * 1024 ^ k - 10 * n)
            <= 1024 ^ k).
  { intros k Hk0 _. pose proof (tenths_nearest n (10 * k) ltac:(lia) Hlo) as H.
    replace (1024 ^ k) with (2 ^ (10 * k)); [exact H|].
    rewrite Z.pow_mul_r by lia. reflexivity. }
  unfold divisions in *. apply Z.ltb_ge in Hk. rewrite Hk in *.
  destruct (Z.ltb_spec n (1024 ^ 2)) as [H2|H2];
    [|destruct (Z.ltb_spec n (1024 ^ 3)) as [H3|H3];
      [|destruct (Z.ltb_spec n (1024 ^ 4)) as [H4|H4]]].
  - specialize (Hnear 1 ltac:(lia) eq_refl).
    split; [exact Hnear|]. split; [apply Z.ltb_ge in Hk; lia|]. intros _.
    change (1024 ^ 1) with 1024 in Hnear. change (1024 ^ 2) with 1048576 in H2.
    apply Z.ltb_ge in Hk. lia.
  - specialize (Hnear 2 ltac:(lia) eq_refl).
    split; [exact Hnear|]. split; [apply Z.ltb_ge in Hk; lia|]. intros _.
    change (1024 ^ 2) with 1048576 in *. change (1024 ^ 3) with 1073741824 in H3.
    lia.
  - specialize (Hnear 3 ltac:(lia) eq_refl).
    split; [exact Hnear|]. split; [apply Z.ltb_ge in Hk; lia|]. intros _.
    change (1024 ^ 3) with 1073741824 in *.
    change (1024 ^ 4) with 1099511627776 in H4. lia.
  - specialize (Hnear 4 ltac:(lia) eq_refl).
    split; [exact Hnear|]. split; [apply Z.ltb_ge in Hk; lia|]. lia.
Qed.

(** One byte short of a megabyte prints as 1024.0 KB. *)
Lemma format_size_nearest_tenth_witness :
  exists tenths,
    format_size (Some 1048575)
    = Ok (labelled (PyFloat.show_tenths tenths) "KB") /\
    tenths = 10240.
Proof.
  destruct (format_size_nearest_tenth 1048575) as (t & Hrun & Hnear & _ & _).
  - split; [lia|reflexivity].
  - exists t. split; [exact Hrun|].
    change (1024 ^ divisions 1048575) with 1024 in Hnear. lia.
Defined.

End Sizes.

(* ================================================================== *)
(** * The download tab                                               *)
(* ================================================================== *)

Module Tab.

Import App AppSpec AppMore Examples.

Lemma find_by_id fs f :
  NoDup (map Drive.id fs) -> In f fs ->
  find (Drive.has_id (Drive.id f)) fs = Some f.
Proof.
  induction fs as [|g fs IH]; simpl; intros Hnd Hin; [tauto|].
  inversion Hnd as [|? ? Hnot Hrest]. unfold Drive.has_id at 1.
  destruct (String.eqb_spec (Drive.id g) (Drive.id f)) as [Heq|Hne].
  - destruct Hin as [->|Hin]; [reflexivity|].
    exfalso. apply Hnot. rewrite Heq. now apply in_map.
  - destruct Hin as [->|Hin]; [congruence|]. now apply IH.
Qed.

Lemma quiet_grows d d' l :
  quiet d -> Drive.fault d' = Drive.fault d -> Drive.log d' = Drive.log d ++ l ->
  quiet d'.
Proof.
  intros Hq Hf Hl n. rewrite Hf, Hl, length_app.
  replace (n + (List.length (Drive.log d) + List.length l))%nat
    with ((n + List.length l) + List.length (Drive.log d))%nat by lia.
  apply Hq.
Qed.

Lemma downloads_app p q : downloads (p ++ q) = downloads p ++ downloads q.
Proof.
  induction p as [|e p IH]; simpl; [reflexivity|].
  destruct e; simpl; congruence.
Qed.

Lemma titles_app p q : titles (p ++ q) = titles p ++ titles q.
Proof.
  induction p as [|e p IH]; simpl; [reflexivity|].
  destruct e; simpl; congruence.
Qed.

(** The rows of the tab: every file gets its title and either its whole
    content behind a button or the cross mark, and the loop goes on to the
    next file in both cases. *)
Lemma for_file_rows fuel files : forall v,
  (forall f, In f files ->
     find (Drive.has_id (Drive.id f)) (Drive.files (service v)) = Some f /\
     is_ok (format_size (Drive.size f)) = true /\
     (S (List.length (Drive.content f)) <= fuel)%nat) ->
  exists v' l added,
    for_file fuel files v = Some (Ok tt, v') /\
    Drive.files (service v') = Drive.files (service v) /\
    Drive.fault (service v') = Drive.fault (service v) /\
    Drive.log (service v') = Drive.log (service v) ++ l /\
    (List.length files <= List.length l)%nat /\
    shown v' = shown v ++ added /\
    titles added
    = map (fun f => (icon_of (Drive.mimeType f), Drive.name f)) files /\
    Forall2 (fun f o => o = Some (Drive.content f) \/ o = None)
            files (downloads added) /\
    (quiet (service v) ->
     downloads added = map (fun f => Some (Drive.content f)) files).
Proof.
  induction files as [|file rest IH]; intros v Hall.
  - exists v, [], []. simpl. rewrite !app_nil_r. auto 10.
  - destruct (Hall file (or_introl eq_refl)) as (Hfind & Hsize & Hfuel).
    cbn [for_file]. cbv zeta.
    destruct (format_size (Drive.size file)) as [s|e]; [|discriminate Hsize].
    cbn [service write].
    destruct (Transfer.download_file_total _ _ _ _ Hfind Hfuel)
      as (r & d & l & Hrun & Hfiles & Hfault & Hlog & Hn & Hr).
    rewrite Hrun.
    match goal with |- context [for_file fuel rest ?v3] =>
      destruct (IH v3) as (v' & l' & added & Hloop & Hfiles' & Hfault' & Hlog'
                           & Hn' & Hshown & Htitles & Hrows & Hquiet)
    end.
    { intros f Hf. destruct (Hall f (or_intror Hf)) as (Hfind' & Hrest).
      split; [|exact Hrest].
      destruct r; cbn [service write]; now rewrite Hfiles. }
    rewrite Hloop.
    destruct r as [content|e].
    + cbn [service write shown] in *.
      exists v', (l ++ l'),
        ([Title (icon_of (Drive.mimeType file)) (Drive.name file); Size s;
          DownloadButton content (Drive.name file)
                         (String.append "dl_" (Drive.id file));
          DeleteButton (String.append "del_" (Drive.id file))] ++ added).
      split; [reflexivity|]. split; [congruence|]. split; [congruence|].
      split; [rewrite Hlog', Hlog; now rewrite app_assoc|].
      split; [rewrite length_app; simpl; lia|].
      split; [rewrite Hshown; now rewrite <- !app_assoc|].
      rewrite titles_app, downloads_app. cbn [titles downloads app map].
      split; [now rewrite Htitles|].
      destruct Hr as [Hr|[Hr _]]; [|discriminate Hr]. injection Hr as ->.
      split; [constructor; [now left|exact Hrows]|].
      intros Hq. rewrite Hquiet; [reflexivity|]. now apply quiet_grows with (service v) l.
    + cbn [service write shown] in *.
      exists v', (l ++ l'),
        ([Title (icon_of (Drive.mimeType file)) (Drive.name file); Size s;
          Cross; DeleteButton (String.append "del_" (Drive.id file))] ++ added).
      split; [reflexivity|]. split; [congruence|]. split; [congruence|].
      split; [rewrite Hlog', Hlog; now rewrite app_assoc|].
      split; [rewrite length_app; simpl; lia|].
      split; [rewrite Hshown; now rewrite <- !app_assoc|].
      rewrite titles_app, downloads_app. cbn [titles downloads app map].
      split; [now rewrite Htitles|].
      split; [constructor; [now right|exact Hrows]|].
      intros Hq. exfalso.
      destruct (Download.download_file_returns_content (service v) (Drive.id file)
                  file fuel Hq Hfind Hfuel) as (d2 & Hok & _).
      rewrite Hok in Hrun. discriminate Hrun.
Qed.

Lemma listed_are_stored fid d f :
  In f (firstn 100 (Drive.result_set (children_query fid)
                                     (Some Drive.ModifiedTimeDesc) d)) ->
  In f (Drive.files d).
Proof.
  intros H. apply Listing.In_firstn in H. now apply Pages.In_shown in H.
Qed.

Lemma list_files_answer fid d :
  Drive.fault d (List.length (Drive.log d)) = false ->
  list_files fid d
  = (Ok (firstn 100 (Drive.result_set (children_query fid)
                                      (Some Drive.ModifiedTimeDesc) d)),
     Drive.with_log d
       (Drive.log d ++ [(Drive.FilesList (children_query fid) (Some 100%nat)
                                         (Some Drive.ModifiedTimeDesc), true)])).
Proof.
  intros Hf. unfold list_files. rewrite DriveFacts.files_list_run, Hf.
  reflexivity.
Qed.

Lemma list_files_fails fid d :
  Drive.fault d (List.length (Drive.log d)) = true ->
  list_files fid d
  = (Raise (HttpError 503),
     Drive.with_log d
       (Drive.log d ++ [(Drive.FilesList (children_query fid) (Some 100%nat)
                                         (Some Drive.ModifiedTimeDesc), false)])).
Proof.
  intros Hf. unfold list_files. rewrite DriveFacts.files_list_run, Hf.
  reflexivity.
Qed.

(** The tab once the listing has answered. *)
Lemma download_tab_listed fuel fid d :
  Drive.fault d (List.length (Drive.log d)) = false ->
  unique_ids d -> showable fuel d ->
  let listed := firstn 100 (Drive.result_set (children_query fid)
                                              (Some Drive.ModifiedTimeDesc) d) in
  exists v l,
    download_tab fuel fid d = Some (Ok tt, v) /\
    Drive.files (service v) = Drive.files d /\
    Drive.log (service v) = Drive.log d ++ l /\
    (1 + List.length listed <= List.length l)%nat /\
    titles (shown v)
    = map (fun f => (icon_of (Drive.mimeType f), Drive.name f)) listed /\
    Forall2 (fun f o => o = Some (Drive.content f) \/ o = None)
            listed (downloads (shown v)) /\
    (quiet d -> downloads (shown v) = map (fun f => Some (Drive.content f)) listed).
Proof.
  intros Hf Hids Hshow listed.
  assert (Hstored : forall f, In f listed -> In f (Drive.files d))
    by (intros f; apply listed_are_stored).
  unfold download_tab. rewrite (list_files_answer fid d Hf). fold listed.
  set (rq := (Drive.FilesList _ _ _, true)).
  set (d1 := Drive.with_log d (Drive.log d ++ [rq])).
  destruct listed as [|f0 rest] eqn:Hlisted.
  - exists (write NoFiles (mkView d1 [])), [rq]. simpl. auto 10.
  - rewrite <- Hlisted in *.
    destruct (for_file_rows fuel listed
                (write Divider (write (Available (List.length listed)) (mkView d1 []))))
      as (v' & l & added & Hloop & Hfiles & _ & Hlog & Hn & Hshown & Htitles
          & Hrows & Hquiet).
    { intros f Hin. cbn [service write]. specialize (Hstored f Hin).
      split; [now apply find_by_id|]. now apply Hshow. }
    exists v', (rq :: l). cbn [service write shown] in *.
    split; [exact Hloop|]. split; [exact Hfiles|].
    split; [rewrite Hlog; unfold d1; cbn [Drive.log Drive.with_log];
            now rewrite <- app_assoc|].
    split; [simpl; lia|].
    rewrite Hshown, titles_app, downloads_app. cbn [titles downloads app].
    split; [exact Htitles|]. split; [exact Hrows|].
    intros Hq. apply Hquiet. unfold d1. now apply Download.quiet_next.
Qed.

(** X16: on a store that answers, showing the download tab downloads
    the whole content of every listed file, in the order of the listing
    and before any button is pressed: one button per row carrying the
    file's bytes, at least one request per file on top of the listing, and
    no change to the store's resources. *)
Theorem download_tab_fetches_every_file fuel fid d :
  quiet d -> unique_ids d -> showable fuel d ->
  exists listed v,
    fst (list_files fid d) = Ok listed /\
    download_tab fuel fid d = Some (Ok tt, v) /\
    titles (shown v)
    = map (fun f => (icon_of (Drive.mimeType f), Drive.name f)) listed /\
    downloads (shown v) = map (fun f => Some (Drive.content f)) listed /\
    Drive.files (service v) = Drive.files d /\
    (1 + List.length listed <= List.length (Spec.new_log d (service v)))%nat.
Proof.
  intros Hq Hids Hshow.
  pose proof (Transfer.quiet_first d Hq) as Hf.
  destruct (download_tab_listed fuel fid d Hf Hids Hshow)
    as (v & l & Hrun & Hfiles & Hlog & Hn & Htitles & _ & Hall).
  eexists _, v. rewrite (list_files_answer fid d Hf).
  rewrite (DriveFacts.new_log_app d _ l Hlog).
  split; [reflexivity|]. auto 10.
Qed.

Lemma download_tab_fetches_every_file_witness :
  exists v,
    download_tab 6 "folder-1" hello_store = Some (Ok tt, v) /\
    downloads (shown v) = [Some [x68; x65; x6c; x6c; x6f]%byte].
Proof.
  destruct (download_tab_fetches_every_file 6 "folder-1" hello_store)
    as (listed & v & Hlist & Hrun & _ & Hall & _).
  - intros n. reflexivity.
  - unfold unique_ids. simpl.
    repeat (constructor; [simpl; intuition discriminate|]). constructor.
  - intros f [<-|[<-|[]]]; split; try reflexivity; simpl; lia.
  - exists v. split; [exact Hrun|]. rewrite Hall.
    assert (Hl : fst (list_files "folder-1" hello_store) = Ok [hello])
      by reflexivity.
    rewrite Hl in Hlist. injection Hlist as <-. reflexivity.
Defined.

(** X17: whatever requests the transport fails, showing the download tab
    completes and leaves the store's resources alone.  If the listing
    fails, the page shows the error followed by the notice of an empty
    folder, and no other request is made; otherwise every listed file gets
    its row, with its whole content behind the button or with the cross
    mark, and a failed download does not stop the rows after it. *)
Theorem download_tab_survives_failures fuel fid d :
  unique_ids d -> showable fuel d ->
  exists v,
    download_tab fuel fid d = Some (Ok tt, v) /\
    Drive.files (service v) = Drive.files d /\
    match fst (list_files fid d) with
    | Raise e =>
        shown v = [ListError e; NoFiles] /\
        Spec.new_log d (service v)
        = [(Drive.FilesList (children_query fid) (Some 100%nat)
                            (Some Drive.ModifiedTimeDesc), false)]
    | Ok listed =>
        titles (shown v)
        = map (fun f => (icon_of (Drive.mimeType f), Drive.name f)) listed /\
        Forall2 (fun f o => o = Some (Drive.content f) \/ o = None)
                listed (downloads (shown v))
    end.
Proof.
  intros Hids Hshow.
  destruct (Drive.fault d (List.length (Drive.log d))) eqn:Hf.
  - unfold download_tab. rewrite (list_files_fails fid d Hf). cbn [fst].
    eexists. split; [reflexivity|]. split; [reflexivity|].
    split; [reflexivity|]. cbn [service write].
    now apply DriveFacts.new_log_app.
  - destruct (download_tab_listed fuel fid d Hf Hids Hshow)
      as (v & l & Hrun & Hfiles & _ & _ & Htitles & Hrows & _).
    exists v. rewrite (list_files_answer fid d Hf). cbn [fst]. auto.
Qed.

Lemma download_tab_survives_failures_witness :
  exists v,
    download_tab 6 "folder-1" offline_once = Some (Ok tt, v) /\
    shown v = [ListError (HttpError 503); NoFiles].
Proof.
  destruct (download_tab_survives_failures 6 "folder-1" offline_once)
    as (v & Hrun & _ & Hpage).
  - unfold unique_ids. simpl.
    repeat (constructor; [simpl; intuition discriminate|]). constructor.
  - intros f [<-|[<-|[]]]; split; try reflexivity; simpl; lia.
  - exists v. split; [exact Hrun|]. exact (proj1 Hpage).
Defined.

End Tab.

(* ================================================================== *)
(** * The session and the job on one store                           *)
(* ================================================================== *)

Module EndToEnd.

Import Cleanup Spec CleanupFacts CleanupMore AppSpec AppMore Examples.

Lemma only_one_with_fresh_id d f g :
  next_id_unused d ->
  Drive.id f = Drive.new_id d (List.length (Drive.log d)) ->
  In g (Drive.files d ++ [f]) -> Drive.id g = Drive.id f -> g = f.
Proof.
  unfold next_id_unused. intros Hnew Hid Hin Heq.
  apply in_app_or in Hin. destruct Hin as [Hin|[<-|[]]]; [|reflexivity].
  exfalso.
  assert (Hyes : existsb (Drive.has_id (Drive.new_id d (List.length (Drive.log d))))
                         (Drive.files d) = true).
  { apply existsb_exists. exists g. split; [exact Hin|].
    unfold Drive.has_id. rewrite Heq, Hid. apply String.eqb_refl. }
  congruence.
Qed.

Lemma folder_of_grows d d' f fid :
  Drive.files d' = Drive.files d ++ [f] ->
  folder_of d = Some fid -> folder_of d' = Some fid.
Proof.
  unfold folder_of. intros -> H. rewrite filter_app.
  destruct (filter (Drive.matches folder_query) (Drive.files d)); [discriminate|].
  exact H.
Qed.

(** X18: an object the session uploads is safe from the job until it is
    past the retention window.  On a store that answers and assigns an id
    not in use, a run of the job whose clock reads at most seven days
    after the object's timestamp leaves the object in the store, however
    the run ends; a run that completes later than that, on the folder the
    object was uploaded to and with at most a hundred objects in it,
    removes it. *)
Theorem uploaded_file_kept_for_a_week fid name bytes mime d w :
  quiet d ->
  next_id_unused d ->
  drive w = snd (App.upload_file fid name bytes mime d) ->
  exists f,
    fst (App.upload_file fid name bytes mime d) = Ok f /\
    Drive.modifiedTime f = Drive.server_time d (List.length (Drive.log d)) /\
    let now := clock w (ticks w) in
    let w' := snd (cleanup_old_files w) in
    (now - Drive.modifiedTime f <= timedelta_days MAX_AGE_DAYS ->
     In f (Drive.files (drive w'))) /\
    (timedelta_days MAX_AGE_DAYS < now - Drive.modifiedTime f ->
     folder_of d = Some fid -> fid <> "" ->
     (List.length (children fid (drive w)) <= 100)%nat ->
     is_ok (fst (cleanup_old_files w)) = true ->
     ~ In f (Drive.files (drive w'))).
Proof.
  intros Hq Hnew Hw.
  destruct (Transfer.upload_file_quiet fid name bytes mime d Hq)
    as (Hrun & Hfiles & _).
  set (f := Drive.created d (Drive.mkBody name None [fid])
                          (Some (Drive.mkMedia mime bytes))) in *.
  rewrite <- Hw in Hfiles, Hrun. exists f. rewrite Hrun.
  split; [reflexivity|]. split; [reflexivity|]. cbv zeta.
  pose proof (steady_cleanup w) as [_ Hstore].
  destruct (cleanup_old_files w) as [r w'] eqn:Hjob. cbn [fst snd] in *.
  assert (Hin : In f (Drive.files (drive w)))
    by (rewrite Hfiles; apply in_or_app; right; now left).
  split.
  - intros Hyoung. rewrite Hstore. apply Retention.In_without.
    split; [exact Hin|].
    destruct (existsb (String.eqb (Drive.id f))
                (deleted_ok (new_log (drive w) (drive w')))) eqn:Hex;
      [exfalso|reflexivity].
    apply existsb_exists in Hex. destruct Hex as (i & Hi & Heq).
    apply String.eqb_eq in Heq. subst i.
    destruct (RetentionMore.deleted_ok_of_run w r w' Hjob _ Hi)
      as (g & Hg & Hel & Hid).
    apply Listing.listing_in_files in Hg. rewrite Hfiles in Hg.
    assert (g = f) by (now apply (only_one_with_fresh_id d f g Hnew eq_refl)).
    subst g. unfold eligible, age, max_age in Hel. apply Z.ltb_lt in Hel. lia.
  - intros Hold Hfolder Hne Hsmall Hok Hstill.
    destruct r as [n|e]; [|discriminate Hok].
    assert (Hfolder' : folder_of (drive w) = Some fid)
      by (now apply (folder_of_grows d (drive w) f fid Hfiles)).
    pose proof (RetentionMore.swept_ids w n w' fid Hjob Hfolder' Hne) as Hall.
    rewrite Hstore in Hstill. apply Retention.In_without in Hstill.
    destruct Hstill as [_ Hkept]. rewrite Hall in Hkept.
    assert (Hyes : existsb (String.eqb (Drive.id f))
                     (map Drive.id (filter (eligible (clock w (ticks w)))
                                           (listing (drive w)))) = true).
    { apply Retention.id_among. exists f. split; [|reflexivity].
      apply filter_In. split.
      - unfold listing, first_page. rewrite Hfolder'.
        destruct (String.eqb_spec fid ""); [contradiction|].
        rewrite firstn_all2 by exact Hsmall. apply Listing.In_children.
        split; [exact Hin|]. split; [reflexivity|]. simpl. now left.
      - unfold eligible, age, max_age. apply Z.ltb_lt. exact Hold. }
    rewrite Hyes in Hkept. discriminate Hkept.
Qed.

(** The job run right after an upload keeps the uploaded object. *)
Lemma uploaded_file_kept_for_a_week_witness :
  exists f,
    fst (App.upload_file "folder-1" "note.txt" [x68; x69]%byte "text/plain"
                         hello_store) = Ok f /\
    In f (Drive.files (drive (snd (cleanup_old_files after_upload)))).
Proof.
  destruct (uploaded_file_kept_for_a_week "folder-1" "note.txt" [x68; x69]%byte
              "text/plain" hello_store after_upload)
    as (f & Hup & Htime & Hkeep & _).
  - intros n. reflexivity.
  - vm_compute. reflexivity.
  - reflexivity.
  - exists f. split; [exact Hup|]. apply Hkeep.
    rewrite Htime. unfold after_upload, world_of, hello_store, store.
    cbn [clock ticks Drive.server_time]. unfold timedelta_days, MAX_AGE_DAYS, DAY.
    lia.
Defined.

End EndToEnd.
